(** * yahoo-crawler: crawl-state management, checked against its specification

    A shallow embedding of the link store ([AnchorCrawler]), the comment
    extraction engine ([CommentCrawler]) and the page plugins
    ([page_to_do_plugins]) of the crawler, and the properties its
    specification states about them.

    Python values are modelled as follows.
    - [str] is a list of Unicode code points ([N]).
    - [dict] (insertion ordered, unique keys) is an association list.
    - A [set] of strings is a [gset].
    - A text file is the text it holds; a missing file is [None]; a
      directory is a finite map from file names to texts.
    - Code that can raise returns a [result]; code that also changes
      state is a [prog]: a state transformer whose state survives a raise. *)

From stdpp Require Import base option list gmap.
From Stdlib Require Import ZArith Lia.
From Equations Require Import Equations.

Local Open Scope N_scope.

(** ** Python strings *)

Module Py.

Abbreviation str := (list N).

Definition LF : N := 10.
Definition CR : N := 13.
Definition DOT : N := 46.

(** [str.isspace] on one code point: the Unicode white space set of
    CPython ([_PyUnicode_IsWhitespace]). *)
Definition isspace (c : N) : bool :=
  ((9 <=? c) && (c <=? 13)) || ((28 <=? c) && (c <=? 32))
  || (c =? 133) || (c =? 160) || (c =? 5760)
  || ((8192 <=? c) && (c <=? 8202))
  || (c =? 8232) || (c =? 8233) || (c =? 8239) || (c =? 8287) || (c =? 12288).

Fixpoint lstrip (s : str) : str :=
  match s with
  | [] => []
  | c :: s' => if isspace c then lstrip s' else s
  end.

Definition rstrip (s : str) : str := reverse (lstrip (reverse s)).

(** [s.strip()] *)
Definition strip (s : str) : str := rstrip (lstrip s).

(** [s.startswith(prefix)] *)
Fixpoint startswith (s prefix : str) : bool :=
  match prefix with
  | [] => true
  | p :: prefix' =>
      match s with
      | [] => false
      | c :: s' => (c =? p) && startswith s' prefix'
      end
  end.

(** [s.partition(sep)] when [sep] occurs in [s]: the text before and
    after the first occurrence. *)
Fixpoint partition (sep s : str) : option (str * str) :=
  if startswith s sep then Some ([], drop (length sep) s)
  else match s with
       | [] => None
       | c :: s' => prod_map (cons c) id <$> partition sep s'
       end.

(** [sep in s] *)
Definition contains (sep s : str) : bool :=
  match partition sep s with Some _ => true | None => false end.

(** [s.split(sep, 1)] *)
Definition split1 (sep s : str) : list str :=
  match partition sep s with
  | Some (a, b) => [a; b]
  | None => [s]
  end.

(** Lines of a text read in text mode with universal newlines: a line
    ends at LF, CR or CR LF, and its terminator is delivered as LF; a last
    line without terminator is delivered as it is. [cur] holds the current
    line, reversed. *)
Fixpoint lines_from (cur : str) (text : str) : list str :=
  match text with
  | [] => match cur with [] => [] | _ => [reverse cur] end
  | c :: text' =>
      if c =? LF then reverse (LF :: cur) :: lines_from [] text'
      else if c =? CR then
        match text' with
        | c' :: text'' =>
            if c' =? LF then reverse (LF :: cur) :: lines_from [] text''
            else reverse (LF :: cur) :: lines_from [] text'
        | [] => [reverse (LF :: cur)]
        end
      else lines_from (c :: cur) text'
  end.

Definition splitlines_keepends (text : str) : list str := lines_from [] text.

(** [name.rfind] of a dot *)
Fixpoint rfind_dot (name : str) : option nat :=
  match name with
  | [] => None
  | c :: name' =>
      match rfind_dot name' with
      | Some i => Some (S i)
      | None => if c =? DOT then Some 0%nat else None
      end
  end.

(** [PurePath.suffix] and [PurePath.stem] of a file name
    (pathlib: the suffix starts at the last dot, unless that dot is the
    first or the last character of the name). *)
Definition suffix (name : str) : str :=
  match rfind_dot name with
  | Some i =>
      if (0 <? i)%nat && (i <? length name - 1)%nat then drop i name else []
  | None => []
  end.

Definition stem (name : str) : str :=
  match rfind_dot name with
  | Some i =>
      if (0 <? i)%nat && (i <? length name - 1)%nat then take i name else name
  | None => name
  end.

End Py.

Abbreviation str := Py.str.

(** ** Exceptions and stateful programs *)

Inductive exn : Type :=
| OSError
| TypeError
| ValueError
| ZeroDivisionError
| PlaywrightError.

Inductive result (A : Type) : Type :=
| Ok (a : A)
| Raise (e : exn).
Arguments Ok {A} a.
Arguments Raise {A} e.

(** A program over a state [S]: the state reached is kept when the
    program raises, as with Python objects and files. *)
Definition prog (S A : Type) : Type := S -> result A * S.

Definition ret {S A} (a : A) : prog S A := fun s => (Ok a, s).

Definition bind {S A B} (m : prog S A) (k : A -> prog S B) : prog S B :=
  fun s =>
    match m s with
    | (Ok a, s') => k a s'
    | (Raise e, s') => (Raise e, s')
    end.

Definition raise {S A} (e : exn) : prog S A := fun s => (Raise e, s).

(** [try: body except Exception as e: handler e] *)
Definition try_except {S A} (body : prog S A) (handler : exn -> prog S A)
  : prog S A :=
  fun s =>
    match body s with
    | (Ok a, s') => (Ok a, s')
    | (Raise e, s') => handler e s'
    end.

Definition get {S} : prog S S := fun s => (Ok s, s).
Definition modify {S} (f : S -> S) : prog S unit := fun s => (Ok tt, f s).

(** A value computed outside the program, brought into it. *)
Definition lift {S A} (r : result A) : prog S A := fun s => (r, s).

Declare Scope prog_scope.
Delimit Scope prog_scope with prog.
Notation "x <- m ;; k" := (bind m (fun x => k))
  (at level 100, m at next level, right associativity) : prog_scope.
Notation "m ;;; k" := (bind m (fun _ => k))
  (at level 100, right associativity) : prog_scope.
Local Open Scope prog_scope.

(** ** Logging *)

Inductive level : Type := INFO | WARNING | ERROR | DEBUG.

(** The messages of the crawler, by the place that logs them. *)
Inductive message : Type :=
(* anchor_crawler.py *)
| LastWrittenKey (key : str)
| LoadKeyFailed (e : exn)
| LinksAppended
| SaveLinksFailed (e : exn)
| CompletedCount (n : nat)
| SkipCrawled (link : str)
| ReadLinksFailed (e : exn)
| TooManyScrollRetries
| ScrollCollectFailed (e : exn)
| GoingTo
| CrawlFailed (e : exn)
(* comment_crawler.py *)
| ScrollingPage
| ScrollPageFailed (e : exn)
| Extracted (n : nat)
| ExtractFailed (e : exn)
| Added (n : nat)
| OpeningUrl (url : str)
| PluginRan
| PluginRaised (e : exn)
| NoNewComments (retries : Z)
| FetchInterrupted (e : exn)
| CommentsFetched (n : nat) (url : str)
| FetchFailed (url : str) (e : exn)
| CommentsAppended (n : nat) (file_name : str)
| SaveCommentsFailed (file_name : str) (e : exn)
| FileExistsSkip (file_name : str)
| IdleTimeout
(* page_to_do_plugins.py *)
| ButtonClicked
| ClickFailed (attempt : nat) (e : exn)
| NoButtons
| ButtonsFound (n : nat)
| ScrolledToButton
| MouseParked
| ButtonProblem (e : exn)
| ClicksDone (n : Z)
| PluginFailed (e : exn).

Definition log_record : Type := level * message.

(** ** consts.py *)

Definition KEY_VALUE_SEPARATOR : str := [9247].   (* U+241F *)
Definition ITEM_SEPARATOR : str := [9246].        (* U+241E *)
Definition ANCHOR_BATCH_SIZE : Z := 200.
Definition COMMENT_BATCH_SIZE : Z := 50.
Definition MAX_LINKS : Z := 10000.
Definition TOTAL_INSTANCE : Z := 10.
Definition TXT : str := [46; 116; 120; 116].      (* dot, t, x, t *)

(** ** Durable files

    A file opened for append is written one [f.write] at a time. The
    environment decides whether [open] succeeds and what each write does:
    a write that fails has put some prefix of its data in the file.

    Each write is taken to reach the disk when it is made. The file
    object that [open] gives keeps the text in a buffer first, so that a
    fault of the disk can also surface at a later [f.write] or when the
    file is closed; [Buffered] below has the flush of the links over such
    a file. *)

Inductive write_outcome : Type :=
| Written
| WriteFailed (partial : nat).

Record io_plan : Type := IoPlan {
  open_ok : bool;
  write_result : nat -> write_outcome   (* outcome of the n-th write *)
}.

Definition no_fault : io_plan :=
  {| open_ok := true; write_result := fun _ => Written |}.

(** [open] in append mode: creates the file when it is missing. *)
Definition open_append (io : io_plan) (file : option str) : result (option str) :=
  if open_ok io then Ok (Some (default [] file)) else Raise OSError.

(** The [n]-th [f.write(data)] on a file holding [file]. *)
Definition f_write (io : io_plan) (n : nat) (data : str) (file : option str)
  : result unit * option str :=
  match write_result io n with
  | Written => (Ok tt, Some (default [] file ++ data))
  | WriteFailed partial => (Raise OSError, Some (default [] file ++ take partial data))
  end.

(** A file opened for reading: the lines not read yet and the number of
    lines the program has been handed. *)
Record reader : Type := Reader {
  pending : list str;
  consumed : nat
}.

Definition open_read (text : str) : reader :=
  {| pending := Py.splitlines_keepends text; consumed := 0 |}.

(** [f.readlines()]: every remaining line, leaving the handle at the end. *)
Definition readlines (f : reader) : list str * reader :=
  (pending f, {| pending := []; consumed := consumed f + length (pending f) |}).

(** ** The world outside the crawler objects *)

(** What the renderer was asked to do to the [i]-th matched element. *)
Inductive event : Type :=
| ScrollIntoView (i : nat) (ok : bool)
| Click (i : nat) (attempt : nat) (ok : bool).

Record world : Type := World {
  anchor_file : option str;               (* ANCHOR_FILE, the link log *)
  comment_dir : option (gmap str str);    (* COMMENT_DIR: name -> text *)
  log : list log_record;
  events : list event
}.

Definition set_anchor_file (f : option str) (w : world) : world :=
  {| anchor_file := f; comment_dir := comment_dir w;
     log := log w; events := events w |}.

Definition set_comment_dir (d : option (gmap str str)) (w : world) : world :=
  {| anchor_file := anchor_file w; comment_dir := d;
     log := log w; events := events w |}.

Definition add_log (r : log_record) (w : world) : world :=
  {| anchor_file := anchor_file w; comment_dir := comment_dir w;
     log := log w ++ [r]; events := events w |}.

Definition add_event (e : event) (w : world) : world :=
  {| anchor_file := anchor_file w; comment_dir := comment_dir w;
     log := log w; events := events w ++ [e] |}.

(** [log.info], [log.warning], ... *)
Definition emit (lv : level) (m : message) : prog world unit :=
  modify (add_log (lv, m)).

(** A generator: a program that also appends to the list of what it has
    yielded so far. *)
Definition gen (Y A : Type) : Type := prog (list Y * world) A.

Definition yield_ {Y} (y : Y) : gen Y unit :=
  modify (fun yw => (fst yw ++ [y], snd yw)).

Definition in_gen {Y A} (m : prog world A) : gen Y A :=
  fun yw => let '(r, w) := m (snd yw) in (r, (fst yw, w)).

(** ** anchor_crawler.py *)

Module AnchorCrawler.

(** The fields of an [AnchorCrawler] that the code below reads or writes. *)
Record t : Type := Self {
  max_links : Z;
  batch_size : Z;
  scroll_retries : Z;
  links : list (str * str);            (* hash -> link, in insertion order *)
  last_written_key : option str
}.

(** The crawler object together with the world it acts on. *)
Record state : Type := State {
  self : t;
  env : world
}.

Definition set_last_written_key (key : option str) (s : state) : state :=
  {| self := {| max_links := max_links (self s);
                batch_size := batch_size (self s);
                scroll_retries := scroll_retries (self s);
                links := links (self s);
                last_written_key := key |};
     env := env s |}.

Definition set_links (l : list (str * str)) (s : state) : state :=
  {| self := {| max_links := max_links (self s);
                batch_size := batch_size (self s);
                scroll_retries := scroll_retries (self s);
                links := l;
                last_written_key := last_written_key (self s) |};
     env := env s |}.

Definition on_world {A} (m : prog world A) : prog state A :=
  fun s => let '(r, w) := m (env s) in (r, {| self := self s; env := w |}).

(** [__init__] before [_load_last_written_key] runs. *)
Definition init (max_links batch_size scroll_retries : Z) : t :=
  {| max_links := max_links; batch_size := batch_size;
     scroll_retries := scroll_retries; links := []; last_written_key := None |}.

(** A log line without surrounding white space and without its leading
    [ITEM_SEPARATOR]. *)
Definition unframe (line : str) : str :=
  let line := Py.strip line in
  if Py.startswith line ITEM_SEPARATOR then drop (length ITEM_SEPARATOR) line
  else line.

(** [_load_last_written_key]. The second component is the file handle as
    the function leaves it ([None] when the file does not exist). *)
Definition _load_last_written_key (s : state) : state * option reader :=
  match anchor_file (env s) with
  | Some text =>
      let f := open_read text in
      let '(lines, f) := readlines f in
      match last lines with
      | Some line =>
          let last_line := unframe line in
          if Py.contains KEY_VALUE_SEPARATOR last_line then
            match Py.split1 KEY_VALUE_SEPARATOR last_line with
            | key :: _ =>
                let s := set_last_written_key (Some key) s in
                (snd (on_world (emit INFO (LastWrittenKey key)) s), Some f)
            | [] => (snd (on_world (emit ERROR (LoadKeyFailed ValueError)) s), Some f)
            end
          else (s, Some f)
      | None => (s, Some f)
      end
  | None => (s, None)
  end.

(** [AnchorCrawler(...)]: the constructor, on a world that holds the
    files of earlier runs. *)
Definition new (max_links batch_size scroll_retries : Z) (w : world) : state :=
  fst (_load_last_written_key
         {| self := init max_links batch_size scroll_retries; env := w |}).

(** The record written for one link. *)
Definition frame (key value : str) : str :=
  ITEM_SEPARATOR ++ key ++ KEY_VALUE_SEPARATOR ++ value ++ [Py.LF].

(** The [n]-th write on the link log. *)
Definition write_record (io : io_plan) (n : nat) (key value : str)
  : prog state unit :=
  on_world (fun w =>
    let '(r, f) := f_write io n (frame key value) (anchor_file w) in
    (r, set_anchor_file f w)).

(** The loop of [_save_links_incrementally] over [_filtered_link_generator]:
    the generator runs to its next [yield], the body of the [async for]
    writes the record and moves [last_written_key], and the generator is
    resumed. [n] counts the writes made on the open file. *)
Fixpoint save_loop (io : io_plan) (items : list (str * str))
    (start_yielding : bool) (n : nat) : prog state unit :=
  match items with
  | [] => ret tt
  | (key, value) :: rest =>
      if negb start_yielding then
        s <- get ;;
        if decide (Some key = last_written_key (self s))
        then save_loop io rest true n
        else save_loop io rest false n
      else
        write_record io n key value ;;;
        modify (set_last_written_key (Some key)) ;;;
        save_loop io rest true (S n)
  end.

(** [_save_links_incrementally] *)
Definition _save_links_incrementally (io : io_plan) : prog state unit :=
  try_except
    (f <- on_world (fun w => (open_append io (anchor_file w), w)) ;;
     on_world (modify (set_anchor_file f)) ;;;
     s <- get ;;
     save_loop io (links (self s))
       (bool_decide (last_written_key (self s) = None)) 0 ;;;
     on_world (emit INFO LinksAppended))
    (fun e => on_world (emit ERROR (SaveLinksFailed e))).

(** What [_filtered_link_generator] yields when nothing changes
    [last_written_key] before its first [yield]. *)
Fixpoint filtered_from (last : option str) (start_yielding : bool)
    (items : list (str * str)) : list (str * str) :=
  match items with
  | [] => []
  | (key, value) :: rest =>
      if negb start_yielding then
        if decide (Some key = last) then filtered_from last true rest
        else filtered_from last false rest
      else (key, value) :: filtered_from last true rest
  end.

Definition _filtered_link_generator (me : t) : list (str * str) :=
  filtered_from (last_written_key me)
    (bool_decide (last_written_key me = None)) (links me).

(** The hashes whose comment file is in [COMMENT_DIR]:
    the [stem] of every entry of the directory whose [suffix] is [TXT]. *)
Definition completed_hashes (dir : gmap str str) : gset str :=
  set_map Py.stem (filter (fun name => Py.suffix name = TXT) (dom dir)).

(** The [async for line in f] of [read_persisted_links]. *)
Fixpoint read_lines (completed : gset str) (lines : list str)
  : gen (str * str) unit :=
  match lines with
  | [] => ret tt
  | line :: rest =>
      let line := unframe line in
      (if Py.contains KEY_VALUE_SEPARATOR line then
         match Py.split1 KEY_VALUE_SEPARATOR line with
         | [key; value] =>
             if decide (key ∈ completed)
             then in_gen (emit INFO (SkipCrawled value))
             else yield_ (key, value)
         | _ => raise ValueError
         end
       else ret tt) ;;;
      read_lines completed rest
  end.

(** [read_persisted_links] *)
Definition read_persisted_links : gen (str * str) unit :=
  try_except
    (yw <- get ;;
     match comment_dir (snd yw) with
     | None => raise OSError
     | Some dir =>
         let completed := completed_hashes dir in
         in_gen (emit INFO (CompletedCount (size completed))) ;;;
         match anchor_file (snd yw) with
         | Some text => read_lines completed (Py.splitlines_keepends text)
         | None => ret tt
         end
     end)
    (fun e => in_gen (emit ERROR (ReadLinksFailed e))).

(** One pass of the reader over a world: what it yields, and the world
    afterwards. The pass sees the link log and the directory as they are
    when it starts. *)
Definition replay (w : world) : list (str * str) * world :=
  snd (read_persisted_links ([], w)).

Section Scroll.

(** [urllib.parse.urljoin] and the hex digest of [hashlib.md5] over the
    UTF-8 encoding of a link. *)
Variable urljoin : str -> str -> str.
Variable md5_hexdigest : str -> str.
Variable target_url : str.

(** What the page does in one iteration of the scroll loop. *)
Record scroll_view : Type := ScrollView {
  scrolled : result unit;                       (* scrollBy, then networkidle *)
  hrefs : result (list (result (option str)));  (* the elements and their href *)
  height : result Z;                            (* document.body.scrollHeight *)
  disk : io_plan                                (* for a flush in this iteration *)
}.

Definition _hash_link (link : str) : str := md5_hexdigest link.

(** [for element in elements: ...] *)
Fixpoint collect (elements : list (result (option str))) : prog state unit :=
  match elements with
  | [] => ret tt
  | element :: rest =>
      link <- lift element ;;
      match link with
      | Some (c :: l) =>
          let full_link := urljoin target_url (c :: l) in
          let hashed := _hash_link full_link in
          s <- get ;;
          if decide (hashed ∈ (links (self s)).*1) then ret tt
          else modify (set_links (links (self s) ++ [(hashed, full_link)]))
      | _ => ret tt
      end ;;;
      collect rest
  end.

(** [a % b] on Python integers. *)
Definition py_mod {S} (a b : Z) : prog S Z :=
  if (b =? 0)%Z then raise ZeroDivisionError else ret (a mod b)%Z.

(** The body of the [try] in the scroll loop; the result says whether
    the loop goes on, with the new [prev_height] and [retries]. *)
Definition scroll_body (v : scroll_view) (prev_height retries : Z)
  : prog state (bool * Z * Z) :=
  lift (scrolled v) ;;;
  elements <- lift (hrefs v) ;;
  collect elements ;;;
  s <- get ;;
  m <- py_mod (Z.of_nat (length (links (self s)))) (batch_size (self s)) ;;
  (if (m =? 0)%Z then _save_links_incrementally (disk v) else ret tt) ;;;
  curr_height <- lift (height v) ;;
  if (curr_height =? prev_height)%Z then
    let retries := (retries + 1)%Z in
    if (retries >=? scroll_retries (self s))%Z
    then on_world (emit WARNING TooManyScrollRetries) ;;; ret (false, prev_height, retries)
    else ret (true, curr_height, retries)
  else ret (true, curr_height, 0%Z).

(** [scroll_and_collect_links]; [page i] is the page in iteration [i].
    [None]: the loop did not end within [fuel] iterations. *)
Fixpoint scroll_loop (fuel : nat) (page : nat -> scroll_view) (i : nat)
    (prev_height retries : Z) (s : state) : option state :=
  if (Z.of_nat (length (links (self s))) <? max_links (self s))%Z then
    match fuel with
    | O => None
    | S fuel' =>
        match scroll_body (page i) prev_height retries s with
        | (Ok (true, prev_height', retries'), s') =>
            scroll_loop fuel' page (S i) prev_height' retries' s'
        | (Ok (false, _, _), s') => Some s'
        | (Raise e, s') => Some (snd (on_world (emit ERROR (ScrollCollectFailed e)) s'))
        end
    end
  else Some s.

Definition scroll_and_collect_links (fuel : nat) (page : nat -> scroll_view)
    (s : state) : option state :=
  scroll_loop fuel page 0 0%Z 0%Z s.

(** [start_crawling]: [goto] is what [page.goto] does, [final_disk] the
    disk at the flush of the [finally]. *)
Definition start_crawling (fuel : nat) (goto : result unit)
    (page : nat -> scroll_view) (final_disk : io_plan) (s : state)
  : option state :=
  match (on_world (emit INFO GoingTo) ;;; lift goto) s with
  | (Ok _, s) =>
      s ← scroll_and_collect_links fuel page s;
      Some (snd (_save_links_incrementally final_disk s))
  | (Raise e, s) =>
      Some (snd (_save_links_incrementally final_disk
                   (snd (on_world (emit ERROR (CrawlFailed e)) s))))
  end.

End Scroll.

End AnchorCrawler.

(** ** page_to_do_plugins.py *)

Module Plugins.

Inductive selector : Type :=
| CloseButton          (* the close button of a dialog *)
| ExpandButton         (* the button that expands a thread *)
| MoreRepliesButton    (* the button with text: more replies *)
| ViewMoreComments.    (* the button with text: View more comments *)

(** An element handle, by what the renderer answers while the plugin
    works on it. *)
Record button : Type := Button {
  scroll_into_view_if_needed : result unit;
  click : nat -> result unit;          (* by attempt *)
  wait_for_load_state : result unit;
  mouse_move : result unit
}.

(** The page as a plugin sees it: the answer to [query_selector_all]. *)
Definition page : Type := selector -> result (list button).

(** The module opens with [import random], so the name [random] is bound
    to the module, and the expression [random()] (lines 10 and 46) calls a
    module object: Python raises [TypeError: 'module' object is not
    callable]. (comment_crawler.py has [from random import random] and
    anchor_crawler.py calls [random.random()]; both return a number.) *)
Definition random_of_import_random : result unit := Raise TypeError.

Section Random.

(** What evaluating [random()] does. *)
Variable random : result unit.

Definition do_click (b : button) (i attempt : nat) : prog world unit :=
  fun w =>
    match click b attempt with
    | Ok tt => (Ok tt, add_event (Click i attempt true) w)
    | Raise e => (Raise e, add_event (Click i attempt false) w)
    end.

Definition do_scroll_into_view (b : button) (i : nat) : prog world unit :=
  fun w =>
    match scroll_into_view_if_needed b with
    | Ok tt => (Ok tt, add_event (ScrollIntoView i true) w)
    | Raise e => (Raise e, add_event (ScrollIntoView i false) w)
    end.

(** [_safe_click]: [for attempt in range(retries)], from [attempt] on.
    The argument [timeout=int(500 * random())] is evaluated before
    [click] is called. [i] is the position of the button on the page. *)
Fixpoint safe_click_from (b : button) (i attempt retries : nat)
  : prog world unit :=
  match retries with
  | O => ret tt
  | S retries' =>
      clicked <- try_except
                   (lift random ;;;
                    do_click b i attempt ;;;
                    emit INFO ButtonClicked ;;;
                    ret true)
                   (fun e => emit WARNING (ClickFailed (attempt + 1) e) ;;;
                             ret false) ;;
      if clicked : bool then ret tt
      else safe_click_from b i (S attempt) retries'
  end.

Definition _safe_click (b : button) (i : nat) : prog world unit :=
  safe_click_from b i 0 3.

(** [for button in buttons: ...] with [total_clicks]. *)
Fixpoint click_each (buttons : list button) (i : nat) (total_clicks : Z)
  : prog world Z :=
  match buttons with
  | [] => ret total_clicks
  | b :: rest =>
      total_clicks <-
        try_except
          (do_scroll_into_view b i ;;;
           emit DEBUG ScrolledToButton ;;;
           _safe_click b i ;;;
           lift (wait_for_load_state b) ;;;
           lift random ;;;                  (* asyncio.sleep(random() * 2) *)
           lift (mouse_move b) ;;;
           emit DEBUG MouseParked ;;;
           ret (total_clicks + 1)%Z)
          (fun e => emit WARNING (ButtonProblem e) ;;; ret total_clicks) ;;
      click_each rest (S i) total_clicks
  end.

(** [_click_buttons_once] *)
Definition _click_buttons_once (pg : page) (button_selector : selector)
  : prog world bool :=
  try_except
    (buttons <- lift (pg button_selector) ;;
     match buttons with
     | [] => emit INFO NoButtons ;;; ret false
     | _ =>
         emit INFO (ButtonsFound (length buttons)) ;;;
         total_clicks <- click_each buttons 0 0%Z ;;
         emit INFO (ClicksDone total_clicks) ;;;
         ret (total_clicks >? 0)%Z
     end)
    (fun e => emit ERROR (PluginFailed e) ;;; ret false).

End Random.

(** The four plugins, with [random] as the module binds it. *)
Definition click_close_button (pg : page) : prog world bool :=
  _click_buttons_once random_of_import_random pg CloseButton.
Definition click_expand_buttons (pg : page) : prog world bool :=
  _click_buttons_once random_of_import_random pg ExpandButton.
Definition click_more_replies_buttons (pg : page) : prog world bool :=
  _click_buttons_once random_of_import_random pg MoreRepliesButton.
Definition click_view_more_comments (pg : page) : prog world bool :=
  _click_buttons_once random_of_import_random pg ViewMoreComments.

(** The elements a run has clicked with success. *)
Definition activated (evs : list event) : list nat :=
  omap (fun e => match e with Click i _ true => Some i | _ => None end) evs.

(** The elements a run has started to process. *)
Definition visited (evs : list event) : list nat :=
  omap (fun e => match e with ScrollIntoView i _ => Some i | _ => None end) evs.

End Plugins.

(** ** comment_crawler.py *)

Module CommentCrawler.

(** What the page shows in one iteration of the extraction loop. *)
Record view : Type := View {
  texts : result (list (result str));   (* the elements and their inner_text *)
  heights : result (Z * Z)              (* scrollHeight before and after scrolling *)
}.

(** The renderer and the disk while one link is processed; [i] is the
    iteration of the extraction loop. *)
Record session : Type := Session {
  goto : result unit;                   (* page.goto, then networkidle *)
  buttons : nat -> Plugins.page;
  views : nat -> view;
  flush_io : nat -> io_plan;            (* for a save in iteration i *)
  final_io : io_plan                    (* for the save of process_links *)
}.

Definition plugin : Type := Plugins.page -> prog world bool.

Definition file_at (name : str) (w : world) : option str :=
  d ← comment_dir w; d !! name.

Definition set_file (name : str) (text : str) (w : world) : world :=
  set_comment_dir (<[name := text]> <$> comment_dir w) w.

(** [_scroll_page] *)
Definition _scroll_page (v : view) : prog world bool :=
  try_except
    (emit INFO ScrollingPage ;;;
     h <- lift (heights v) ;;
     ret (snd h >? fst h)%Z)
    (fun e => emit ERROR (ScrollPageFailed e) ;;; ret false).

(** [[await element.inner_text() for element in elements]] *)
Fixpoint inner_texts (elements : list (result str)) : result (list str) :=
  match elements with
  | [] => Ok []
  | e :: rest =>
      match e with
      | Ok c => match inner_texts rest with
                | Ok cs => Ok (c :: cs)
                | Raise x => Raise x
                end
      | Raise x => Raise x
      end
  end.

(** [_extract_comments] *)
Definition _extract_comments (v : view) : prog world (list str) :=
  try_except
    (elements <- lift (texts v) ;;
     comments <- lift (inner_texts elements) ;;
     emit INFO (Extracted (length comments)) ;;;
     ret comments)
    (fun e => emit ERROR (ExtractFailed e) ;;; ret []).

(** [_is_new_content_loaded] *)
Definition _is_new_content_loaded (comments new_comments : list str)
  : prog world (list str) :=
  let added_comments := filter (fun c => c ∉ comments) new_comments in
  emit INFO (Added (length added_comments)) ;;;
  ret added_comments.

(** [for comment in comments: f.write(comment + newline)] *)
Fixpoint write_comments (io : io_plan) (file_name : str) (n : nat)
    (comments : list str) : prog world unit :=
  match comments with
  | [] => ret tt
  | comment :: rest =>
      (fun w =>
         let '(r, f) := f_write io n (comment ++ [Py.LF]) (file_at file_name w) in
         (r, set_file file_name (default [] f) w)) ;;;
      write_comments io file_name (S n) rest
  end.

(** [_save_comments]. The file cannot be opened when its directory is
    missing. *)
Definition _save_comments (io : io_plan) (file_name : str)
    (comments : list str) : prog world unit :=
  try_except
    ((fun w =>
        match comment_dir w with
        | None => (Raise OSError, w)
        | Some _ =>
            match open_append io (file_at file_name w) with
            | Ok f => (Ok tt, set_file file_name (default [] f) w)
            | Raise e => (Raise e, w)
            end
        end) ;;;
     write_comments io file_name 0 comments ;;;
     emit INFO (CommentsAppended (length comments) file_name))
    (fun e => emit ERROR (SaveCommentsFailed file_name e)).

(** The variables of the loop of [_fetch_comments]. *)
Record vars : Type := Vars {
  comments : list str;
  retries : Z;
  flush_idx : nat
}.

Definition max_retries : Z := 5.

Definition on_world {A} (m : prog world A) : prog (vars * world) A :=
  fun vw => let '(r, w) := m (snd vw) in (r, (fst vw, w)).

Definition update (f : vars -> vars) : prog (vars * world) unit :=
  modify (fun vw => (f (fst vw), snd vw)).

(** [for plugin in page_to_do_plugins: ...] *)
Fixpoint run_plugins (page_to_do_plugins : list plugin) (pg : Plugins.page)
  : prog world unit :=
  match page_to_do_plugins with
  | [] => ret tt
  | plugin :: rest =>
      try_except
        (plugin pg ;;; emit INFO PluginRan)
        (fun e => emit WARNING (PluginRaised e)) ;;;
      run_plugins rest pg
  end.

(** The part of the loop body that takes in what the page shows: from
    [added_comments = ...] to the end of [if added_comments:]. The result
    is [added_comments]. *)
Definition take_in (output_file : str) (io : io_plan) (new_comments : list str)
  : prog (vars * world) (list str) :=
  vw <- get ;;
  added_comments <- on_world (_is_new_content_loaded (comments (fst vw)) new_comments) ;;
  match added_comments with
  | [] => ret tt
  | _ =>
      update (fun v => {| comments := comments v ++ added_comments;
                          retries := retries v; flush_idx := flush_idx v |}) ;;;
      vw <- get ;;
      let cs := comments (fst vw) in
      match cs with
      | [] => ret tt
      | _ =>
          if (Z.of_nat (length cs) - Z.of_nat (flush_idx (fst vw))
              >=? COMMENT_BATCH_SIZE)%Z then
            on_world (_save_comments io output_file
                        (drop (flush_idx (fst vw)) cs)) ;;;
            update (fun v => {| comments := comments v; retries := retries v;
                                flush_idx := length cs |})
          else ret tt
      end
  end ;;;
  ret added_comments.

(** The end of the loop body: [if not scrolled and not added_comments]. *)
Definition count_round (scrolled : bool) (added_comments : list str)
  : prog (vars * world) unit :=
  match scrolled, added_comments with
  | false, [] =>
      update (fun v => {| comments := comments v; retries := (retries v + 1)%Z;
                          flush_idx := flush_idx v |}) ;;;
      vw <- get ;;
      on_world (emit WARNING (NoNewComments (retries (fst vw))))
  | _, _ =>
      update (fun v => {| comments := comments v; retries := 0%Z;
                          flush_idx := flush_idx v |})
  end.

(** The body of the [try] inside [while retries < max_retries]. *)
Definition fetch_body (output_file : str) (p : session) (i : nat)
    (page_to_do_plugins : list plugin) : prog (vars * world) unit :=
  on_world (run_plugins page_to_do_plugins (buttons p i)) ;;;
  new_comments <- on_world (_extract_comments (views p i)) ;;
  added_comments <- take_in output_file (flush_io p i) new_comments ;;
  scrolled <- on_world (_scroll_page (views p i)) ;;
  count_round scrolled added_comments.

(** [while retries < max_retries: try: ... except: ...; break].
    [None]: the loop did not end within [fuel] iterations. *)
Fixpoint fetch_loop (fuel : nat) (output_file : str) (p : session) (i : nat)
    (page_to_do_plugins : list plugin) (vw : vars * world)
  : option (vars * world) :=
  if (retries (fst vw) <? max_retries)%Z then
    match fuel with
    | O => None
    | S fuel' =>
        match fetch_body output_file p i page_to_do_plugins vw with
        | (Ok tt, vw') => fetch_loop fuel' output_file p (S i) page_to_do_plugins vw'
        | (Raise e, vw') =>
            Some (fst vw', add_log (ERROR, FetchInterrupted e) (snd vw'))
        end
    end
  else Some vw.

(** [_fetch_comments]; [output_file] is [self.output_file]. *)
Definition _fetch_comments (fuel : nat) (output_file : str) (p : session)
    (url : str) (page_to_do_plugins : list plugin) (w : world)
  : option (list str * world) :=
  match (emit INFO (OpeningUrl url) ;;; lift (goto p)) w with
  | (Ok _, w) =>
      vw ← fetch_loop fuel output_file p 0 page_to_do_plugins
             ({| comments := []; retries := 0; flush_idx := 0 |}, w);
      Some (comments (fst vw),
            add_log (INFO, CommentsFetched (length (comments (fst vw))) url) (snd vw))
  | (Raise e, w) => Some ([], add_log (ERROR, FetchFailed url e) w)
  end.

(** [get_link_generator]: the items yielded from counter [i] on, and the
    exception that ended the generator, if one did. *)
Fixpoint get_link_from {A} (i : Z) (all_links : list A)
    (instance_id total_instances : Z) : list A * option exn :=
  match all_links with
  | [] => ([], None)
  | x :: rest =>
      if (total_instances =? 0)%Z then ([], Some ZeroDivisionError)
      else
        let '(ys, e) := get_link_from (i + 1) rest instance_id total_instances in
        (if (i mod total_instances =? instance_id)%Z then x :: ys else ys, e)
  end.

Definition get_link_generator {A} (all_links : list A)
    (instance_id total_instances : Z) : list A * option exn :=
  get_link_from 0 all_links instance_id total_instances.

(** [run_all_instances], as far as the links go: the stream of the task
    with [instance_id = i], for [i] in [range(total_instances)], each over
    its own pass of the reader. *)
Definition run_all_instances {A} (total_instances : Z) (all_links : list A)
  : list (list A * option exn) :=
  (fun i => get_link_generator all_links i total_instances)
    <$> seqZ 0 total_instances.

(** The four plugins that [process_links] passes. *)
Definition page_to_do_plugins : list plugin :=
  [Plugins.click_view_more_comments; Plugins.click_close_button;
   Plugins.click_expand_buttons; Plugins.click_more_replies_buttons].

(** [async for hash_key, link in links: ...] of [process_links];
    [renderer link] is the session the renderer gives for [link]. *)
Fixpoint process_each (fuel : nat) (renderer : str -> session)
    (links : list (str * str)) (w : world) : option world :=
  match links with
  | [] => Some w
  | (hash_key, link) :: rest =>
      let file_name := hash_key ++ TXT in
      match file_at file_name w with
      | Some _ => process_each fuel renderer rest (add_log (INFO, FileExistsSkip file_name) w)
      | None =>
          '(comments, w) ← _fetch_comments fuel file_name (renderer link) link
                             page_to_do_plugins w;
          process_each fuel renderer rest
            (snd (_save_comments (final_io (renderer link)) file_name comments w))
      end
  end.

(** [process_links]: the reader's pass, filtered for this instance, and
    the loop over it. [_wait_for_links] hands every link on unchanged
    (see [WaitForLinks]) and is left out here. *)
Definition process_links (fuel : nat) (renderer : str -> session)
    (instance_id total_instances : Z) (w : world) : option world :=
  let '(all_links, w) := AnchorCrawler.replay w in
  process_each fuel renderer
    (fst (get_link_generator all_links instance_id total_instances)) w.

End CommentCrawler.

(** ** CommentCrawler._wait_for_links

    Time is the reading of the event loop's clock, counted in ticks of
    its resolution. The environment says how many ticks pass at each
    suspension point; a completed [asyncio.sleep(1)] is seen to take at
    least one tick. *)

Module WaitForLinks.

(** One item of the stream, with the ticks that pass before the stream
    delivers it ([waited]), while the consumer holds it and the generator
    is suspended at its [yield] ([held]), and during [asyncio.sleep(0)]
    ([paused]). *)
Record arrival (A : Type) : Type := Arrival {
  waited : N;
  item : A;
  held : N;
  paused : N
}.
Arguments Arrival {A} _ _ _ _.
Arguments waited {A} _.
Arguments item {A} _.
Arguments held {A} _.
Arguments paused {A} _.

(** The outcome of a run: what was yielded, the clock and [start_time]
    at the end, the number of [asyncio.sleep(1)] calls, and the log. *)
Record outcome (A : Type) : Type := Outcome {
  yielded : list A;
  now : Z;
  start_time : Z;
  sleeps : nat;
  log : list log_record
}.
Arguments Outcome {A} _ _ _ _ _.
Arguments yielded {A} _.
Arguments now {A} _.
Arguments start_time {A} _.
Arguments sleeps {A} _.
Arguments log {A} _.

(** [async for link in all_links: yield link; start_time = time(); sleep(0)] *)
Fixpoint pass_on {A} (all_links : list (arrival A)) (now start_time : Z)
  : list A * Z * Z :=
  match all_links with
  | [] => ([], now, start_time)
  | a :: rest =>
      let now := (now + Z.of_N (waited a))%Z in
      let now := (now + Z.of_N (held a))%Z in
      let start_time := now in
      let now := (now + Z.of_N (paused a))%Z in
      let '(ys, now, start_time) := pass_on rest now start_time in
      (item a :: ys, now, start_time)
  end.

(** [while time() - start_time < timeout: await asyncio.sleep(1)];
    [nap k] is the number of ticks the [k]-th sleep takes. The result is
    the clock at the end and the number of sleeps. *)
Equations? idle_wait (nap : nat -> positive) (k : nat)
    (start_time timeout now : Z) : Z * nat
    by wf (Z.to_nat (start_time + timeout - now)) lt :=
  idle_wait nap k start_time timeout now
    with decide (now - start_time < timeout)%Z := {
    | left _ => idle_wait nap (S k) start_time timeout (now + Z.pos (nap k));
    | right _ => (now, k) }.
Proof. lia. Qed.

(** [_wait_for_links]; [eof] is the number of ticks that pass before the
    stream reports its end. *)
Definition _wait_for_links {A} (all_links : list (arrival A)) (eof : N)
    (nap : nat -> positive) (timeout : Z) (now : Z) : outcome A :=
  let start_time := now in
  let '(ys, now, start_time) := pass_on all_links now start_time in
  let now := (now + Z.of_N eof)%Z in
  let '(now, k) := idle_wait nap 0 start_time timeout now in
  {| yielded := ys; now := now; start_time := start_time; sleeps := k;
     log := [(WARNING, IdleTimeout)] |}.

End WaitForLinks.

(** ** The specification's reading of the link store *)

(** The records of the working set observed after the resume cursor, in
    iteration order: all of them when there is no cursor, those after the
    record the cursor names otherwise, none when no record has that key. *)
Definition records_after (cursor : option str) (links : list (str * str))
  : list (str * str) :=
  match cursor with
  | None => links
  | Some c =>
      match list_find (fun kv => kv.1 = c) links with
      | Some (i, _) => drop (S i) links
      | None => []
      end
  end.

(** The text of a log that holds the given records. *)
Definition log_text (records : list (str * str)) : str :=
  mjoin ((fun kv => AnchorCrawler.frame kv.1 kv.2) <$> records).

(** The cursor after writing [records], starting from [cursor]. *)
Definition cursor_after (cursor : option str) (records : list (str * str))
  : option str :=
  match last records with
  | Some kv => Some kv.1
  | None => cursor
  end.

(** The crawler after [records] have been written to the link log,
    followed by the text [extra]. *)
Definition wrote (records : list (str * str)) (extra : str)
    (s : AnchorCrawler.state) : AnchorCrawler.state :=
  {| AnchorCrawler.self :=
       AnchorCrawler.self
         (AnchorCrawler.set_last_written_key
            (cursor_after (AnchorCrawler.last_written_key (AnchorCrawler.self s))
               records) s);
     AnchorCrawler.env :=
       set_anchor_file
         (Some (default [] (anchor_file (AnchorCrawler.env s))
                ++ log_text records ++ extra))
         (AnchorCrawler.env s) |}.

(** The crawler after a message has been logged. *)
Definition logged (lv : level) (m : message) (s : AnchorCrawler.state)
  : AnchorCrawler.state :=
  {| AnchorCrawler.self := AnchorCrawler.self s;
     AnchorCrawler.env := add_log (lv, m) (AnchorCrawler.env s) |}.

(** The text of a comment file that holds the given comments. *)
Definition comment_text (comments : list str) : str :=
  mjoin ((fun c => c ++ [Py.LF]) <$> comments).

(** The record a line of the link log stands for: the text before and
    after the first [KEY_VALUE_SEPARATOR] of the line, once white space
    around the line and a leading [ITEM_SEPARATOR] are taken off. A line
    without [KEY_VALUE_SEPARATOR] is malformed and stands for none. *)
Definition record_of (line : str) : option (str * str) :=
  Py.partition KEY_VALUE_SEPARATOR (AnchorCrawler.unframe line).

(** The replay of a log: the records of its well-formed lines, in the
    order of the log, except those whose address is completed. *)
Definition replay_of (completed : gset str) (lines : list str)
  : list (str * str) :=
  filter (fun kv => kv.1 ∉ completed) (omap record_of lines).

(** What the reader logs about the lines it passes over. *)
Definition skipped_of (completed : gset str) (lines : list str)
  : list log_record :=
  (fun kv => (INFO, SkipCrawled kv.2))
    <$> filter (fun kv => kv.1 ∈ completed) (omap record_of lines).

Definition add_logs (rs : list log_record) (w : world) : world :=
  {| anchor_file := anchor_file w; comment_dir := comment_dir w;
     log := log w ++ rs; events := events w |}.

(** A record that the link log can hold on one line: no line break in
    the key or in the link, no [KEY_VALUE_SEPARATOR] in the key. *)
Definition well_formed (kv : str * str) : Prop :=
  (Py.LF ∉ kv.1) /\ (Py.CR ∉ kv.1) /\ (9247 ∉ kv.1) /\ (Py.LF ∉ kv.2) /\ (Py.CR ∉ kv.2).

(** [enumerate(stream, start)]: the items of a stream with their
    0-based position. *)
Fixpoint enumerate_from {A} (start : nat) (stream : list A) : list (nat * A) :=
  match stream with
  | [] => []
  | x :: rest => (start, x) :: enumerate_from (S start) rest
  end.

Definition enumerate {A} (stream : list A) : list (nat * A) :=
  enumerate_from 0 stream.

(** The items of a stream that the specification assigns to a worker:
    those at a position [i] with [i mod N] the worker's id, each with its
    position. *)
Definition assigned_to {A} (total_instances instance_id : Z) (stream : list A)
  : list (nat * A) :=
  filter (fun p => (Z.of_nat p.1 mod total_instances)%Z = instance_id)
    (enumerate stream).

(** The world after more events and more log records. *)
Definition more (evs : list event) (rs : list log_record) (w : world) : world :=
  {| anchor_file := anchor_file w; comment_dir := comment_dir w;
     log := log w ++ rs; events := events w ++ evs |}.

Definition scroll_ok (b : Plugins.button) : bool :=
  match Plugins.scroll_into_view_if_needed b with Ok _ => true | Raise _ => false end.

(** The events of a plugin that scrolls to each button and never gets
    to call [click]. *)
Definition visits (start : nat) (buttons : list Plugins.button) : list event :=
  (fun p => ScrollIntoView p.1 (scroll_ok p.2)) <$> enumerate_from start buttons.

(** The warnings of [_safe_click] when every attempt raises [e]. *)
Definition failed_clicks (e : exn) (attempt retries : nat) : list log_record :=
  (fun k => (WARNING, ClickFailed (k + 1) e)) <$> seq attempt retries.

(** The comment file [name] holds [base] and then the comments that the
    loop of [_fetch_comments] counts as flushed. *)
Definition flushed_prefix (name base : str) (vw : CommentCrawler.vars * world)
  : Prop :=
  exists d,
    comment_dir vw.2 = Some d
    /\ (CommentCrawler.flush_idx vw.1 <= length (CommentCrawler.comments vw.1))%nat
    /\ default [] (d !! name)
       = base ++ comment_text (take (CommentCrawler.flush_idx vw.1)
                                 (CommentCrawler.comments vw.1)).

(** ** Sample data *)

Definition sample_world : world :=
  {| anchor_file := None; comment_dir := Some ∅; log := []; events := [] |}.

(** Three records under the keys a, b and c; the cursor is on a. *)
Definition sample_links : list (str * str) :=
  [([97], [104; 49]); ([98], [104; 50]); ([99], [104; 51])].

Definition sample_crawler : AnchorCrawler.state :=
  {| AnchorCrawler.self :=
       {| AnchorCrawler.max_links := MAX_LINKS;
          AnchorCrawler.batch_size := ANCHOR_BATCH_SIZE;
          AnchorCrawler.scroll_retries := 5;
          AnchorCrawler.links := sample_links;
          AnchorCrawler.last_written_key := Some [97] |};
     AnchorCrawler.env := sample_world |}.

(** A new record under the key d. *)
Definition sample_new : list (str * str) := [([100], [104; 52])].

(** A disk whose write number [j] fails after [partial] characters. *)
Definition fails_at (j partial : nat) : io_plan :=
  {| open_ok := true;
     write_result := fun n => if (n =? j)%nat then WriteFailed partial else Written |}.

(** A world whose link log holds the records under a and b, a line
    without separator, and the record under c, and whose directory of
    comments holds the file of b. *)
Definition sample_log : str :=
  log_text [([97], [104; 49]); ([98], [104; 50])]
  ++ [106; 117; 110; 107; 10]
  ++ log_text [([99], [104; 51])].

Definition sample_dir : gmap str str := {[ [98] ++ TXT := [] ]}.

Definition sample_disk : world :=
  {| anchor_file := Some sample_log; comment_dir := Some sample_dir;
     log := []; events := [] |}.

(** The same log without a directory of comments. *)
Definition sample_disk_no_dir : world :=
  {| anchor_file := Some sample_log; comment_dir := None;
     log := []; events := [] |}.

(** A world whose link log holds the three sample records. *)
Definition sample_disk3 : world :=
  {| anchor_file := Some (log_text sample_links); comment_dir := Some ∅;
     log := []; events := [] |}.

(** The crawler as [__init__] builds it on a world, with the default
    arguments. *)
Definition fresh (w : world) : AnchorCrawler.state :=
  {| AnchorCrawler.self := AnchorCrawler.init MAX_LINKS ANCHOR_BATCH_SIZE 5;
     AnchorCrawler.env := w |}.

(** A button that can be scrolled to and never takes a click. *)
Definition stubborn : Plugins.button :=
  {| Plugins.scroll_into_view_if_needed := Ok tt;
     Plugins.click := fun _ => Raise PlaywrightError;
     Plugins.wait_for_load_state := Ok tt;
     Plugins.mouse_move := Ok tt |}.

(** A button that takes the first click. *)
Definition willing : Plugins.button :=
  {| Plugins.scroll_into_view_if_needed := Ok tt;
     Plugins.click := fun _ => Ok tt;
     Plugins.wait_for_load_state := Ok tt;
     Plugins.mouse_move := Ok tt |}.

Definition is_warning (r : log_record) : bool :=
  match r.1 with WARNING => true | _ => false end.

(** Fifty different comments. *)
Definition sample_comments : list str :=
  (fun n => [99; N.of_nat n]) <$> seq 100 50.

(** A page that shows the given comments from the first look on and
    never grows. *)
Definition still_page (shown : list str) : CommentCrawler.session :=
  {| CommentCrawler.goto := Ok tt;
     CommentCrawler.buttons := fun _ _ => Ok [];
     CommentCrawler.views := fun _ =>
       {| CommentCrawler.texts := Ok (Ok <$> shown);
          CommentCrawler.heights := Ok (1000, 1000)%Z |};
     CommentCrawler.flush_io := fun _ => no_fault;
     CommentCrawler.final_io := no_fault |}.

(** One link, under the key a. *)
Definition sample_link : str * str := ([97], [104; 49]).

(** Three links of the feed. *)
Definition href_a : str := [47; 97].
Definition href_b : str := [47; 98].
Definition href_c : str := [47; 99].

(** A feed that shows the three links at the first scroll and never
    grows after it. *)
Definition small_feed : AnchorCrawler.scroll_view :=
  {| AnchorCrawler.scrolled := Ok tt;
     AnchorCrawler.hrefs := Ok [Ok (Some href_a); Ok (Some href_b); Ok (Some href_c)];
     AnchorCrawler.height := Ok 1000%Z;
     AnchorCrawler.disk := no_fault |}.

(** A crawler with batch size 2, as [__init__] builds it. *)
Definition eager (w : world) : AnchorCrawler.state :=
  {| AnchorCrawler.self := AnchorCrawler.init MAX_LINKS 2 5;
     AnchorCrawler.env := w |}.

Definition eager_crawler : AnchorCrawler.state := eager sample_world.

(** The hash of a link of the feed, once resolved against the target. *)
Definition feed_hash (urljoin : str -> str -> str) (md5_hexdigest : str -> str)
    (target_url : str) (l : str) : str :=
  md5_hexdigest (urljoin target_url l).

(** The working set once the three links of the small feed are in. *)
Definition three_links (urljoin : str -> str -> str) (md5_hexdigest : str -> str)
    (target_url : str) : list (str * str) :=
  (fun l => (feed_hash urljoin md5_hexdigest target_url l, urljoin target_url l))
    <$> [href_a; href_b; href_c].


(** ** Further readings of the code *)

(** A record as the reader gives it back: the link has lost the white
    space at its end. *)
Definition read_back (kv : str * str) : str * str :=
  (kv.1, Py.rstrip (kv.2 ++ [Py.LF])).

(** A link that does not end in white space. *)
Definition tidy (v : str) : Prop :=
  match last v with
  | Some c => Py.isspace c = false
  | None => True
  end.

(** A crawler that has collected the three sample records and has not
    written yet. *)
Definition sample_session : AnchorCrawler.state :=
  AnchorCrawler.set_links sample_links (fresh sample_world).

(** The record that the scroll loop makes of a link of the page. *)
Definition record_for (urljoin : str -> str -> str) (md5_hexdigest : str -> str)
    (target_url : str) (l : str) : str * str :=
  (md5_hexdigest (urljoin target_url l), urljoin target_url l).

(** The log is in step with the working set: it holds the first records
    of the working set, each once and in their order, and the cursor is
    on the last of them. *)
Definition synced (s : AnchorCrawler.state) : Prop :=
  exists n,
    (n <= length (AnchorCrawler.links (AnchorCrawler.self s)))%nat
    /\ default [] (anchor_file (AnchorCrawler.env s))
       = log_text (take n (AnchorCrawler.links (AnchorCrawler.self s)))
    /\ AnchorCrawler.last_written_key (AnchorCrawler.self s)
       = cursor_after None (take n (AnchorCrawler.links (AnchorCrawler.self s))).

(** The working set of [s] extends [old] at its end, by records of
    links, and holds no key twice. *)
Definition grown (urljoin : str -> str -> str) (md5_hexdigest : str -> str)
    (target_url : str) (old : list (str * str)) (s : AnchorCrawler.state) : Prop :=
  NoDup (AnchorCrawler.links (AnchorCrawler.self s)).*1
  /\ old `prefix_of` AnchorCrawler.links (AnchorCrawler.self s)
  /\ (forall kv, kv ∈ AnchorCrawler.links (AnchorCrawler.self s) ->
        kv ∈ old
        \/ exists l, l <> [] /\ kv = record_for urljoin md5_hexdigest target_url l).

(** A page without links whose height is read as [h i] in round [i]. *)
Definition bare_page (h : nat -> Z) (i : nat) : AnchorCrawler.scroll_view :=
  {| AnchorCrawler.scrolled := Ok tt;
     AnchorCrawler.hrefs := Ok [];
     AnchorCrawler.height := Ok (h i);
     AnchorCrawler.disk := no_fault |}.

(** A crawler with batch size 0, as [__init__] builds it. *)
Definition unbatched : AnchorCrawler.state :=
  {| AnchorCrawler.self := AnchorCrawler.init MAX_LINKS 0 5;
     AnchorCrawler.env := sample_world |}.

(** ** The loop of [_fetch_comments], by its variables *)

(** The texts that [_extract_comments] returns for a view. *)
Definition shown (v : CommentCrawler.view) : list str :=
  match CommentCrawler.texts v with
  | Ok elements =>
      match CommentCrawler.inner_texts elements with
      | Ok cs => cs
      | Raise _ => []
      end
  | Raise _ => []
  end.

(** What [_scroll_page] returns for a view. *)
Definition grows (v : CommentCrawler.view) : bool :=
  match CommentCrawler.heights v with
  | Ok h => (h.2 >? h.1)%Z
  | Raise _ => false
  end.

(** The variables of the loop after a round on a view. *)
Definition next_vars (v : CommentCrawler.view) (x : CommentCrawler.vars)
  : CommentCrawler.vars :=
  let added := filter (fun c => c ∉ CommentCrawler.comments x) (shown v) in
  let cs := CommentCrawler.comments x ++ added in
  {| CommentCrawler.comments := cs;
     CommentCrawler.retries :=
       match grows v, added with
       | false, [] => (CommentCrawler.retries x + 1)%Z
       | _, _ => 0%Z
       end;
     CommentCrawler.flush_idx :=
       match added with
       | [] => CommentCrawler.flush_idx x
       | _ =>
           if (Z.of_nat (length cs) - Z.of_nat (CommentCrawler.flush_idx x)
               >=? COMMENT_BATCH_SIZE)%Z
           then length cs else CommentCrawler.flush_idx x
       end |}.

(** The loop on the variables alone. *)
Fixpoint vars_loop (fuel : nat) (views : nat -> CommentCrawler.view) (i : nat)
    (x : CommentCrawler.vars) : option CommentCrawler.vars :=
  if (CommentCrawler.retries x <? CommentCrawler.max_retries)%Z then
    match fuel with
    | O => None
    | S fuel' => vars_loop fuel' views (S i) (next_vars (views i) x)
    end
  else Some x.

(** A page without comments that grows under every scroll. *)
Definition growing_page : CommentCrawler.session :=
  {| CommentCrawler.goto := Ok tt;
     CommentCrawler.buttons := fun _ _ => Ok [];
     CommentCrawler.views := fun i =>
       {| CommentCrawler.texts := Ok [];
          CommentCrawler.heights := Ok (Z.of_nat i, Z.of_nat (S i)) |};
     CommentCrawler.flush_io := fun _ => no_fault;
     CommentCrawler.final_io := no_fault |}.

(** The comments flushed so far come in batches: none or at least
    [COMMENT_BATCH_SIZE] of them are flushed, and fewer than
    [COMMENT_BATCH_SIZE] are not. *)
Definition batched (x : CommentCrawler.vars) : Prop :=
  (CommentCrawler.flush_idx x <= length (CommentCrawler.comments x))%nat
  /\ (length (CommentCrawler.comments x) - CommentCrawler.flush_idx x < 50)%nat
  /\ (CommentCrawler.flush_idx x = 0%nat \/ (50 <= CommentCrawler.flush_idx x)%nat).

(** ** What a worker does to the disk *)

(** The world [w'] differs from [w] on the disk at most by text added
    at the end of comment files that [names] names: the link log is as
    it was, no file has gone, and no other comment file has changed. *)
Definition appended (names : str -> Prop) (w w' : world) : Prop :=
  anchor_file w' = anchor_file w
  /\ (is_Some (comment_dir w) <-> is_Some (comment_dir w'))
  /\ (forall name, is_Some (CommentCrawler.file_at name w) ->
                   is_Some (CommentCrawler.file_at name w'))
  /\ (forall name, exists extra,
        default [] (CommentCrawler.file_at name w')
        = default [] (CommentCrawler.file_at name w) ++ extra)
  /\ (forall name, ~ names name ->
        CommentCrawler.file_at name w' = CommentCrawler.file_at name w).

(** ** A later session *)

(** The working set of a session that finds a newer link ahead of the
    three of [sample_links], the latest first: the records under d, c, b
    and a. *)
Definition sample_anew : list (str * str) :=
  [([100], [104; 52]); ([99], [104; 51]); ([98], [104; 50]); ([97], [104; 49])].

Definition href_d : str := [47; 100].

(** The feed of [small_feed] once a newer link has come in: the latest
    link is shown first. *)
Definition later_feed : AnchorCrawler.scroll_view :=
  {| AnchorCrawler.scrolled := Ok tt;
     AnchorCrawler.hrefs :=
       Ok [Ok (Some href_d); Ok (Some href_c); Ok (Some href_b); Ok (Some href_a)];
     AnchorCrawler.height := Ok 1000%Z;
     AnchorCrawler.disk := no_fault |}.

(** One session of the crawler, from [AnchorCrawler(...)] with the
    default arguments to the end of [start_crawling], on a feed that does
    not change while it is scrolled. The links are resolved and hashed to
    themselves here. *)
Definition crawl_session (feed : AnchorCrawler.scroll_view) (w : world)
  : option AnchorCrawler.state :=
  AnchorCrawler.start_crawling (fun _ l => l) (fun l => l) [] 6 (Ok tt)
    (fun _ => feed) no_fault
    (AnchorCrawler.new MAX_LINKS ANCHOR_BATCH_SIZE 5 w).

(** ** Buffered files

    [open(..., "a", encoding="utf-8")] gives a file object that keeps the
    text of [f.write] in a buffer ([DEFAULT_BUFFER_SIZE], 8192 bytes).
    Text that is shorter than the buffer reaches the disk when the file
    is closed, at the end of the [with] block: every [f.write] returns,
    and a fault of the disk is raised by the close. This is the flush of
    the links for such a text. *)

Module Buffered.
Import AnchorCrawler.

Definition DEFAULT_BUFFER_SIZE : Z := 8192.

(** The loop of [_save_links_incrementally] over
    [_filtered_link_generator], as [AnchorCrawler.save_loop] has it, with
    [f.write] adding to the buffer of the file. *)
Fixpoint save_loop (items : list (str * str)) (start_yielding : bool)
    (buffer : str) (s : state) : str * state :=
  match items with
  | [] => (buffer, s)
  | (key, value) :: rest =>
      if negb start_yielding then
        if decide (Some key = last_written_key (self s))
        then save_loop rest true buffer s
        else save_loop rest false buffer s
      else
        save_loop rest true (buffer ++ frame key value)
          (set_last_written_key (Some key) s)
  end.

(** The end of the [with] block: the buffer is written to the disk, in
    the one write that [io] decides. *)
Definition f_close (io : io_plan) (buffer : str) : prog state unit :=
  on_world (fun w =>
    let '(r, f) := f_write io 0 buffer (anchor_file w) in
    (r, set_anchor_file f w)).

(** [_save_links_incrementally] *)
Definition _save_links_incrementally (io : io_plan) : prog state unit :=
  try_except
    (f <- on_world (fun w => (open_append io (anchor_file w), w)) ;;
     on_world (modify (set_anchor_file f)) ;;;
     s <- get ;;
     let '(buffer, s) :=
       save_loop (links (self s))
         (bool_decide (last_written_key (self s) = None)) [] s in
     modify (fun _ => s) ;;;
     f_close io buffer ;;;
     on_world (emit INFO LinksAppended))
    (fun e => on_world (emit ERROR (SaveLinksFailed e))).

End Buffered.

(** ** A save that fails *)

(** A disk that opens a file and takes no text. *)
Definition full_disk : io_plan := fails_at 0 0.

Definition two_comments : list str := [[99; 49]; [99; 50]].

(** A page that shows two comments and never grows, while the disk is
    full when the comments of the link are saved. *)
Definition page_on_full_disk : CommentCrawler.session :=
  {| CommentCrawler.goto := Ok tt;
     CommentCrawler.buttons := fun _ _ => Ok [];
     CommentCrawler.views := fun _ =>
       {| CommentCrawler.texts := Ok (Ok <$> two_comments);
          CommentCrawler.heights := Ok (1000, 1000)%Z |};
     CommentCrawler.flush_io := fun _ => no_fault;
     CommentCrawler.final_io := full_disk |}.

(** A world whose link log holds the sample link and whose directory of
    comments is empty. *)
Definition sample_disk1 : world :=
  {| anchor_file := Some (log_text [sample_link]); comment_dir := Some ∅;
     log := []; events := [] |}.

(** * Properties *)

(** ** The flush of the working set *)

Module FlushFacts.
Import AnchorCrawler.

Lemma filtered_from_started last items : filtered_from last true items = items.
Proof.
  induction items as [|[k v] items IH]; simpl; [done|]. now rewrite IH.
Qed.

Lemma filtered_from_seek c items :
  filtered_from (Some c) false items = records_after (Some c) items.
Proof.
  unfold records_after.
  induction items as [|[k v] items IH]; simpl; [done|].
  destruct (decide (Some k = Some c)) as [E|NE].
  - injection E as ->. rewrite filtered_from_started.
    rewrite decide_True by done. simpl. now rewrite drop_0.
  - rewrite decide_False by congruence.
    rewrite IH. destruct (list_find _ items) as [[i x]|]; simpl; done.
Qed.

(** The generator yields the records after the cursor. *)
Lemma generator_spec (me : t) :
  _filtered_link_generator me = records_after (last_written_key me) (links me).
Proof.
  unfold _filtered_link_generator.
  destruct (last_written_key me) as [c|]; cbn.
  - apply filtered_from_seek.
  - apply filtered_from_started.
Qed.


Lemma save_loop_seek io items sy n s :
  save_loop io items sy n s
  = save_loop io (filtered_from (last_written_key (self s)) sy items) true n s.
Proof.
  revert sy; induction items as [|[k v] items IH]; intros sy; [done|].
  destruct sy; cbn [save_loop filtered_from negb].
  - now rewrite filtered_from_started.
  - unfold bind at 1, get.
    destruct (decide (Some k = last_written_key (self s))).
    + rewrite IH. now rewrite !filtered_from_started.
    + apply IH.
Qed.

Lemma cursor_after_cons c k v rest :
  cursor_after (Some k) rest = cursor_after c ((k, v) :: rest).
Proof.
  unfold cursor_after. destruct rest as [|p rest]; [reflexivity|].
  change (last ((k, v) :: p :: rest)) with (last (p :: rest)).
  destruct (last (p :: rest)) eqn:E; [reflexivity|].
  apply last_None in E. discriminate.
Qed.

Lemma wrote_step k v rest extra s text :
  anchor_file (env s) = Some text ->
  wrote rest extra
    (set_last_written_key (Some k)
       {| self := self s;
          env := set_anchor_file (Some (text ++ frame k v)) (env s) |})
  = wrote ((k, v) :: rest) extra s.
Proof.
  intros Hf. unfold wrote, set_last_written_key, set_anchor_file.
  cbn -[frame log_text cursor_after]. rewrite Hf. cbn -[frame log_text cursor_after].
  rewrite <- (cursor_after_cons (last_written_key (self s)) k v).
  change (log_text ((k, v) :: rest)) with (frame k v ++ log_text rest).
  now rewrite <- !app_assoc.
Qed.

(** Every write succeeds: all the items are written. *)
Lemma save_loop_written io items n s text :
  anchor_file (env s) = Some text ->
  (forall k, (k < length items)%nat -> write_result io (n + k) = Written) ->
  save_loop io items true n s = (Ok tt, wrote items [] s).
Proof.
  revert n s text; induction items as [|[k v] items IH]; intros n s text Hf Hw.
  - cbn. unfold ret, wrote, set_last_written_key, set_anchor_file, log_text, cursor_after.
    cbn. rewrite Hf. cbn. rewrite app_nil_r. revert Hf.
    destruct s as [[] []]; cbn. now intros ->.
  - cbn [save_loop negb]. unfold bind, write_record, on_world, f_write, modify.
    specialize (Hw 0%nat ltac:(cbn; lia)) as Hw0. rewrite Nat.add_0_r in Hw0.
    rewrite Hw0, Hf. cbn [default].
    erewrite IH; [ | reflexivity | ].
    + f_equal. now apply wrote_step.
    + intros j Hj. replace (Datatypes.S n + j)%nat with (n + Datatypes.S j)%nat by lia.
      apply Hw. cbn. lia.
Qed.

(** The write of the [j]-th item fails: the items before it are written,
    and a part of the [j]-th. *)
Lemma save_loop_failed io items n s text j kv partial :
  anchor_file (env s) = Some text ->
  items !! j = Some kv ->
  (forall k, (k < j)%nat -> write_result io (n + k) = Written) ->
  write_result io (n + j) = WriteFailed partial ->
  save_loop io items true n s
  = (Raise OSError, wrote (take j items) (take partial (frame kv.1 kv.2)) s).
Proof.
  revert n s text j; induction items as [|[k v] items IH]; intros n s text j Hf Hj Hw Hfail.
  - done.
  - cbn [save_loop negb]. unfold bind at 1, write_record, on_world, f_write.
    destruct j as [|j].
    + rewrite Nat.add_0_r in Hfail. rewrite Hfail, Hf. cbn in Hj. injection Hj as <-.
      cbn -[frame]. f_equal. unfold wrote, set_last_written_key, set_anchor_file, log_text, cursor_after.
      cbn -[frame]. rewrite Hf. now destruct s as [[] []].
    + specialize (Hw 0%nat ltac:(lia)) as Hw0. rewrite Nat.add_0_r in Hw0.
      rewrite Hw0, Hf. cbn [default]. unfold bind, modify.
      erewrite (IH (Datatypes.S n) _ _ j); [ | reflexivity | exact Hj | | ].
      * f_equal. cbn [take]. now apply wrote_step.
      * intros i Hi. replace (Datatypes.S n + i)%nat with (n + Datatypes.S i)%nat by lia.
        apply Hw. lia.
      * replace (Datatypes.S n + j)%nat with (n + Datatypes.S j)%nat by lia. exact Hfail.
Qed.


(** The crawler once the log has been opened for append. *)
Lemma wrote_opened records extra s :
  wrote records extra
    {| self := self s;
       env := set_anchor_file (Some (default [] (anchor_file (env s)))) (env s) |}
  = wrote records extra s.
Proof. reflexivity. Qed.

Lemma flush_opened io s :
  open_ok io = true ->
  _save_links_incrementally io s
  = match save_loop io (records_after (last_written_key (self s)) (links (self s)))
            true 0
            {| self := self s;
               env := set_anchor_file (Some (default [] (anchor_file (env s))))
                        (env s) |} with
    | (Ok tt, s') => (Ok tt, logged INFO LinksAppended s')
    | (Raise e, s') => (Ok tt, logged ERROR (SaveLinksFailed e) s')
    end.
Proof.
  intros Hopen.
  unfold _save_links_incrementally, try_except.
  unfold bind at 1. unfold on_world at 1, open_append. rewrite Hopen.
  unfold bind at 1. unfold on_world at 1, modify at 1. cbn [env self].
  unfold bind at 1, get at 1. cbn [env self].
  unfold bind at 1.
  rewrite save_loop_seek. cbn [self].
  fold (_filtered_link_generator (self s)). rewrite generator_spec.
  destruct (save_loop _ _ _ _ _) as [[[]|e] s']; reflexivity.
Qed.

(** A flush on a disk that takes every write. *)
Lemma flush_ok io s :
  open_ok io = true ->
  (forall k, (k < length (records_after (last_written_key (self s)) (links (self s))))%nat ->
             write_result io k = Written) ->
  _save_links_incrementally io s
  = (Ok tt, logged INFO LinksAppended
              (wrote (records_after (last_written_key (self s)) (links (self s))) [] s)).
Proof.
  intros Hopen Hw. rewrite flush_opened by done.
  erewrite save_loop_written; [ | reflexivity | exact Hw ].
  now rewrite wrote_opened.
Qed.

(** A flush whose [j]-th write fails. *)
Lemma flush_write_failed io s j kv partial :
  open_ok io = true ->
  records_after (last_written_key (self s)) (links (self s)) !! j = Some kv ->
  (forall k, (k < j)%nat -> write_result io k = Written) ->
  write_result io j = WriteFailed partial ->
  _save_links_incrementally io s
  = (Ok tt, logged ERROR (SaveLinksFailed OSError)
              (wrote (take j (records_after (last_written_key (self s)) (links (self s))))
                     (take partial (frame kv.1 kv.2)) s)).
Proof.
  intros Hopen Hj Hw Hfail. rewrite flush_opened by done.
  erewrite save_loop_failed; [ | reflexivity | exact Hj | exact Hw | exact Hfail ].
  now rewrite wrote_opened.
Qed.

(** A flush when the log cannot be opened. *)
Lemma flush_open_failed io s :
  open_ok io = false ->
  _save_links_incrementally io s = (Ok tt, logged ERROR (SaveLinksFailed OSError) s).
Proof.
  intros Hopen. unfold _save_links_incrementally, try_except, bind, on_world, open_append.
  rewrite Hopen. cbn. now destruct s.
Qed.


(** *** The records after the cursor *)

Lemma records_after_split pre c v post :
  c ∉ pre.*1 -> records_after (Some c) (pre ++ (c, v) :: post) = post.
Proof.
  intros Hc. unfold records_after.
  assert (list_find (fun kv : str * str => kv.1 = c) (pre ++ (c, v) :: post)
          = Some (length pre, (c, v))) as ->.
  { apply list_find_Some. split_and!.
    - now rewrite list_lookup_middle.
    - done.
    - intros j y Hj Hlt Hy. apply Hc. rewrite <- Hy.
      apply list_elem_of_fmap_2. rewrite lookup_app_l in Hj by done.
      eapply list_elem_of_lookup_2, Hj. }
  rewrite cons_middle, app_assoc. apply drop_app_length'.
  rewrite length_app. cbn. lia.
Qed.

Lemma records_after_missing c l : c ∉ l.*1 -> records_after (Some c) l = [].
Proof.
  intros Hc. unfold records_after.
  assert (list_find (fun kv : str * str => kv.1 = c) l = None) as ->; [|done].
  apply list_find_None, Forall_forall. intros kv Hkv <-.
  apply Hc. now apply list_elem_of_fmap_2.
Qed.

Lemma records_after_last l kv new :
  NoDup l.*1 -> last l = Some kv -> records_after (Some kv.1) (l ++ new) = new.
Proof.
  intros Hnd [l' ->]%last_Some. destruct kv as [c v].
  rewrite fmap_app in Hnd. apply NoDup_app in Hnd as (_ & Hnot & _).
  rewrite <- app_assoc. cbn. apply records_after_split.
  intros Hin. apply (Hnot c Hin). cbn. apply list_elem_of_here.
Qed.

(** The records after the cursor are a suffix of the working set. *)
Lemma records_after_suffix cursor l : exists n, records_after cursor l = drop n l.
Proof.
  destruct cursor as [c|]; cbn.
  - destruct (list_find _ l) as [[i x]|].
    + now exists (Datatypes.S i).
    + exists (length l). now rewrite drop_all.
  - now exists 0%nat.
Qed.

Lemma last_drop_nonempty {A} (l : list A) n :
  drop n l <> [] -> last (drop n l) = last l.
Proof.
  revert l; induction n as [|n IH]; intros l H; [now rewrite drop_0|].
  destruct l as [|x l]; [done|]. cbn in *.
  rewrite IH by done. destruct l; [now rewrite drop_nil in H|done].
Qed.

(** Where the cursor stands after a flush: on the last record of the
    working set, when the cursor was none or named one of its records. *)
Lemma cursor_after_flush cursor l kv :
  NoDup l.*1 ->
  (cursor = None \/ exists c, cursor = Some c /\ c ∈ l.*1) ->
  last l = Some kv ->
  cursor_after cursor (records_after cursor l) = Some kv.1.
Proof.
  intros Hnd Hvalid Hlast. unfold cursor_after.
  destruct (records_after_suffix cursor l) as [n Hn].
  destruct (records_after cursor l) as [|r rs] eqn:E.
  - cbn. destruct Hvalid as [->|(c & -> & Hc)].
    + cbn in E. subst l. done.
    + apply list_elem_of_fmap in Hc as ([c' v] & -> & Hin).
      apply list_elem_of_split in Hin as (pre & post & ->).
      rewrite records_after_split in E.
      * subst post. rewrite last_snoc in Hlast. now injection Hlast as <-.
      * rewrite fmap_app in Hnd. apply NoDup_app in Hnd as (_ & Hnot & _).
        intros Hin. apply (Hnot c' Hin). cbn. apply list_elem_of_here.
  - rewrite Hn, last_drop_nonempty, Hlast; [done|]. now rewrite <- Hn.
Qed.

(** After a flush the cursor names no record that has records after it. *)
Lemma nothing_after_flush cursor l :
  NoDup l.*1 ->
  records_after (cursor_after cursor (records_after cursor l)) l = [].
Proof.
  intros Hnd. unfold cursor_after.
  destruct (records_after_suffix cursor l) as [n Hn].
  destruct (last (records_after cursor l)) as [kv|] eqn:E.
  - assert (last l = Some kv) as Hlast.
    { rewrite Hn in E. rewrite <- E. symmetry. apply last_drop_nonempty.
      intros H0. now rewrite H0 in E. }
    rewrite <- (app_nil_r l) at 1. now apply records_after_last.
  - now apply last_None in E.
Qed.

(** Records added to the working set after a flush are the records
    after the cursor. *)
Lemma new_after_flush cursor l new :
  NoDup l.*1 ->
  (cursor = None \/ exists c, cursor = Some c /\ c ∈ l.*1) ->
  records_after (cursor_after cursor (records_after cursor l)) (l ++ new) = new.
Proof.
  intros Hnd Hvalid. destruct (last l) as [kv|] eqn:Hlast.
  - rewrite (cursor_after_flush cursor l kv) by done. now apply records_after_last.
  - apply last_None in Hlast as ->.
    destruct Hvalid as [->|(c & _ & Hc)]; [done|]. cbn in Hc. now apply elem_of_nil in Hc.
Qed.


(** The records after a record of the working set. *)
Lemma records_after_lookup l i kv :
  NoDup l.*1 -> l !! i = Some kv -> records_after (Some kv.1) l = drop (Datatypes.S i) l.
Proof.
  intros Hnd Hi. destruct kv as [c v].
  pose proof (take_drop_middle l i (c, v) Hi) as Hsplit.
  assert (c ∉ (take i l).*1) as Hc.
  { rewrite <- Hsplit, fmap_app in Hnd. apply NoDup_app in Hnd as (_ & Hnot & _).
    intros Hin. apply (Hnot c Hin). cbn. apply list_elem_of_here. }
  change ((c, v).1) with c. rewrite <- Hsplit at 1. now rewrite records_after_split.
Qed.

(** After the first [j] pending records have been written, the records
    after the cursor are the other pending records. *)
Lemma pending_after_partial cursor l j :
  NoDup l.*1 -> (j < length (records_after cursor l))%nat ->
  records_after (cursor_after cursor (take j (records_after cursor l))) l
  = drop j (records_after cursor l).
Proof.
  intros Hnd Hj. destruct j as [|j]; [now rewrite drop_0|].
  destruct (records_after_suffix cursor l) as [n Hn].
  destruct (lookup_lt_is_Some_2 (records_after cursor l) j ltac:(lia)) as [kv Hkv].
  assert (cursor_after cursor (take (Datatypes.S j) (records_after cursor l)) = Some kv.1) as ->.
  { unfold cursor_after. erewrite take_S_r by exact Hkv. now rewrite last_snoc. }
  rewrite Hn in Hkv |- *. rewrite lookup_drop in Hkv.
  rewrite (records_after_lookup l (n + j) kv) by done.
  rewrite drop_drop. f_equal. lia.
Qed.

(** When the cursor is on the [n]-th record of the working set, the
    records after it are the records from position [n] on. *)
Lemma records_after_prefix l n :
  NoDup l.*1 -> (n <= length l)%nat ->
  records_after (cursor_after None (take n l)) l = drop n l.
Proof.
  intros Hnd Hn. destruct n as [|m]; [now rewrite take_0|].
  destruct (lookup_lt_is_Some_2 l m ltac:(lia)) as [kv Hkv].
  unfold cursor_after. erewrite take_S_r by exact Hkv. rewrite last_snoc.
  now apply records_after_lookup.
Qed.

Lemma log_text_app l1 l2 : log_text (l1 ++ l2) = log_text l1 ++ log_text l2.
Proof.
  induction l1 as [|kv l1 IH]; [reflexivity|].
  change (log_text ((kv :: l1) ++ l2)) with (frame kv.1 kv.2 ++ log_text (l1 ++ l2)).
  change (log_text (kv :: l1)) with (frame kv.1 kv.2 ++ log_text l1).
  now rewrite IH, app_assoc.
Qed.

Lemma no_fault_writes n : forall k, (k < n)%nat -> write_result no_fault k = Written.
Proof. done. Qed.

End FlushFacts.

(** X27. Within one session, on a disk that takes every write and for
    a working set without repeated key: a flush appends to the log exactly
    the records of the working set that come after the cursor, in
    iteration order (all of them when there is no cursor, none when no
    record has the cursor's key), moves the cursor to the last record
    written and leaves the working set as it is. A second flush appends
    nothing. When the cursor was none or the key of a record of the
    working set, a flush made after new records have been added at the end
    of the working set appends exactly those. When the log held the first
    [n] records of the working set and the cursor was on the [n]-th, the
    log holds each record of the working set once after the flush. *)
Theorem flush_emits_records_after_cursor
    (s : AnchorCrawler.state) (new : list (str * str)) :
  let flush := AnchorCrawler._save_links_incrementally no_fault in
  let cursor := AnchorCrawler.last_written_key (AnchorCrawler.self s) in
  let working := AnchorCrawler.links (AnchorCrawler.self s) in
  let pending := records_after cursor working in
  let s1 := (flush s).2 in
  let s2 := (flush s1).2 in
  let s3 := (flush (AnchorCrawler.set_links (working ++ new) s1)).2 in
  let text s := anchor_file (AnchorCrawler.env s) in
  let cursor_of s := AnchorCrawler.last_written_key (AnchorCrawler.self s) in
  NoDup (working ++ new).*1 ->
  (* one flush *)
  flush s = (Ok tt, s1)
  /\ AnchorCrawler._filtered_link_generator (AnchorCrawler.self s) = pending
  /\ text s1 = Some (default [] (text s) ++ log_text pending)
  /\ cursor_of s1 = cursor_after cursor pending
  /\ AnchorCrawler.links (AnchorCrawler.self s1) = working
  (* the records after the cursor *)
  /\ (cursor = None -> pending = working)
  /\ (forall pre c v post,
        working = pre ++ (c, v) :: post -> cursor = Some c -> pending = post)
  /\ (forall c, cursor = Some c -> c ∉ working.*1 -> pending = [])
  (* a second flush *)
  /\ text s2 = text s1
  /\ cursor_of s2 = cursor_of s1
  (* a flush after new records have been added *)
  /\ (cursor = None \/ (exists c, cursor = Some c /\ c ∈ working.*1) ->
      text s3 = Some (default [] (text s1) ++ log_text new)
      /\ cursor_of s3 = cursor_after (cursor_of s1) new)
  (* the log holds the records up to the cursor, each once *)
  /\ (forall n, (n <= length working)%nat ->
        default [] (text s) = log_text (take n working) ->
        cursor = cursor_after None (take n working) ->
        text s1 = Some (log_text working)
        /\ cursor_of s1 = cursor_after None working).
Proof.
  intros flush cursor working pending s1 s2 s3 text cursor_of Hnd.
  assert (NoDup working.*1) as Hndw.
  { rewrite fmap_app in Hnd. now apply NoDup_app in Hnd as (? & _ & _). }
  assert (flush s = (Ok tt, logged INFO LinksAppended (wrote pending [] s))) as Hflush.
  { apply FlushFacts.flush_ok; [done | apply FlushFacts.no_fault_writes]. }
  assert (s1 = logged INFO LinksAppended (wrote pending [] s)) as Hs1.
  { unfold s1. now rewrite Hflush. }
  assert (cursor_of s1 = cursor_after cursor pending) as Hc1 by now rewrite Hs1.
  assert (AnchorCrawler.links (AnchorCrawler.self s1) = working) as Hl1 by now rewrite Hs1.
  split_and!.
  - now rewrite Hflush, Hs1.
  - apply FlushFacts.generator_spec.
  - rewrite Hs1. unfold text. cbn. now rewrite app_nil_r.
  - exact Hc1.
  - exact Hl1.
  - now intros Hc; unfold pending; rewrite Hc.
  - intros pre c v post Hw Hc. unfold pending. rewrite Hc, Hw.
    apply FlushFacts.records_after_split.
    rewrite Hw, fmap_app in Hndw. apply NoDup_app in Hndw as (_ & Hnot & _).
    intros Hin. apply (Hnot c Hin). cbn. apply list_elem_of_here.
  - intros c Hc Hnot. unfold pending. rewrite Hc.
    now apply FlushFacts.records_after_missing.
  - unfold s2, flush.
    rewrite FlushFacts.flush_ok; [|done|apply FlushFacts.no_fault_writes].
    fold (cursor_of s1). rewrite Hc1, Hl1.
    unfold pending. rewrite FlushFacts.nothing_after_flush by done.
    unfold text. cbn. rewrite app_nil_r.
    rewrite Hs1. reflexivity.
  - unfold s2, flush.
    rewrite FlushFacts.flush_ok; [|done|apply FlushFacts.no_fault_writes].
    fold (cursor_of s1). rewrite Hc1, Hl1.
    unfold pending. rewrite FlushFacts.nothing_after_flush by done.
    unfold cursor_of at 1. cbn. fold (cursor_of s1). now rewrite Hc1.
  - intros Hvalid. unfold s3, flush.
    rewrite FlushFacts.flush_ok; [|done|apply FlushFacts.no_fault_writes].
    cbn [AnchorCrawler.set_links AnchorCrawler.self AnchorCrawler.links
         AnchorCrawler.last_written_key].
    fold (cursor_of s1). rewrite Hc1.
    unfold pending. rewrite FlushFacts.new_after_flush by done.
    split.
    + unfold text. cbn. now rewrite app_nil_r.
    + unfold cursor_of at 1. cbn. fold (cursor_of s1). now rewrite Hc1.
  - intros n Hn Htext Hcur.
    assert (pending = drop n working) as Hp.
    { unfold pending. rewrite Hcur. now apply FlushFacts.records_after_prefix. }
    split.
    + rewrite Hs1. unfold text in *. cbn. rewrite app_nil_r, Htext, Hp.
      now rewrite <- FlushFacts.log_text_app, take_drop.
    + rewrite Hc1, Hp, Hcur. unfold cursor_after.
      destruct (decide (n < length working)%nat) as [Hlt|Hge].
      * rewrite FlushFacts.last_drop_nonempty.
        -- destruct (last working) eqn:E; [done|].
           apply last_None in E. rewrite E in Hlt. cbn in Hlt. lia.
        -- intros H0. apply (f_equal length) in H0.
           rewrite length_drop in H0. cbn in H0. lia.
      * rewrite drop_ge, take_ge by lia. done.
Qed.

(** The theorem at the sample crawler, whose cursor is on the record
    under a: the records under b and c are appended. *)
Lemma flush_emits_records_after_cursor_witness :
  NoDup (sample_links ++ sample_new).*1
  /\ anchor_file (AnchorCrawler.env
       (AnchorCrawler._save_links_incrementally no_fault sample_crawler).2)
     = Some (log_text [([98], [104; 50]); ([99], [104; 51])]).
Proof.
  assert (NoDup (sample_links ++ sample_new).*1) as Hnd.
  { apply (bool_decide_unpack _). vm_compute. exact I. }
  split; [exact Hnd|].
  destruct (flush_emits_records_after_cursor sample_crawler sample_new Hnd)
    as (_ & _ & Htext & _).
  exact Htext.
Defined.

(** ** A cursor that was recovered from the log *)

(** C1 fails once the cursor comes from the log of an earlier session.
    [__init__] restores [last_written_key] and leaves [links] empty, so
    the working set of the new session is filled in the order in which
    the page shows the links, and the records of the log are among them
    again. Here the log holds the records under a, b and c, and the cursor
    is recovered as c. The page then shows a newer link first, and the
    working set becomes d, c, b, a. The records after the cursor are
    those under b and a: the flush appends both to the log a second time
    and moves the cursor to a. The record under d, the only one that the
    log does not hold, is before the cursor: no flush of the session
    writes it. The docstring of [_filtered_link_generator] says that it
    generates the pairs that have not been written. *)
Theorem recovered_cursor_appends_old_records_again :
  let s0 := AnchorCrawler.new MAX_LINKS ANCHOR_BATCH_SIZE 5 sample_disk3 in
  let s1 := AnchorCrawler.set_links sample_anew s0 in
  let r := AnchorCrawler._save_links_incrementally no_fault s1 in
  let again := [([98], [104; 50]); ([97], [104; 49])] in
  (* the crawler as it is constructed on the log *)
  anchor_file (AnchorCrawler.env s0) = Some (log_text sample_links)
  /\ AnchorCrawler.links (AnchorCrawler.self s0) = []
  /\ AnchorCrawler.last_written_key (AnchorCrawler.self s0) = Some [99]
  (* the flush of the working set d, c, b, a *)
  /\ AnchorCrawler._filtered_link_generator (AnchorCrawler.self s1) = again
  /\ r.1 = Ok tt
  /\ anchor_file (AnchorCrawler.env r.2) = Some (log_text (sample_links ++ again))
  /\ AnchorCrawler.last_written_key (AnchorCrawler.self r.2) = Some [97]
  (* nothing is left for a later flush *)
  /\ AnchorCrawler._filtered_link_generator (AnchorCrawler.self r.2) = []
  /\ (AnchorCrawler._save_links_incrementally no_fault r.2).2
     = logged INFO LinksAppended r.2.
Proof. vm_compute. split_and!; reflexivity. Qed.

(** The same over two sessions of [start_crawling]. The first finds the
    feed with the links a, b and c and writes them. The second is
    constructed on that log and finds the feed with d ahead of them: it
    ends with the records of b and a twice in the log and without the
    record of d. *)
Lemma second_session_appends_old_records_again :
  let record l := (l, l) in
  exists s1 s2,
    crawl_session small_feed sample_world = Some s1
    /\ crawl_session later_feed (AnchorCrawler.env s1) = Some s2
    /\ anchor_file (AnchorCrawler.env s1)
       = Some (log_text (record <$> [href_a; href_b; href_c]))
    /\ AnchorCrawler.links (AnchorCrawler.self s2)
       = record <$> [href_d; href_c; href_b; href_a]
    /\ anchor_file (AnchorCrawler.env s2)
       = Some (log_text (record <$> [href_a; href_b; href_c; href_b; href_a])).
Proof.
  destruct (crawl_session small_feed sample_world) as [s1|] eqn:H1;
    [|vm_compute in H1; discriminate].
  destruct (crawl_session later_feed (AnchorCrawler.env s1)) as [s2|] eqn:H2;
    [|vm_compute in H1; injection H1 as <-; vm_compute in H2; discriminate].
  exists s1, s2. vm_compute in H1. injection H1 as <-.
  vm_compute in H2. injection H2 as <-.
  vm_compute. split_and!; reflexivity.
Qed.

(** ** Saving comments *)

Module SaveFacts.
Import CommentCrawler.

Lemma set_file_twice name a b w :
  set_file name a (set_file name b w) = set_file name a w.
Proof.
  unfold set_file, set_comment_dir. cbn. f_equal.
  destruct (comment_dir w) as [d|]; cbn; [|done]. now rewrite insert_insert_eq.
Qed.

Lemma file_at_set_file name a w d :
  comment_dir w = Some d -> file_at name (set_file name a w) = Some a.
Proof.
  intros Hd. unfold file_at, set_file, set_comment_dir. cbn. rewrite Hd. cbn.
  apply lookup_insert_eq.
Qed.

Lemma comment_dir_set_file name a w d :
  comment_dir w = Some d -> comment_dir (set_file name a w) = Some (<[name := a]> d).
Proof. intros Hd. unfold set_file, set_comment_dir. cbn. now rewrite Hd. Qed.

(** Every write succeeds: all the comments are in the file. *)
Lemma write_comments_written io name n comments w d text :
  comment_dir w = Some d -> file_at name w = Some text ->
  (forall k, (k < length comments)%nat -> write_result io (n + k) = Written) ->
  write_comments io name n comments w
  = (Ok tt, set_file name (text ++ comment_text comments) w).
Proof.
  revert n w d text; induction comments as [|c cs IH]; intros n w d text Hd Hf Hw.
  - cbn. unfold ret. f_equal. rewrite app_nil_r.
    unfold set_file, set_comment_dir. rewrite Hd. cbn.
    unfold file_at in Hf. rewrite Hd in Hf. cbn in Hf.
    rewrite insert_id by done. rewrite <- Hd. now destruct w.
  - cbn [write_comments]. unfold bind, f_write.
    specialize (Hw 0%nat ltac:(cbn; lia)) as Hw0. rewrite Nat.add_0_r in Hw0.
    rewrite Hw0, Hf. cbn [default from_option id].
    erewrite (IH _ _ _ (text ++ c ++ [Py.LF])).
    + rewrite set_file_twice. do 2 f_equal.
      change (comment_text (c :: cs)) with ((c ++ [Py.LF]) ++ comment_text cs).
      now rewrite <- !app_assoc.
    + eapply comment_dir_set_file, Hd.
    + eapply file_at_set_file, Hd.
    + intros j Hj. replace (Datatypes.S n + j)%nat with (n + Datatypes.S j)%nat by lia.
      apply Hw. cbn. lia.
Qed.

(** The write of the [j]-th comment fails: the comments before it are
    in the file, and a part of the [j]-th. *)
Lemma write_comments_failed io name n comments w d text j c partial :
  comment_dir w = Some d -> file_at name w = Some text ->
  comments !! j = Some c ->
  (forall k, (k < j)%nat -> write_result io (n + k) = Written) ->
  write_result io (n + j) = WriteFailed partial ->
  write_comments io name n comments w
  = (Raise OSError,
     set_file name (text ++ comment_text (take j comments)
                    ++ take partial (c ++ [Py.LF])) w).
Proof.
  revert n w d text j; induction comments as [|c0 cs IH];
    intros n w d text j Hd Hf Hj Hw Hfail; [done|].
  cbn [write_comments]. unfold bind at 1, f_write.
  destruct j as [|j].
  - rewrite Nat.add_0_r in Hfail. rewrite Hfail, Hf. cbn in Hj. injection Hj as <-.
    reflexivity.
  - specialize (Hw 0%nat ltac:(lia)) as Hw0. rewrite Nat.add_0_r in Hw0.
    rewrite Hw0, Hf. cbn [default from_option id].
    erewrite (IH (Datatypes.S n) _ _ (text ++ c0 ++ [Py.LF]) j).
    + rewrite set_file_twice. do 2 f_equal. cbn [take].
      change (comment_text (c0 :: take j cs))
        with ((c0 ++ [Py.LF]) ++ comment_text (take j cs)).
      now rewrite <- !app_assoc.
    + eapply comment_dir_set_file, Hd.
    + eapply file_at_set_file, Hd.
    + exact Hj.
    + intros i Hi. replace (Datatypes.S n + i)%nat with (n + Datatypes.S i)%nat by lia.
      apply Hw. lia.
    + replace (Datatypes.S n + j)%nat with (n + Datatypes.S j)%nat by lia. exact Hfail.
Qed.

(** [_save_comments] once the file has been opened. *)
Lemma save_comments_opened io name comments w d :
  comment_dir w = Some d -> open_ok io = true ->
  _save_comments io name comments w
  = match write_comments io name 0 comments
            (set_file name (default [] (d !! name)) w) with
    | (Ok tt, w') => (Ok tt, add_log (INFO, CommentsAppended (length comments) name) w')
    | (Raise e, w') => (Ok tt, add_log (ERROR, SaveCommentsFailed name e) w')
    end.
Proof.
  intros Hd Hopen. unfold _save_comments, try_except.
  unfold bind at 1. rewrite Hd. unfold open_append. rewrite Hopen.
  unfold file_at at 1. rewrite Hd. cbn [mbind option_bind default].
  unfold bind at 1.
  destruct (write_comments _ _ _ _ _) as [[[]|e] w']; reflexivity.
Qed.

(** On a disk without fault a save appends every comment it is given
    to what the file holds. *)
Lemma save_appends_all name comments w d :
  comment_dir w = Some d ->
  _save_comments no_fault name comments w
  = (Ok tt, add_log (INFO, CommentsAppended (length comments) name)
              (set_file name (default [] (d !! name) ++ comment_text comments) w)).
Proof.
  intros Hd. rewrite (save_comments_opened no_fault name comments w d Hd eq_refl).
  rewrite (write_comments_written no_fault name 0 comments _
             (<[name := default [] (d !! name)]> d) (default [] (d !! name))).
  - now rewrite set_file_twice.
  - eapply comment_dir_set_file, Hd.
  - eapply file_at_set_file, Hd.
  - done.
Qed.

(** [process_links] on a link without comment file: what the loop of
    [_fetch_comments] has put in the file is followed by all the comments
    the loop returns. *)
Lemma process_link_appends_all fuel renderer hash_key link rest w comments w1 d1 :
  file_at (hash_key ++ TXT) w = None ->
  _fetch_comments fuel (hash_key ++ TXT) (renderer link) link page_to_do_plugins w
  = Some (comments, w1) ->
  comment_dir w1 = Some d1 ->
  final_io (renderer link) = no_fault ->
  process_each fuel renderer ((hash_key, link) :: rest) w
  = process_each fuel renderer rest
      (add_log (INFO, CommentsAppended (length comments) (hash_key ++ TXT))
         (set_file (hash_key ++ TXT)
            (default [] (d1 !! (hash_key ++ TXT)) ++ comment_text comments) w1)).
Proof.
  intros Hnew Hfetch Hd Hio. cbn [process_each]. rewrite Hnew, Hfetch. cbn.
  now rewrite Hio, (save_appends_all _ _ _ d1 Hd).
Qed.

End SaveFacts.

(** C9 fails for the flush of the links on a disk that takes no text.
    The crawler holds the records under a, b and c and has written none.
    The three [f.write] return, as their text stays in the buffer of the
    file, and each is followed by [self.last_written_key = key]. The
    fault of the disk is raised when the [with] block closes the file; it
    is caught and logged, and the call returns. The cursor is then on c
    while the log holds no record, and no record comes after the cursor:
    a later flush, on a disk that takes every write, appends nothing. The
    three records stay in the working set and are written by no flush of
    the session. The comment on [self.last_written_key = key] calls it the
    last key written. *)
Theorem cursor_moves_past_records_not_written :
  let r := Buffered._save_links_incrementally full_disk sample_session in
  let later := Buffered._save_links_incrementally no_fault r.2 in
  (* before the flush; the text to write fits in the buffer, at four
     bytes to a character *)
  (4 * Z.of_nat (length (log_text sample_links)) < Buffered.DEFAULT_BUFFER_SIZE)%Z
  /\ AnchorCrawler.links (AnchorCrawler.self sample_session) = sample_links
  /\ AnchorCrawler.last_written_key (AnchorCrawler.self sample_session) = None
  /\ anchor_file (AnchorCrawler.env sample_session) = None
  (* the flush on the full disk *)
  /\ r.1 = Ok tt
  /\ log (AnchorCrawler.env r.2) = [(ERROR, SaveLinksFailed OSError)]
  /\ anchor_file (AnchorCrawler.env r.2) = Some []
  /\ AnchorCrawler.last_written_key (AnchorCrawler.self r.2) = Some [99]
  /\ AnchorCrawler.links (AnchorCrawler.self r.2) = sample_links
  (* a later flush *)
  /\ AnchorCrawler._filtered_link_generator (AnchorCrawler.self r.2) = []
  /\ later.1 = Ok tt
  /\ anchor_file (AnchorCrawler.env later.2) = Some []
  /\ log (AnchorCrawler.env later.2)
     = [(ERROR, SaveLinksFailed OSError); (INFO, LinksAppended)].
Proof. vm_compute. split_and!; reflexivity. Qed.

(** On a disk that takes every write the flush over the buffer leaves
    the log and the cursor of [AnchorCrawler._save_links_incrementally]. *)
Lemma buffered_flush_without_fault :
  Buffered._save_links_incrementally no_fault sample_session
  = AnchorCrawler._save_links_incrementally no_fault sample_session.
Proof. vm_compute. reflexivity. Qed.

(** The comments of a link are not kept either when their save fails.
    Here the page of the sample link shows two comments, and the disk
    takes no text when [process_links] saves them: [open] has made the
    file, the error is logged, and the worker goes on to the next link
    with a new list. The file is empty, whether the fault is raised by
    the first [f.write] or by the close. From then on the link counts as
    completed: the reader yields no link, and a later pass of the worker,
    on a disk that takes every write, leaves the file empty. *)
Lemma failed_save_marks_the_link_completed :
  let name := [97] ++ TXT in
  exists w1 w2,
    CommentCrawler.process_links 6 (fun _ => page_on_full_disk) 0 1 sample_disk1
    = Some w1
    /\ CommentCrawler.file_at name sample_disk1 = None
    /\ drop (length (log w1) - 2) (log w1)
       = [(INFO, CommentsFetched 2 sample_link.2);
          (ERROR, SaveCommentsFailed name OSError)]
    /\ CommentCrawler.file_at name w1 = Some []
    /\ (AnchorCrawler.replay w1).1 = []
    /\ CommentCrawler.process_links 6 (fun _ => still_page two_comments) 0 1 w1
       = Some w2
    /\ comment_dir w2 = comment_dir w1
    /\ CommentCrawler.file_at name w2 = Some [].
Proof.
  intros name.
  destruct (CommentCrawler.process_links 6 (fun _ => page_on_full_disk) 0 1
              sample_disk1) as [w1|] eqn:H1; [|vm_compute in H1; discriminate].
  destruct (CommentCrawler.process_links 6 (fun _ => still_page two_comments) 0 1
              w1) as [w2|] eqn:H2;
    [|vm_compute in H1; injection H1 as <-; vm_compute in H2; discriminate].
  exists w1, w2. vm_compute in H1. injection H1 as <-.
  vm_compute in H2. injection H2 as <-.
  split_and!; vm_compute; reflexivity.
Qed.

(** ** Python strings *)

Module PyFacts.
Import Py.

Lemma lstrip_nonspace c s : isspace c = false -> lstrip (c :: s) = c :: s.
Proof. intros H. cbn. now rewrite H. Qed.

Lemma lstrip_app_nonspace x c y :
  isspace c = false -> lstrip (x ++ c :: y) = lstrip x ++ c :: y.
Proof.
  intros H. induction x as [|d x IH]; cbn.
  - now rewrite H.
  - destruct (isspace d); [exact IH | reflexivity].
Qed.

Lemma rstrip_app_nonspace a c b :
  isspace c = false -> rstrip (a ++ c :: b) = a ++ c :: rstrip b.
Proof.
  intros H. unfold rstrip.
  rewrite reverse_app, reverse_cons, <- app_assoc. cbn.
  rewrite lstrip_app_nonspace by done.
  rewrite reverse_app, reverse_cons, reverse_involutive.
  now rewrite <- app_assoc.
Qed.

Lemma elem_of_lstrip c s : isspace c = false -> c ∈ lstrip s <-> c ∈ s.
Proof.
  intros H. induction s as [|d s IH]; cbn; [done|].
  destruct (isspace d) eqn:E; [|done].
  rewrite IH, elem_of_cons. split; [tauto|]. intros [->|?]; [congruence|done].
Qed.

Lemma elem_of_strip c s : isspace c = false -> c ∈ strip s <-> c ∈ s.
Proof.
  intros H. unfold strip, rstrip.
  now rewrite elem_of_reverse, elem_of_lstrip, elem_of_reverse, elem_of_lstrip.
Qed.

(** *** Search for a separator of one character *)

Lemma startswith_nil s : startswith s [] = true.
Proof. now destruct s. Qed.

Lemma partition_cons c d s :
  partition [c] (d :: s)
  = if d =? c then Some ([], s) else prod_map (cons d) id <$> partition [c] s.
Proof.
  cbn [partition startswith length drop]. rewrite startswith_nil, andb_true_r.
  reflexivity.
Qed.

Lemma partition_found c a b :
  c ∉ a -> partition [c] (a ++ c :: b) = Some (a, b).
Proof.
  induction a as [|d a IH]; intros Hc.
  - cbn [app]. now rewrite partition_cons, N.eqb_refl.
  - apply not_elem_of_cons in Hc as [Hne Hc]. cbn [app].
    rewrite partition_cons. destruct (N.eqb_spec d c) as [->|_]; [done|].
    now rewrite IH.
Qed.

Lemma partition_not_found c s : c ∉ s -> partition [c] s = None.
Proof.
  induction s as [|d s IH]; intros Hc; [done|].
  apply not_elem_of_cons in Hc as [Hne Hc].
  rewrite partition_cons. destruct (N.eqb_spec d c) as [->|_]; [done|].
  now rewrite IH.
Qed.

Lemma partition_Some c s a b :
  partition [c] s = Some (a, b) <-> s = a ++ c :: b /\ c ∉ a.
Proof.
  split.
  - revert a. induction s as [|d s IH]; intros a; [done|].
    rewrite partition_cons.
    destruct (N.eqb_spec d c) as [->|Hne].
    + intros [= <- <-]. split; [done|]. apply not_elem_of_nil.
    + destruct (partition [c] s) as [[a' b']|] eqn:E; [|done]. cbn.
      intros [= <- <-]. destruct (IH a' eq_refl) as [-> Hc].
      split; [done|]. apply not_elem_of_cons. split; [congruence|done].
  - intros [-> Hc]. now apply partition_found.
Qed.

Lemma partition_None c s : partition [c] s = None <-> c ∉ s.
Proof.
  split; [|apply partition_not_found].
  intros E Hin. apply list_elem_of_split_l in Hin as (a & b & -> & Hc).
  now rewrite partition_found in E.
Qed.

End PyFacts.

(** ** The reader of the link log *)

Module ReaderFacts.
Import AnchorCrawler.

Lemma startswith_single s c :
  Py.startswith s [c] = true -> exists rest, s = c :: rest.
Proof.
  destruct s as [|d s]; [done|]. cbn. rewrite PyFacts.startswith_nil, andb_true_r.
  intros ->%N.eqb_eq. now exists s.
Qed.

(** Taking the frame off a line neither adds nor removes a
    [KEY_VALUE_SEPARATOR]. *)
Lemma elem_of_unframe line : 9247 ∈ unframe line <-> 9247 ∈ line.
Proof.
  unfold unframe. rewrite <- (PyFacts.elem_of_strip 9247 line) by done.
  destruct (Py.startswith (Py.strip line) ITEM_SEPARATOR) eqn:E; [|done].
  apply startswith_single in E as [rest ->]. cbn. rewrite drop_0, elem_of_cons.
  split; [tauto|]. now intros [?|?].
Qed.

Lemma record_of_None line : record_of line = None <-> 9247 ∉ line.
Proof.
  unfold record_of. change KEY_VALUE_SEPARATOR with [9247].
  now rewrite PyFacts.partition_None, elem_of_unframe.
Qed.

Lemma record_of_Some line k v :
  record_of line = Some (k, v) <-> unframe line = k ++ 9247 :: v /\ 9247 ∉ k.
Proof. apply PyFacts.partition_Some. Qed.

Lemma add_logs_nil w : add_logs [] w = w.
Proof. unfold add_logs. rewrite app_nil_r. now destruct w. Qed.

Lemma add_logs_add_log r rs w : add_logs rs (add_log r w) = add_logs (r :: rs) w.
Proof. unfold add_logs, add_log. cbn. now rewrite <- app_assoc. Qed.

Lemma replay_of_cons completed line rest :
  replay_of completed (line :: rest)
  = match record_of line with
    | Some kv => if decide (kv.1 ∈ completed) then replay_of completed rest
                 else kv :: replay_of completed rest
    | None => replay_of completed rest
    end.
Proof.
  unfold replay_of. cbn. destruct (record_of line) as [kv|]; [|done].
  rewrite filter_cons. destruct (decide (kv.1 ∈ completed)).
  - now rewrite decide_False by tauto.
  - now rewrite decide_True.
Qed.

Lemma replay_of_app completed before after :
  replay_of completed (before ++ after)
  = replay_of completed before ++ replay_of completed after.
Proof. unfold replay_of. now rewrite omap_app, filter_app. Qed.

Lemma skipped_of_cons completed line rest :
  skipped_of completed (line :: rest)
  = match record_of line with
    | Some kv => if decide (kv.1 ∈ completed)
                 then (INFO, SkipCrawled kv.2) :: skipped_of completed rest
                 else skipped_of completed rest
    | None => skipped_of completed rest
    end.
Proof.
  unfold skipped_of. cbn. destruct (record_of line) as [kv|]; [|done].
  rewrite filter_cons. now destruct (decide (kv.1 ∈ completed)).
Qed.

(** The loop over the lines never raises and yields the replay. *)
Lemma read_lines_spec completed lines ys w :
  read_lines completed lines (ys, w)
  = (Ok tt, (ys ++ replay_of completed lines,
             add_logs (skipped_of completed lines) w)).
Proof.
  revert ys w; induction lines as [|line rest IH]; intros ys w.
  - cbn. unfold ret. now rewrite app_nil_r, add_logs_nil.
  - cbn [read_lines]. rewrite replay_of_cons, skipped_of_cons.
    unfold Py.contains, Py.split1. fold (record_of line).
    destruct (record_of line) as [[k v]|].
    + cbn [fst snd].
      destruct (decide (k ∈ completed)).
      * unfold bind at 1, in_gen, emit, modify. cbn [fst snd].
        rewrite IH. now rewrite add_logs_add_log.
      * unfold bind at 1, yield_, modify. cbn [fst snd].
        rewrite IH. now rewrite <- app_assoc.
    + unfold bind at 1, ret. apply IH.
Qed.

(** One pass of the reader when the directory of comments can be listed. *)
Lemma replay_listed w d :
  comment_dir w = Some d ->
  replay w
  = let completed := completed_hashes d in
    let lines := from_option Py.splitlines_keepends [] (anchor_file w) in
    (replay_of completed lines,
     add_logs ((INFO, CompletedCount (size completed)) :: skipped_of completed lines) w).
Proof.
  intros Hd. unfold replay, read_persisted_links, try_except.
  unfold bind at 1, get. cbn [snd]. rewrite Hd.
  unfold bind at 1, in_gen at 1, emit, modify. cbn [fst snd].
  destruct (anchor_file w) as [text|]; cbn [from_option].
  - rewrite read_lines_spec. cbn. now rewrite add_logs_add_log.
  - reflexivity.
Qed.

(** One pass of the reader when the directory cannot be listed. *)
Lemma replay_unlisted w :
  comment_dir w = None ->
  replay w = ([], add_log (ERROR, ReadLinksFailed OSError) w).
Proof.
  intros Hd. unfold replay, read_persisted_links, try_except.
  unfold bind at 1, get. cbn [snd]. now rewrite Hd.
Qed.

(** *** The names of comment files *)

Lemma rfind_dot_txt a : Py.rfind_dot (a ++ TXT) = Some (length a).
Proof.
  induction a as [|c a IH]; [reflexivity|].
  cbn [app Py.rfind_dot length]. now rewrite IH.
Qed.

Lemma suffix_txt a : a <> [] -> Py.suffix (a ++ TXT) = TXT.
Proof.
  intros Ha. unfold Py.suffix. rewrite rfind_dot_txt, length_app.
  destruct a as [|c a]; [done|].
  replace (0 <? length (c :: a))%nat with true by (symmetry; apply Nat.ltb_lt; cbn; lia).
  replace (length (c :: a) <? length (c :: a) + length TXT - 1)%nat with true
    by (symmetry; apply Nat.ltb_lt; cbn; lia).
  cbn [andb]. now rewrite drop_app_length.
Qed.

Lemma stem_txt a : a <> [] -> Py.stem (a ++ TXT) = a.
Proof.
  intros Ha. unfold Py.stem. rewrite rfind_dot_txt, length_app.
  destruct a as [|c a]; [done|].
  replace (0 <? length (c :: a))%nat with true by (symmetry; apply Nat.ltb_lt; cbn; lia).
  replace (length (c :: a) <? length (c :: a) + length TXT - 1)%nat with true
    by (symmetry; apply Nat.ltb_lt; cbn; lia).
  cbn [andb]. now rewrite take_app_length.
Qed.

(** An address whose comment file is in the directory is completed. *)
Lemma completed_of_file (d : gmap str str) a :
  a <> [] -> is_Some (d !! (a ++ TXT)) -> a ∈ completed_hashes d.
Proof.
  intros Ha Hin. unfold completed_hashes.
  apply elem_of_map. exists (a ++ TXT). split; [now rewrite stem_txt|].
  apply elem_of_filter. split; [now apply suffix_txt|].
  now apply elem_of_dom.
Qed.

End ReaderFacts.

(** C2. For every text of the link log and every directory of comment
    files, one pass of the reader never raises and yields, in the order of
    the log, exactly the pairs of address and link of the well-formed
    lines whose address is not completed. A line without the key-value
    separator stands for no record and is passed over, the lines after it
    still being read; no completed address is yielded; and an address
    whose comment file is in the directory is completed, so it is never
    yielded. (9247 is the code point of [KEY_VALUE_SEPARATOR].) *)
Theorem replay_yields_uncompleted_records
    (w : world) (d : gmap str str) (text : str) :
  comment_dir w = Some d ->
  anchor_file w = Some text ->
  let completed := AnchorCrawler.completed_hashes d in
  let lines := Py.splitlines_keepends text in
  let yields := (AnchorCrawler.replay w).1 in
  (AnchorCrawler.read_persisted_links ([], w)).1 = Ok tt
  /\ yields = filter (fun kv => kv.1 ∉ completed) (omap record_of lines)
  /\ (forall line, record_of line = None <-> 9247 ∉ line)
  /\ (forall line k v,
        record_of line = Some (k, v)
        <-> AnchorCrawler.unframe line = k ++ 9247 :: v /\ 9247 ∉ k)
  /\ (forall before bad after,
        lines = before ++ bad :: after -> 9247 ∉ bad ->
        yields = replay_of completed before ++ replay_of completed after)
  /\ (forall k v, (k, v) ∈ yields -> k ∉ completed)
  /\ (forall a v, a <> [] -> is_Some (d !! (a ++ TXT)) -> (a, v) ∉ yields).
Proof.
  intros Hd Hf completed lines yields.
  assert (yields = replay_of completed lines) as Hy.
  { unfold yields. rewrite (ReaderFacts.replay_listed w d Hd). cbn. now rewrite Hf. }
  assert (forall k v, (k, v) ∈ yields -> k ∉ completed) as Hfree.
  { intros k v. rewrite Hy. unfold replay_of. now intros [? _]%list_elem_of_filter. }
  split_and!.
  - unfold AnchorCrawler.read_persisted_links, try_except.
    unfold bind at 1, get. cbn [snd]. rewrite Hd.
    unfold bind at 1, in_gen at 1, emit, modify. cbn [fst snd add_log anchor_file].
    rewrite Hf. now rewrite ReaderFacts.read_lines_spec.
  - exact Hy.
  - apply ReaderFacts.record_of_None.
  - apply ReaderFacts.record_of_Some.
  - intros before bad after Hl Hbad.
    rewrite Hy, Hl, ReaderFacts.replay_of_app, ReaderFacts.replay_of_cons.
    now rewrite (proj2 (ReaderFacts.record_of_None bad) Hbad).
  - exact Hfree.
  - intros a v Ha Hin Hy'. apply (Hfree a v Hy').
    now apply ReaderFacts.completed_of_file.
Qed.

(** C2 on the sample disk: the record under b is completed and the line
    without separator is passed over. *)
Lemma replay_yields_uncompleted_records_witness :
  comment_dir sample_disk = Some sample_dir
  /\ anchor_file sample_disk = Some sample_log
  /\ (AnchorCrawler.replay sample_disk).1 = [([97], [104; 49]); ([99], [104; 51])].
Proof.
  split_and!; [reflexivity | reflexivity | ].
  destruct (replay_yields_uncompleted_records sample_disk sample_dir sample_log
              eq_refl eq_refl) as (_ & Hy & _).
  rewrite Hy. vm_compute. reflexivity.
Defined.

(** C10. When the directory of comment files cannot be listed, the
    reader catches the error, logs it and yields no link: the stream is
    empty and nothing is raised, so that a worker reading it processes no
    link of the log. *)
Theorem unlisted_directory_yields_nothing
    (w : world) (fuel : nat) (renderer : str -> CommentCrawler.session)
    (instance_id total_instances : Z) :
  comment_dir w = None ->
  AnchorCrawler.read_persisted_links ([], w)
  = (Ok tt, ([], add_log (ERROR, ReadLinksFailed OSError) w))
  /\ (AnchorCrawler.replay w).1 = []
  /\ CommentCrawler.process_links fuel renderer instance_id total_instances w
     = Some (add_log (ERROR, ReadLinksFailed OSError) w).
Proof.
  intros Hd. split_and!.
  - unfold AnchorCrawler.read_persisted_links, try_except.
    unfold bind at 1, get. cbn [snd]. now rewrite Hd.
  - now rewrite ReaderFacts.replay_unlisted.
  - unfold CommentCrawler.process_links.
    now rewrite ReaderFacts.replay_unlisted.
Qed.

(** C10 on the sample log without a directory. *)
Lemma unlisted_directory_yields_nothing_witness :
  comment_dir sample_disk_no_dir = None
  /\ (AnchorCrawler.replay sample_disk_no_dir).1 = [].
Proof.
  split; [reflexivity|].
  exact (proj1 (proj2 (unlisted_directory_yields_nothing sample_disk_no_dir 0
                         (fun _ => {| CommentCrawler.goto := Ok tt;
                                      CommentCrawler.buttons := fun _ _ => Ok [];
                                      CommentCrawler.views := fun _ =>
                                        {| CommentCrawler.texts := Ok [];
                                           CommentCrawler.heights := Ok (0, 0)%Z |};
                                      CommentCrawler.flush_io := fun _ => no_fault;
                                      CommentCrawler.final_io := no_fault |})
                         0 1 eq_refl))).
Defined.

(** ** Recovery of the resume cursor *)

Module LoadFacts.
Import AnchorCrawler.

(** A line without line break inside is read as one line. *)
Lemma lines_from_plain cur body rest :
  Py.LF ∉ body -> Py.CR ∉ body ->
  Py.lines_from cur (body ++ Py.LF :: rest)
  = (reverse cur ++ body ++ [Py.LF]) :: Py.lines_from [] rest.
Proof.
  revert cur; induction body as [|c body IH]; intros cur Hlf Hcr.
  - cbn [app Py.lines_from]. rewrite N.eqb_refl. now rewrite reverse_cons.
  - apply not_elem_of_cons in Hlf as [Hc1 Hlf].
    apply not_elem_of_cons in Hcr as [Hc2 Hcr].
    cbn [app Py.lines_from].
    destruct (N.eqb_spec c Py.LF) as [->|_]; [done|].
    destruct (N.eqb_spec c Py.CR) as [->|_]; [done|].
    rewrite IH by done. rewrite reverse_cons. now rewrite <- !app_assoc.
Qed.

Lemma frame_plain kv rest :
  well_formed kv ->
  Py.lines_from [] (frame kv.1 kv.2 ++ rest) = frame kv.1 kv.2 :: Py.lines_from [] rest.
Proof.
  intros (H1 & H2 & _ & H3 & H4). unfold frame.
  change ITEM_SEPARATOR with [9246]. change KEY_VALUE_SEPARATOR with [9247].
  replace (([9246] ++ kv.1 ++ [9247] ++ kv.2 ++ [Py.LF]) ++ rest)
    with ((9246 :: kv.1 ++ 9247 :: kv.2) ++ Py.LF :: rest)
    by (cbn; rewrite <- !app_assoc; cbn; now rewrite <- ?app_assoc).
  rewrite lines_from_plain.
  - cbn. rewrite <- !app_assoc. cbn. now rewrite <- ?app_assoc.
  - rewrite not_elem_of_cons, not_elem_of_app, not_elem_of_cons. done.
  - rewrite not_elem_of_cons, not_elem_of_app, not_elem_of_cons. done.
Qed.

(** A log of well-formed records is read back as one line per record. *)
Lemma lines_of_log records :
  Forall well_formed records ->
  Py.splitlines_keepends (log_text records)
  = (fun kv => frame kv.1 kv.2) <$> records.
Proof.
  unfold Py.splitlines_keepends.
  induction 1 as [|kv records Hkv _ IH]; [reflexivity|].
  change (log_text (kv :: records)) with (frame kv.1 kv.2 ++ log_text records).
  rewrite frame_plain by done. cbn. now rewrite IH.
Qed.

(** The line of a record stands for the record; the link comes back
    without white space at its end. *)
Lemma unframe_frame k v :
  unframe (frame k v) = k ++ 9247 :: Py.rstrip (v ++ [Py.LF]).
Proof.
  unfold unframe, frame, Py.strip.
  change ITEM_SEPARATOR with [9246]. change KEY_VALUE_SEPARATOR with [9247].
  cbn [app]. rewrite PyFacts.lstrip_nonspace by done.
  change (9246 :: k ++ 9247 :: v ++ [Py.LF])
    with ((9246 :: k) ++ 9247 :: (v ++ [Py.LF])).
  rewrite (PyFacts.rstrip_app_nonspace (9246 :: k) 9247 (v ++ [Py.LF])) by done.
  cbn [app Py.startswith length drop]. rewrite N.eqb_refl, PyFacts.startswith_nil.
  reflexivity.
Qed.

Lemma record_of_frame k v :
  9247 ∉ k -> record_of (frame k v) = Some (k, Py.rstrip (v ++ [Py.LF])).
Proof.
  intros Hk. unfold record_of. rewrite unframe_frame.
  now apply PyFacts.partition_found.
Qed.

(** [_load_last_written_key] on a log of well-formed records. *)
Lemma load_log s records kv :
  Forall well_formed records -> last records = Some kv ->
  anchor_file (env s) = Some (log_text records) ->
  _load_last_written_key s
  = (snd (on_world (emit INFO (LastWrittenKey kv.1))
            (set_last_written_key (Some kv.1) s)),
     Some {| pending := []; consumed := length records |}).
Proof.
  intros Hwf Hlast Hf. unfold _load_last_written_key. rewrite Hf.
  unfold readlines, open_read. cbn [pending consumed].
  rewrite lines_of_log by done.
  rewrite length_fmap, fmap_last, Hlast. cbn [fmap option_fmap option_map].
  assert (well_formed kv) as (_ & _ & Hk & _).
  { apply last_Some in Hlast as [l' ->]. apply Forall_app in Hwf as [_ Hwf].
    now inversion Hwf. }
  unfold Py.contains, Py.split1. fold (record_of (frame kv.1 kv.2)).
  now rewrite record_of_frame.
Qed.

End LoadFacts.

(** C6, as the specification states it, fails on the sample log of three
    records: the recovery hands the program all three lines of the log
    (it calls [readlines]), not the final one alone. *)
Lemma load_reads_the_whole_log :
  let f := (AnchorCrawler._load_last_written_key (fresh sample_disk3)).2 in
  consumed <$> f = Some 3%nat /\ consumed <$> f <> Some 1%nat.
Proof. vm_compute. split; [reflexivity | discriminate]. Qed.

(** C6, amended. On construction of the link store, for every log of
    [m >= 1] well-formed records the recovered resume cursor is the
    address of the final record; the recovery reads every line of the log
    ([m] lines, up to the end of the file) and takes the cursor from the
    last one. An empty or a missing log is tolerated and leaves no cursor,
    and a flush then emits the working set from its beginning. *)
Theorem load_recovers_last_key
    (w : world) (records : list (str * str)) (kv : str * str)
    (max_links batch_size scroll_retries : Z) (working : list (str * str)) :
  Forall well_formed records ->
  last records = Some kv ->
  anchor_file w = Some (log_text records) ->
  let construct w :=
    AnchorCrawler._load_last_written_key
      {| AnchorCrawler.self := AnchorCrawler.init max_links batch_size scroll_retries;
         AnchorCrawler.env := w |} in
  let cursor_of s := AnchorCrawler.last_written_key (AnchorCrawler.self s) in
  cursor_of (construct w).1 = Some kv.1
  /\ cursor_of (AnchorCrawler.new max_links batch_size scroll_retries w) = Some kv.1
  /\ (construct w).2 = Some {| pending := []; consumed := length records |}
  /\ (forall w0, anchor_file w0 = None \/ anchor_file w0 = Some [] ->
        let s0 := AnchorCrawler.set_links working (construct w0).1 in
        cursor_of (construct w0).1 = None
        /\ AnchorCrawler._filtered_link_generator (AnchorCrawler.self s0) = working
        /\ anchor_file (AnchorCrawler.env
             (AnchorCrawler._save_links_incrementally no_fault s0).2)
           = Some (log_text working)).
Proof.
  intros Hwf Hlast Hf construct cursor_of.
  assert (construct w
          = (snd (AnchorCrawler.on_world (emit INFO (LastWrittenKey kv.1))
                    (AnchorCrawler.set_last_written_key (Some kv.1)
                       {| AnchorCrawler.self :=
                            AnchorCrawler.init max_links batch_size scroll_retries;
                          AnchorCrawler.env := w |})),
             Some {| pending := []; consumed := length records |})) as Hload.
  { now apply LoadFacts.load_log. }
  split_and!.
  - now rewrite Hload.
  - unfold AnchorCrawler.new. fold (construct w). now rewrite Hload.
  - now rewrite Hload.
  - intros w0 Hw0 s0.
    assert ((construct w0).1
            = {| AnchorCrawler.self :=
                   AnchorCrawler.init max_links batch_size scroll_retries;
                 AnchorCrawler.env := w0 |}) as H0.
    { unfold construct, AnchorCrawler._load_last_written_key. cbn [AnchorCrawler.env].
      destruct Hw0 as [-> | ->]; reflexivity. }
    assert (AnchorCrawler._filtered_link_generator (AnchorCrawler.self s0) = working) as Hgen.
    { unfold s0. rewrite H0. cbn. apply FlushFacts.filtered_from_started. }
    split_and!.
    + now rewrite H0.
    + exact Hgen.
    + rewrite FlushFacts.flush_ok; [|done|apply FlushFacts.no_fault_writes].
      rewrite <- FlushFacts.generator_spec, Hgen.
      unfold s0. rewrite H0. cbn. rewrite app_nil_r.
      destruct Hw0 as [-> | ->]; reflexivity.
Qed.

(** C6 amended, on the sample log of three records: the cursor is the
    key c, and an empty log gives a flush of the whole working set. *)
Lemma load_recovers_last_key_witness :
  Forall well_formed sample_links
  /\ last sample_links = Some ([99], [104; 51])
  /\ anchor_file sample_disk3 = Some (log_text sample_links)
  /\ AnchorCrawler.last_written_key
       (AnchorCrawler.self (AnchorCrawler.new MAX_LINKS ANCHOR_BATCH_SIZE 5 sample_disk3))
     = Some [99]
  /\ AnchorCrawler._filtered_link_generator
       (AnchorCrawler.self
          (AnchorCrawler.set_links sample_new
             (AnchorCrawler.new MAX_LINKS ANCHOR_BATCH_SIZE 5 sample_world)))
     = sample_new.
Proof.
  assert (Forall well_formed sample_links) as Hwf.
  { repeat constructor; cbn; intros H; repeat (apply elem_of_cons in H as [H|H]; [discriminate|]);
      now apply elem_of_nil in H. }
  destruct (load_recovers_last_key sample_disk3 sample_links ([99], [104; 51])
              MAX_LINKS ANCHOR_BATCH_SIZE 5 sample_new Hwf eq_refl eq_refl)
    as (_ & Hnew & _ & Hempty).
  split_and!; [exact Hwf | reflexivity | reflexivity | exact Hnew | ].
  exact (proj1 (proj2 (Hempty sample_world (or_introl eq_refl)))).
Defined.

(** ** The partition of the stream among the workers *)

Module PartitionFacts.
Import CommentCrawler.

Lemma snd_enumerate_from {A} i (l : list A) : (enumerate_from i l).*2 = l.
Proof. revert i; induction l as [|x l IH]; intros i; cbn; [done|]. now rewrite IH. Qed.

Lemma elem_of_enumerate_from {A} i (l : list A) j x :
  (j, x) ∈ enumerate_from i l <-> (i <= j)%nat /\ l !! (j - i)%nat = Some x.
Proof.
  revert i; induction l as [|y l IH]; intros i; cbn.
  - rewrite elem_of_nil. split; [done|]. now intros [_ ?].
  - rewrite elem_of_cons, IH. split.
    + intros [[= -> ->]|[Hle Hl]].
      * split; [lia|]. now rewrite Nat.sub_diag.
      * split; [lia|]. replace (j - i)%nat with (Datatypes.S (j - Datatypes.S i)) by lia. done.
    + intros [Hle Hl]. destruct (decide (j = i)) as [->|Hne].
      * left. rewrite Nat.sub_diag in Hl. cbn in Hl. now injection Hl as ->.
      * right. split; [lia|].
        replace (j - i)%nat with (Datatypes.S (j - Datatypes.S i)) in Hl by lia. done.
Qed.

Lemma elem_of_enumerate {A} (l : list A) j x :
  (j, x) ∈ enumerate l <-> l !! j = Some x.
Proof.
  unfold enumerate. rewrite elem_of_enumerate_from, Nat.sub_0_r.
  split; [now intros [_ ?] | intros ?; split; [lia|done]].
Qed.

(** The generator commutes with a relabelling of the items. *)
Lemma get_link_from_fmap {A B} (f : A -> B) i (l : list A) w N :
  get_link_from i (f <$> l) w N
  = ((f <$> (get_link_from i l w N).1), (get_link_from i l w N).2).
Proof.
  revert i; induction l as [|x l IH]; intros i; cbn; [done|].
  destruct (N =? 0)%Z; [done|]. rewrite IH.
  destruct (get_link_from (i + 1) l w N) as [ys e]. cbn.
  now destruct (i mod N =? w)%Z.
Qed.

(** On the enumerated stream the generator keeps the positions [i] with
    [i mod N] equal to the worker's id. *)
Lemma get_link_from_enumerated {A} i (l : list A) w N :
  N <> 0%Z ->
  get_link_from (Z.of_nat i) (enumerate_from i l) w N
  = (filter (fun p => (Z.of_nat p.1 mod N)%Z = w) (enumerate_from i l), None).
Proof.
  intros HN. revert i; induction l as [|x l IH]; intros i; [done|].
  cbn [enumerate_from get_link_from].
  destruct (Z.eqb_spec N 0) as [?|_]; [done|].
  replace (Z.of_nat i + 1)%Z with (Z.of_nat (Datatypes.S i)) by lia.
  rewrite IH, filter_cons. cbn [fst].
  destruct (Z.eqb_spec (Z.of_nat i mod N) w) as [E|E].
  - now rewrite decide_True.
  - now rewrite decide_False.
Qed.

Lemma generator_assigned {A} (stream : list A) w N :
  N <> 0%Z ->
  get_link_generator (enumerate stream) w N = (assigned_to N w stream, None).
Proof. intros HN. now apply (get_link_from_enumerated 0). Qed.

Lemma generator_plain {A} (stream : list A) w N :
  N <> 0%Z ->
  get_link_generator stream w N = ((assigned_to N w stream).*2, None).
Proof.
  intros HN. unfold get_link_generator.
  rewrite <- (snd_enumerate_from 0 stream) at 1.
  rewrite get_link_from_fmap. fold (enumerate stream).
  fold (get_link_generator (enumerate stream) w N).
  now rewrite generator_assigned.
Qed.

Lemma elem_of_assigned {A} (stream : list A) w N i x :
  (i, x) ∈ assigned_to N w stream
  <-> stream !! i = Some x /\ (Z.of_nat i mod N)%Z = w.
Proof.
  unfold assigned_to. rewrite list_elem_of_filter, elem_of_enumerate. cbn. tauto.
Qed.

Lemma join_cons {A} (l : list A) (ls : list (list A)) :
  mjoin (l :: ls) = l ++ mjoin ls.
Proof. reflexivity. Qed.

(** The shares of the workers [ws], one after the other. *)
Lemma shares_nil {A} (f : A -> Z) (ws : list Z) :
  mjoin ((fun w => filter (fun x => f x = w) []) <$> ws) = [].
Proof. induction ws as [|w ws IH]; [done|]. cbn. exact IH. Qed.

Lemma shares_without {A} (f : A -> Z) x l (ws : list Z) :
  f x ∉ ws ->
  mjoin ((fun w => filter (fun y => f y = w) (x :: l)) <$> ws)
  = mjoin ((fun w => filter (fun y => f y = w) l) <$> ws).
Proof.
  induction ws as [|w ws IH]; intros Hx; [done|].
  apply not_elem_of_cons in Hx as [Hne Hx].
  rewrite !fmap_cons, !join_cons, filter_cons, decide_False by done.
  now rewrite IH.
Qed.

(** Every item goes to one worker: together the shares are the stream,
    up to the order. *)
Lemma shares_permutation {A} (f : A -> Z) (l : list A) (ws : list Z) :
  NoDup ws -> (forall x, x ∈ l -> f x ∈ ws) ->
  mjoin ((fun w => filter (fun x => f x = w) l) <$> ws) ≡ₚ l.
Proof.
  intros Hnd. induction l as [|x l IH]; intros Hin.
  - now rewrite shares_nil.
  - destruct (list_elem_of_split ws (f x)) as (ws1 & ws2 & Hws);
      [apply Hin, list_elem_of_here|].
    assert ((f x ∉ ws1) /\ (f x ∉ ws2)) as [H1 H2].
    { rewrite Hws in Hnd. apply NoDup_app in Hnd as (_ & Hd1 & Hd2).
      apply NoDup_cons in Hd2 as [Hd2 _]. split; [|done].
      intros Hx. apply (Hd1 _ Hx), list_elem_of_here. }
    specialize (IH (fun y Hy => Hin y (list_elem_of_further _ _ _ Hy))).
    rewrite Hws in IH |- *.
    rewrite !fmap_app, !join_app, !fmap_cons, !join_cons in IH |- *.
    rewrite !shares_without by done.
    rewrite filter_cons, decide_True by done.
    rewrite <- app_comm_cons, <- Permutation_middle. now constructor.
Qed.

End PartitionFacts.

(** C4. For every number of workers [N >= 1] and every stream, the
    generator of a worker never raises and yields, in the order of the
    stream, the items at the positions [i] with [i mod N] equal to the
    worker's id: the item at position [i] goes to worker [i mod N] and to
    no other. The workers started by [run_all_instances] have the ids
    [0 .. N-1]; their shares are pairwise disjoint, every share lies in
    the stream, and every item of the stream is in the share of one of
    them. *)
Theorem partition_by_index_modulo
    {A : Type} (stream : list A) (N : Z) :
  (1 <= N)%Z ->
  let share w := (CommentCrawler.get_link_generator (enumerate stream) w N).1 in
  (forall w, CommentCrawler.get_link_generator stream w N = ((share w).*2, None))
  /\ (forall w, share w = assigned_to N w stream)
  /\ (forall w, sublist (share w) (enumerate stream))
  /\ (forall i x w, stream !! i = Some x ->
        ((i, x) ∈ share w <-> w = (Z.of_nat i mod N)%Z))
  /\ (forall w i x, (i, x) ∈ share w -> stream !! i = Some x)
  /\ (forall w1 w2 p, w1 <> w2 -> p ∈ share w1 -> p ∉ share w2)
  /\ (forall i x, stream !! i = Some x ->
        exists w, w ∈ seqZ 0 N /\ (i, x) ∈ share w)
  /\ mjoin (share <$> seqZ 0 N) ≡ₚ enumerate stream
  /\ CommentCrawler.run_all_instances N stream
     = (fun w => ((share w).*2, None)) <$> seqZ 0 N.
Proof.
  intros HN share.
  assert (N <> 0%Z) as HN0 by lia.
  assert (forall w, share w = assigned_to N w stream) as Hshare.
  { intros w. unfold share. now rewrite PartitionFacts.generator_assigned. }
  split_and!.
  - intros w. rewrite Hshare. now apply PartitionFacts.generator_plain.
  - exact Hshare.
  - intros w. rewrite Hshare. apply sublist_filter.
  - intros i x w Hi. rewrite Hshare, PartitionFacts.elem_of_assigned.
    split; [now intros [_ <-] | now intros ->].
  - intros w i x. rewrite Hshare, PartitionFacts.elem_of_assigned. tauto.
  - intros w1 w2 [i x] Hne. rewrite !Hshare, !PartitionFacts.elem_of_assigned.
    intros [_ H1] [_ H2]. congruence.
  - intros i x Hi. exists (Z.of_nat i mod N)%Z. split.
    + apply elem_of_seqZ. pose proof (Z.mod_pos_bound (Z.of_nat i) N). lia.
    + rewrite Hshare. now apply PartitionFacts.elem_of_assigned.
  - rewrite (list_fmap_ext share (fun w => assigned_to N w stream) (seqZ 0 N))
      by (intros _ w _; apply Hshare).
    apply (PartitionFacts.shares_permutation (fun p => (Z.of_nat p.1 mod N)%Z)).
    + apply NoDup_seqZ.
    + intros p _. apply elem_of_seqZ.
      pose proof (Z.mod_pos_bound (Z.of_nat p.1) N). lia.
  - unfold CommentCrawler.run_all_instances.
    apply list_fmap_ext. intros _ w _. rewrite Hshare.
    now apply PartitionFacts.generator_plain.
Qed.

(** C4 with three workers on a stream of seven items. *)
Lemma partition_by_index_modulo_witness :
  (1 <= 3)%Z
  /\ (CommentCrawler.run_all_instances 3 [10; 11; 12; 13; 14; 15; 16]%nat).*1
     = [[10; 13; 16]; [11; 14]; [12; 15]]%nat.
Proof.
  split; [lia|].
  destruct (partition_by_index_modulo [10; 11; 12; 13; 14; 15; 16]%nat 3
              ltac:(lia)) as (_ & _ & _ & _ & _ & _ & _ & _ & Hrun).
  rewrite Hrun. vm_compute. reflexivity.
Defined.

(** ** The plugins *)

Module PluginFacts.
Import Plugins.

Lemma more_nil w : more [] [] w = w.
Proof. unfold more. rewrite !app_nil_r. now destruct w. Qed.

Lemma more_more e1 l1 e2 l2 w :
  more e2 l2 (more e1 l1 w) = more (e1 ++ e2) (l1 ++ l2) w.
Proof. unfold more. cbn. now rewrite !app_assoc. Qed.

Lemma add_log_more r w : add_log r w = more [] [r] w.
Proof. unfold add_log, more. now rewrite app_nil_r. Qed.

Lemma add_event_more e w : add_event e w = more [e] [] w.
Proof. unfold add_event, more. now rewrite app_nil_r. Qed.

(** When [random()] raises, [_safe_click] never calls [click]: each
    attempt ends in the warning. *)
Lemma safe_click_raises e b i attempt retries w :
  safe_click_from (Raise e) b i attempt retries w
  = (Ok tt, more [] (failed_clicks e attempt retries) w).
Proof.
  revert attempt w; induction retries as [|n IH]; intros attempt w.
  - cbn. unfold ret. now rewrite more_nil.
  - cbn [safe_click_from]. unfold bind at 1, try_except.
    unfold bind at 1, lift, emit, modify, ret. cbn.
    rewrite IH, add_log_more, more_more. reflexivity.
Qed.

(** When [random()] raises, no button is counted as clicked. *)
Lemma click_each_raises e buttons i total w :
  exists logs,
    click_each (Raise e) buttons i total w
    = (Ok total, more (visits i buttons) logs w).
Proof.
  revert i w; induction buttons as [|b rest IH]; intros i w.
  - exists []. cbn. unfold ret. now rewrite more_nil.
  - cbn [click_each]. unfold bind at 1, try_except.
    unfold bind at 1, do_scroll_into_view.
    unfold visits. cbn [enumerate_from fmap list_fmap fst snd]. unfold scroll_ok.
    destruct (scroll_into_view_if_needed b) as [[]|e0].
    + unfold bind at 1, emit at 1, modify.
      unfold bind at 1, _safe_click. rewrite safe_click_raises.
      unfold bind at 1, lift at 1.
      destruct (wait_for_load_state b) as [[]|e1].
      * unfold bind at 1, lift at 1. unfold bind at 1, emit, modify, ret.
        destruct (IH (Datatypes.S i) (add_log (WARNING, ButtonProblem e)
                     (more [] (failed_clicks e 0 3)
                        (add_log (DEBUG, ScrolledToButton)
                           (add_event (ScrollIntoView i true) w))))) as [logs ->].
        eexists. rewrite !add_log_more, add_event_more, !more_more. reflexivity.
      * unfold bind at 1, emit, modify, ret.
        destruct (IH (Datatypes.S i) (add_log (WARNING, ButtonProblem e1)
                     (more [] (failed_clicks e 0 3)
                        (add_log (DEBUG, ScrolledToButton)
                           (add_event (ScrollIntoView i true) w))))) as [logs ->].
        eexists. rewrite !add_log_more, add_event_more, !more_more. reflexivity.
    + unfold bind at 1, emit, modify, ret.
      destruct (IH (Datatypes.S i) (add_log (WARNING, ButtonProblem e0)
                   (add_event (ScrollIntoView i false) w))) as [logs ->].
      eexists. rewrite !add_log_more, add_event_more, !more_more. reflexivity.
Qed.

Lemma activated_visits i buttons : activated (visits i buttons) = [].
Proof.
  unfold visits. revert i; induction buttons as [|b rest IH]; intros i; [done|].
  cbn. apply IH.
Qed.

Lemma visited_visits i buttons : visited (visits i buttons) = seq i (length buttons).
Proof.
  unfold visits. revert i; induction buttons as [|b rest IH]; intros i; [done|].
  cbn. f_equal. apply IH.
Qed.

(** With [random] as the module binds it, a plugin scrolls to every
    matched button, clicks none and returns [False]. *)
Lemma plugin_never_clicks pg sel w :
  exists evs logs,
    _click_buttons_once random_of_import_random pg sel w = (Ok false, more evs logs w)
    /\ activated evs = []
    /\ (forall buttons, pg sel = Ok buttons -> evs = visits 0 buttons).
Proof.
  unfold _click_buttons_once, try_except. unfold bind at 1, lift at 1.
  destruct (pg sel) as [buttons|e] eqn:E.
  - destruct buttons as [|b rest].
    + exists [], [(INFO, NoButtons)]. split_and!; [|reflexivity|].
      * rewrite <- add_log_more. reflexivity.
      * now intros ? [= <-].
    + unfold bind at 1, emit at 1, modify.
      unfold bind at 1, random_of_import_random.
      destruct (click_each_raises TypeError (b :: rest) 0 0
                  (add_log (INFO, ButtonsFound (length (b :: rest))) w)) as [logs ->].
      unfold bind at 1, emit, modify, ret. cbn [Z.gtb Z.compare].
      eexists (visits 0 (b :: rest)), _. split_and!.
      * rewrite !add_log_more, !more_more. cbn [app]. rewrite app_nil_r. reflexivity.
      * apply activated_visits.
      * now intros ? [= <-].
  - exists [], [(ERROR, PluginFailed e)]. split_and!; [|reflexivity|done].
    rewrite <- add_log_more. reflexivity.
Qed.

End PluginFacts.

(** C7 fails on the module as it is written. The module binds [random]
    with [import random], so that [random()] raises [TypeError]: in
    [_safe_click] at each of the three attempts, before [click] is
    reached, and in [_click_buttons_once] before [total_clicks] is counted
    up. On a page whose close button takes the first click the plugin
    scrolls to the button, never clicks it, logs the failure of three
    attempts and of the button, and returns false. The docstring of
    [_click_buttons_once] says that it clicks the matched buttons and
    returns true when one was clicked. *)
Theorem plugin_as_written_on_willing_button :
  let r := Plugins.click_close_button (fun _ => Ok [willing]) sample_world in
  r.1 = Ok false
  /\ events r.2 = [ScrollIntoView 0 true]
  /\ log r.2 = [(INFO, ButtonsFound 1); (DEBUG, ScrolledToButton);
               (WARNING, ClickFailed 1 TypeError);
               (WARNING, ClickFailed 2 TypeError);
               (WARNING, ClickFailed 3 TypeError);
               (WARNING, ButtonProblem TypeError); (INFO, ClicksDone 0)].
Proof. vm_compute. split_and!; reflexivity. Qed.

(** Were [random] bound to the function, as [comment_crawler.py] binds it, the
    result would not tell whether an element was clicked either:
    [_safe_click] returns in the same way after a click and after three
    failed attempts, and [total_clicks] is counted up after it. On a
    button that never takes a click the plugin would try three times and
    return true. *)
Lemma plugin_with_callable_random :
  let r := Plugins._click_buttons_once (Ok tt) (fun _ => Ok [stubborn])
             Plugins.CloseButton sample_world in
  r.1 = Ok true
  /\ events r.2 = [ScrollIntoView 0 true; Click 0 0 false; Click 0 1 false;
                  Click 0 2 false]
  /\ Plugins.activated (events r.2) = []
  /\ log r.2 = [(INFO, ButtonsFound 1); (DEBUG, ScrolledToButton);
               (WARNING, ClickFailed 1 PlaywrightError);
               (WARNING, ClickFailed 2 PlaywrightError);
               (WARNING, ClickFailed 3 PlaywrightError);
               (DEBUG, MouseParked); (INFO, ClicksDone 1)].
Proof. vm_compute. split_and!; reflexivity. Qed.

(** With [random] bound to the function, the button that takes the first
    click would get it, and the plugin would return true. *)
Lemma plugin_with_callable_random_on_willing_button :
  let r := Plugins._click_buttons_once (Ok tt) (fun _ => Ok [willing])
             Plugins.CloseButton sample_world in
  r.1 = Ok true
  /\ events r.2 = [ScrollIntoView 0 true; Click 0 0 true]
  /\ Plugins.activated (events r.2) = [0%nat].
Proof. vm_compute. split_and!; reflexivity. Qed.

(** ** Waiting for links *)

Module WaitFacts.
Import WaitForLinks.

Lemma pass_on_yields {A} (all_links : list (arrival A)) now start_time :
  (pass_on all_links now start_time).1.1 = item <$> all_links.
Proof.
  revert now start_time; induction all_links as [|a rest IH]; intros now st; [done|].
  cbn [pass_on].
  specialize (IH (now + Z.of_N (waited a) + Z.of_N (held a) + Z.of_N (paused a))%Z
                 (now + Z.of_N (waited a) + Z.of_N (held a))%Z).
  destruct (pass_on rest _ _) as [[ys n] s]. cbn in *. now rewrite IH.
Qed.

(** The clock only moves forward, and [start_time] is a reading of it. *)
Lemma pass_on_clock {A} (all_links : list (arrival A)) now start_time :
  (start_time <= now)%Z ->
  let r := pass_on all_links now start_time in
  (now <= r.1.2)%Z /\ (r.2 <= r.1.2)%Z /\ (start_time <= r.2)%Z.
Proof.
  revert now start_time; induction all_links as [|a rest IH]; intros now st Hle.
  - cbn. lia.
  - cbn [pass_on].
    specialize (IH (now + Z.of_N (waited a) + Z.of_N (held a) + Z.of_N (paused a))%Z
                   (now + Z.of_N (waited a) + Z.of_N (held a))%Z ltac:(lia)).
    destruct (pass_on rest _ _) as [[ys n] s]. cbn in *. lia.
Qed.

(** The idle loop ends: at its end the idle time has reached the
    timeout, it had not at the check before, and the loop has slept at
    most once per tick that was missing. *)
Lemma idle_wait_ends naps k0 st tmo t :
  let r := idle_wait naps k0 st tmo t in
  (tmo <= r.1 - st)%Z
  /\ (t <= r.1)%Z
  /\ (k0 <= r.2)%nat
  /\ (Z.of_nat (r.2 - k0) <= Z.max 0 (st + tmo - t))%Z
  /\ ((t - st < tmo)%Z ->
      (k0 < r.2)%nat /\ (r.1 - Z.pos (naps (r.2 - 1)%nat) - st < tmo)%Z).
Proof.
  funelim (idle_wait naps k0 st tmo t).
  - clear Heqcall Heq. cbn zeta in H. destruct H as (H1 & H2 & H3 & H4 & H5).
    split_and!; try lia.
    intros _. split; [lia|].
    match goal with
    | |- context [idle_wait ?n ?k' ?s ?to ?t'] =>
        destruct (decide (t' - s < to)%Z) as [Hlt|Hge];
        [ now destruct (H5 Hlt)
        | assert (idle_wait n k' s to t' = (t', k')) as ->
            by (simp idle_wait; destruct (decide _); [lia|reflexivity]) ]
    end.
    cbn. rewrite Nat.sub_0_r. lia.
  - cbn. split_and!; lia.
Qed.

(** With sleeps of one tick each, the idle loop ends at the tick at which
    the idle time reaches the timeout, after one sleep for every tick
    that was missing. *)
Lemma idle_wait_by_ticks k st tmo t :
  idle_wait (fun _ => 1%positive) k st tmo t
  = (Z.max t (st + tmo), (k + Z.to_nat (st + tmo - t))%nat).
Proof.
  funelim (idle_wait (fun _ => 1%positive) k st tmo t).
  - clear Heqcall Heq. rewrite H. f_equal; lia.
  - f_equal; lia.
Qed.

End WaitFacts.

(** C8 fails on a stream that is slow. The timeout is looked at only in
    the loop that follows the [async for], that is, once the stream has
    ended; while the wrapper waits for the next link no clock is read.
    Here the one link of the stream arrives 1000 seconds after the worker
    began to wait, with a timeout of 60 seconds. The worker does not end
    at second 60: it yields the link at second 1000, sets [start_time]
    when the consumer comes back 7 seconds later, spends 2 seconds in
    [asyncio.sleep(0)], and only then, the stream being at its end,
    sleeps 58 times one second, until second 1067, before it logs the
    warning. The docstring of [_wait_for_links] says that the waiting
    stops once the timeout is exceeded. *)
Theorem late_link_is_still_waited_for :
  let r := WaitForLinks._wait_for_links
             [WaitForLinks.Arrival 1000 sample_link 7 2] 0
             (fun _ => 1%positive) 60 0 in
  WaitForLinks.yielded r = [sample_link]
  /\ WaitForLinks.start_time r = 1007%Z
  /\ WaitForLinks.sleeps r = 58%nat
  /\ WaitForLinks.now r = 1067%Z
  /\ WaitForLinks.log r = [(WARNING, IdleTimeout)].
Proof.
  cbv zeta. unfold WaitForLinks._wait_for_links. cbn [WaitForLinks.pass_on].
  cbn [WaitForLinks.waited WaitForLinks.held WaitForLinks.paused WaitForLinks.item].
  rewrite WaitFacts.idle_wait_by_ticks. vm_compute. split_and!; reflexivity.
Qed.

(** ** Comment files *)

(** C3 fails on a page that shows fifty comments at the first look and
    then nothing new. The loop of [_fetch_comments] saves the fifty when
    they are found (the batch size is reached), ends after five rounds
    without progress, and returns all the comments it has; [process_links]
    then saves what it was returned, from the first comment on. Every
    comment is in the file twice. *)
Lemma flushed_comments_are_written_again :
  let w := CommentCrawler.process_each 7 (fun _ => still_page sample_comments)
             [sample_link] sample_world in
  CommentCrawler.file_at ([97] ++ TXT) <$> w
  = Some (Some (comment_text (sample_comments ++ sample_comments)))
  /\ length sample_comments = 50%nat
  /\ NoDup sample_comments.
Proof.
  split_and!.
  - vm_compute. reflexivity.
  - reflexivity.
  - apply (bool_decide_unpack _). vm_compute. exact I.
Qed.

(** On a page without comments the loop ends after five rounds without
    progress, and the comment file of the link is there, empty. *)
Lemma empty_comment_file_is_written :
  let w := CommentCrawler.process_each 5 (fun _ => still_page [])
             [sample_link] sample_world in
  CommentCrawler.file_at ([97] ++ TXT) <$> w = Some (Some [])
  /\ filter (fun r => is_warning r = true) <$> (log <$> w)
     = Some ((fun n => (WARNING, NoNewComments n)) <$> [1; 2; 3; 4; 5]%Z).
Proof. vm_compute. split; reflexivity. Qed.

(** ** The scroll loop *)

Module ScrollFacts.
Import AnchorCrawler.

Section Collect.
Variable urljoin : str -> str -> str.
Variable md5_hexdigest : str -> str.
Variable target_url : str.

Local Abbreviation hash := (feed_hash urljoin md5_hexdigest target_url).
Local Abbreviation three := (three_links urljoin md5_hexdigest target_url).

(** A link whose hash is new is added at the end of the working set. *)
Lemma collect_fresh c l rest s :
  hash (c :: l) ∉ (links (self s)).*1 ->
  collect urljoin md5_hexdigest target_url (Ok (Some (c :: l)) :: rest) s
  = collect urljoin md5_hexdigest target_url rest
      (set_links (links (self s) ++ [(hash (c :: l), urljoin target_url (c :: l))]) s).
Proof.
  intros Hnew. cbn [collect]. unfold bind at 1. unfold bind at 1, lift at 1.
  unfold bind at 1, get at 1. unfold _hash_link.
  fold (hash (c :: l)). rewrite decide_False by exact Hnew.
  reflexivity.
Qed.

(** A link whose hash is in the working set is passed over. *)
Lemma collect_known c l rest s :
  hash (c :: l) ∈ (links (self s)).*1 ->
  collect urljoin md5_hexdigest target_url (Ok (Some (c :: l)) :: rest) s
  = collect urljoin md5_hexdigest target_url rest s.
Proof.
  intros Hold. cbn [collect]. unfold bind at 1. unfold bind at 1, lift at 1.
  unfold bind at 1, get at 1. unfold _hash_link.
  fold (hash (c :: l)). rewrite decide_True by exact Hold.
  reflexivity.
Qed.

Hypothesis distinct : NoDup [hash href_a; hash href_b; hash href_c].

(** The first round on the small feed: the working set goes from no
    link to three, 3 mod 2 is not 0, and the flush is not called. *)
Lemma first_round w :
  scroll_body urljoin md5_hexdigest target_url small_feed 0 0 (eager w)
  = (Ok (true, 1000%Z, 0%Z), set_links three (eager w)).
Proof.
  assert (hash href_a <> hash href_b /\ hash href_a <> hash href_c
          /\ hash href_b <> hash href_c) as (Hab & Hac & Hbc).
  { pose proof distinct as Hd. rewrite !NoDup_cons, !not_elem_of_cons in Hd. tauto. }
  unfold scroll_body, small_feed. cbn [scrolled hrefs height disk].
  unfold bind at 1, lift at 1. unfold bind at 1, lift at 1.
  unfold bind at 1.
  unfold href_a at 1, href_b at 1, href_c at 1.
  rewrite collect_fresh by (cbn; apply not_elem_of_nil).
  rewrite collect_fresh
    by (cbn; rewrite !not_elem_of_cons; split_and!;
        [ exact (not_eq_sym Hab) | apply not_elem_of_nil ]).
  rewrite collect_fresh
    by (cbn; rewrite !not_elem_of_cons; split_and!;
        [ exact (not_eq_sym Hac) | exact (not_eq_sym Hbc) | apply not_elem_of_nil ]).
  reflexivity.
Qed.

(** A later round: nothing is new, the size is still 3, and the flush is
    not called. *)
Lemma later_round w retries :
  scroll_body urljoin md5_hexdigest target_url small_feed 1000 retries
    (set_links three (eager w))
  = if (retries + 1 >=? 5)%Z
    then (Ok (false, 1000%Z, (retries + 1)%Z),
          logged WARNING TooManyScrollRetries (set_links three (eager w)))
    else (Ok (true, 1000%Z, (retries + 1)%Z), set_links three (eager w)).
Proof.
  unfold scroll_body, small_feed. cbn [scrolled hrefs height disk].
  unfold bind at 1, lift at 1. unfold bind at 1, lift at 1.
  unfold bind at 1.
  unfold href_a at 1, href_b at 1, href_c at 1.
  rewrite collect_known by (cbn; apply list_elem_of_here).
  rewrite collect_known by (cbn; apply list_elem_of_further, list_elem_of_here).
  rewrite collect_known
    by (cbn; apply list_elem_of_further, list_elem_of_further, list_elem_of_here).
  cbn. now destruct (retries + 1 >=? 5)%Z.
Qed.

Lemma later_round_go w retries :
  (retries + 1 < 5)%Z ->
  scroll_body urljoin md5_hexdigest target_url small_feed 1000 retries
    (set_links three (eager w))
  = (Ok (true, 1000%Z, (retries + 1)%Z), set_links three (eager w)).
Proof.
  intros H. rewrite later_round.
  now destruct (Z.geb_spec (retries + 1) 5); [lia|].
Qed.

Lemma later_round_stop w retries :
  (5 <= retries + 1)%Z ->
  scroll_body urljoin md5_hexdigest target_url small_feed 1000 retries
    (set_links three (eager w))
  = (Ok (false, 1000%Z, (retries + 1)%Z),
     logged WARNING TooManyScrollRetries (set_links three (eager w))).
Proof.
  intros H. rewrite later_round.
  now destruct (Z.geb_spec (retries + 1) 5); [|lia].
Qed.

(** One round of the loop, when the working set is not full. *)
Lemma loop_round fuel page i prev_height retries s :
  (Z.of_nat (length (links (self s))) <? max_links (self s))%Z = true ->
  scroll_loop urljoin md5_hexdigest target_url (Datatypes.S fuel) page i
    prev_height retries s
  = match scroll_body urljoin md5_hexdigest target_url (page i)
            prev_height retries s with
    | (Ok (true, prev_height', retries'), s') =>
        scroll_loop urljoin md5_hexdigest target_url fuel page (Datatypes.S i)
          prev_height' retries' s'
    | (Ok (false, _, _), s') => Some s'
    | (Raise e, s') => Some (snd (on_world (emit ERROR (ScrollCollectFailed e)) s'))
    end.
Proof. intros H. cbn [scroll_loop]. now rewrite H. Qed.

(** The whole loop on the small feed: six rounds, no flush. *)
Lemma small_feed_run w :
  scroll_and_collect_links urljoin md5_hexdigest target_url 6
    (fun _ => small_feed) (eager w)
  = Some (logged WARNING TooManyScrollRetries (set_links three (eager w))).
Proof.
  unfold scroll_and_collect_links.
  rewrite loop_round by reflexivity. rewrite first_round.
  do 4 (rewrite loop_round by reflexivity; rewrite later_round_go by lia).
  rewrite loop_round by reflexivity. rewrite later_round_stop by lia.
  reflexivity.
Qed.

(** The three links reach the link log at the end only, by the flush of
    [start_crawling]. *)
Lemma small_feed_crawl :
  exists s,
    start_crawling urljoin md5_hexdigest target_url 6 (Ok tt)
      (fun _ => small_feed) no_fault eager_crawler = Some s
    /\ anchor_file (env s) = Some (log_text three)
    /\ log (env s) = [(INFO, GoingTo); (WARNING, TooManyScrollRetries);
                      (INFO, LinksAppended)].
Proof.
  unfold start_crawling.
  change ((on_world (emit INFO GoingTo) ;;; lift (Ok tt)) eager_crawler)
    with (@Ok unit tt, eager (add_log (INFO, GoingTo) sample_world)).
  cbv beta iota. rewrite small_feed_run. cbn [mbind option_bind].
  rewrite FlushFacts.flush_ok; [|done|apply FlushFacts.no_fault_writes].
  eexists. split; [reflexivity|]. split; [|reflexivity].
  cbn. now rewrite app_nil_r.
Qed.

End Collect.

End ScrollFacts.

(** C5 fails on a feed that shows three links at the first scroll, with
    batch size 2: the working set goes from no link to three in one
    round, past the threshold 2, and no flush is made in that round, nor
    in the five rounds after it that end the loop. The link log is not
    even created. The hypothesis says that the three links have different
    hashes. *)
Theorem threshold_crossed_without_flush
    (urljoin : str -> str -> str) (md5_hexdigest : str -> str) (target_url : str) :
  let hash l := md5_hexdigest (urljoin target_url l) in
  NoDup [hash href_a; hash href_b; hash href_c] ->
  exists s,
    AnchorCrawler.scroll_and_collect_links urljoin md5_hexdigest target_url
      6 (fun _ => small_feed) eager_crawler = Some s
    (* the first round: from no link to three, and no flush *)
    /\ length (AnchorCrawler.links (AnchorCrawler.self
          (AnchorCrawler.scroll_body urljoin md5_hexdigest target_url
             small_feed 0 0 eager_crawler).2)) = 3%nat
    /\ anchor_file (AnchorCrawler.env
          (AnchorCrawler.scroll_body urljoin md5_hexdigest target_url
             small_feed 0 0 eager_crawler).2) = None
    (* the end of the loop *)
    /\ AnchorCrawler.links (AnchorCrawler.self s)
       = [(hash href_a, urljoin target_url href_a);
          (hash href_b, urljoin target_url href_b);
          (hash href_c, urljoin target_url href_c)]
    /\ AnchorCrawler.batch_size (AnchorCrawler.self s) = 2%Z
    /\ anchor_file (AnchorCrawler.env s) = None
    /\ AnchorCrawler.last_written_key (AnchorCrawler.self s) = None
    /\ log (AnchorCrawler.env s) = [(WARNING, TooManyScrollRetries)].
Proof.
  intros hash Hd.
  pose proof (ScrollFacts.first_round urljoin md5_hexdigest target_url Hd sample_world)
    as Hfirst.
  eexists. split_and!.
  - apply (ScrollFacts.small_feed_run urljoin md5_hexdigest target_url Hd).
  - unfold eager_crawler. now rewrite Hfirst.
  - unfold eager_crawler. now rewrite Hfirst.
  - reflexivity.
  - reflexivity.
  - reflexivity.
  - reflexivity.
  - reflexivity.
Qed.

(** C5's failing input with the identity for the hash and for the
    resolution of links. *)
Lemma threshold_crossed_without_flush_witness :
  NoDup [href_a; href_b; href_c]
  /\ exists s,
       AnchorCrawler.scroll_and_collect_links (fun _ l => l) (fun l => l) []
         6 (fun _ => small_feed) eager_crawler = Some s
       /\ anchor_file (AnchorCrawler.env s) = None.
Proof.
  assert (NoDup [href_a; href_b; href_c]) as Hd.
  { apply (bool_decide_unpack _). vm_compute. exact I. }
  split; [exact Hd|].
  destruct (threshold_crossed_without_flush (fun _ l => l) (fun l => l) [] Hd)
    as (s & Hrun & _ & _ & _ & _ & Hfile & _).
  exists s. split; [exact Hrun | exact Hfile].
Defined.

(** ** The extraction loop *)

Module FetchFacts.
Import CommentCrawler.

Lemma plugin_total (sel : Plugins.selector) pg w :
  exists evs logs,
    Plugins._click_buttons_once Plugins.random_of_import_random pg sel w
    = (Ok false, more evs logs w).
Proof.
  destruct (PluginFacts.plugin_never_clicks pg sel w) as (evs & logs & H & _).
  now exists evs, logs.
Qed.

(** The four plugins change nothing on the disk. *)
Lemma plugins_total pg w :
  exists evs logs,
    run_plugins page_to_do_plugins pg w = (Ok tt, more evs logs w).
Proof.
  unfold page_to_do_plugins, run_plugins.
  unfold Plugins.click_view_more_comments, Plugins.click_close_button,
    Plugins.click_expand_buttons, Plugins.click_more_replies_buttons.
  unfold bind at 1, try_except at 1. unfold bind at 1.
  destruct (plugin_total Plugins.ViewMoreComments pg w) as (e1 & l1 & ->).
  unfold emit at 1, modify.
  unfold bind at 1, try_except at 1. unfold bind at 1.
  destruct (plugin_total Plugins.CloseButton pg
              (add_log (INFO, PluginRan) (more e1 l1 w))) as (e2 & l2 & ->).
  unfold emit at 1, modify.
  unfold bind at 1, try_except at 1. unfold bind at 1.
  destruct (plugin_total Plugins.ExpandButton pg
              (add_log (INFO, PluginRan)
                 (more e2 l2 (add_log (INFO, PluginRan) (more e1 l1 w)))))
    as (e3 & l3 & ->).
  unfold emit at 1, modify.
  unfold bind at 1, try_except at 1. unfold bind at 1.
  destruct (plugin_total Plugins.MoreRepliesButton pg
              (add_log (INFO, PluginRan)
                 (more e3 l3 (add_log (INFO, PluginRan)
                    (more e2 l2 (add_log (INFO, PluginRan) (more e1 l1 w)))))))
    as (e4 & l4 & ->).
  unfold emit at 1, modify, ret.
  eexists _, _. rewrite !PluginFacts.add_log_more, !PluginFacts.more_more.
  reflexivity.
Qed.

Lemma extract_total v w :
  exists cs logs, _extract_comments v w = (Ok cs, more [] logs w).
Proof.
  unfold _extract_comments, try_except. unfold bind at 1, lift at 1.
  destruct (texts v) as [elements|e].
  - unfold bind at 1, lift at 1. destruct (inner_texts elements) as [cs|e].
    + exists cs, [(INFO, Extracted (length cs))].
      unfold bind, emit, modify, ret. now rewrite PluginFacts.add_log_more.
    + exists [], [(ERROR, ExtractFailed e)].
      unfold bind, emit, modify, ret. now rewrite PluginFacts.add_log_more.
  - exists [], [(ERROR, ExtractFailed e)].
    unfold bind, emit, modify, ret. now rewrite PluginFacts.add_log_more.
Qed.

Lemma scroll_total v w :
  exists b logs, _scroll_page v w = (Ok b, more [] logs w).
Proof.
  unfold _scroll_page, try_except. unfold bind at 1, emit at 1, modify.
  unfold bind at 1, lift at 1.
  destruct (heights v) as [[h1 h2]|e].
  - eexists _, _. unfold ret. rewrite PluginFacts.add_log_more. reflexivity.
  - eexists _, _. unfold bind, emit, modify, ret.
    rewrite !PluginFacts.add_log_more, PluginFacts.more_more. reflexivity.
Qed.

Lemma flushed_prefix_more name base v w evs logs :
  flushed_prefix name base (v, w) -> flushed_prefix name base (v, more evs logs w).
Proof. intros (d & Hd & H). now exists d. Qed.

Lemma comment_text_app l1 l2 :
  comment_text (l1 ++ l2) = comment_text l1 ++ comment_text l2.
Proof.
  induction l1 as [|c l1 IH]; [reflexivity|].
  change (comment_text ((c :: l1) ++ l2)) with ((c ++ [Py.LF]) ++ comment_text (l1 ++ l2)).
  change (comment_text (c :: l1)) with ((c ++ [Py.LF]) ++ comment_text l1).
  now rewrite IH, app_assoc.
Qed.

(** Taking in what the page shows keeps the file in step with
    [flush_idx], and only adds to the comments. *)
Lemma take_in_keeps name base new_comments v w :
  flushed_prefix name base (v, w) ->
  exists added vw',
    take_in name no_fault new_comments (v, w) = (Ok added, vw')
    /\ flushed_prefix name base vw'
    /\ comments vw'.1 = comments v ++ added.
Proof.
  intros (d & Hd & Hle & Hfile). cbn [fst snd] in *.
  unfold take_in. unfold bind at 1, get at 1. cbn [fst snd].
  unfold bind at 1, on_world at 1, _is_new_content_loaded. cbn [fst snd].
  unfold bind at 1, emit at 1, modify at 1, ret at 1.
  set (added := filter (fun c => c ∉ comments v) new_comments).
  set (w1 := add_log (INFO, Added (length added)) w).
  assert (comment_dir w1 = Some d) as Hd1 by exact Hd.
  clearbody w1 added.
  destruct added as [|a added].
  - unfold bind, ret. eexists [], _. split_and!; [reflexivity| |].
    + now exists d.
    + cbn. now rewrite app_nil_r.
  - unfold bind at 1. unfold bind at 1, update at 1, modify at 1.
    unfold bind at 1, get at 1. cbn [fst snd comments flush_idx retries].
    destruct (comments v ++ a :: added) as [|c cs] eqn:Ecs.
    { now destruct (comments v). }
    rewrite <- Ecs.
    destruct (Z.of_nat (length (comments v ++ a :: added)) - Z.of_nat (flush_idx v)
              >=? COMMENT_BATCH_SIZE)%Z.
    + unfold bind at 1, on_world at 1. cbn [fst snd].
      rewrite (SaveFacts.save_appends_all _ _ _ d Hd1).
      unfold update, modify, ret. cbn [fst snd comments flush_idx retries].
      eexists (a :: added), _. split_and!; [reflexivity| |reflexivity].
      eexists. cbn [fst snd comments flush_idx]. split_and!.
      * cbn. rewrite Hd1. reflexivity.
      * lia.
      * rewrite lookup_insert_eq. cbn [default from_option id].
        rewrite Hfile, firstn_all, <- app_assoc. f_equal.
        rewrite <- (take_app_le (comments v) (a :: added) (flush_idx v)) by exact Hle.
        now rewrite <- comment_text_app, take_drop.
    + unfold ret. eexists (a :: added), _. split_and!; [reflexivity| |reflexivity].
      exists d. cbn [fst snd comments flush_idx]. split_and!.
      * exact Hd1.
      * rewrite length_app. lia.
      * now rewrite take_app_le.
Qed.

Lemma count_round_keeps name base scrolled added vw :
  flushed_prefix name base vw ->
  exists vw',
    count_round scrolled added vw = (Ok tt, vw')
    /\ flushed_prefix name base vw'
    /\ comments vw'.1 = comments vw.1.
Proof.
  destruct vw as [v w]. intros (d & Hd & Hle & Hfile). cbn [fst snd] in *.
  unfold count_round.
  destruct scrolled, added as [|a added];
    unfold bind, update, get, on_world, emit, modify;
    cbn [fst snd];
    (eexists; split_and!; [reflexivity | now exists d | reflexivity]).
Qed.

(** A round of the loop keeps the file in step with [flush_idx]. *)
Lemma fetch_body_keeps name base p i vw :
  flush_io p i = no_fault ->
  flushed_prefix name base vw ->
  exists vw',
    fetch_body name p i page_to_do_plugins vw = (Ok tt, vw')
    /\ flushed_prefix name base vw'.
Proof.
  destruct vw as [v w]. intros Hio Hinv. unfold fetch_body. rewrite Hio.
  unfold bind at 1, on_world at 1. cbn [fst snd].
  destruct (plugins_total (buttons p i) w) as (e1 & l1 & ->).
  apply (flushed_prefix_more _ _ _ _ e1 l1) in Hinv.
  unfold bind at 1, on_world at 1. cbn [fst snd].
  destruct (extract_total (views p i) (more e1 l1 w)) as (cs & l2 & ->).
  apply (flushed_prefix_more _ _ _ _ [] l2) in Hinv.
  unfold bind at 1.
  destruct (take_in_keeps name base cs v _ Hinv) as (added & [v1 w1] & -> & Hinv1 & _).
  unfold bind at 1, on_world at 1. cbn [fst snd].
  destruct (scroll_total (views p i) w1) as (b & l3 & ->).
  apply (flushed_prefix_more _ _ _ _ [] l3) in Hinv1.
  destruct (count_round_keeps name base b added _ Hinv1) as (vw' & -> & Hinv' & _).
  now exists vw'.
Qed.

(** The loop, when it ends, leaves the file in step with [flush_idx]. *)
Lemma fetch_loop_keeps name base p fuel i vw vw' :
  (forall j, flush_io p j = no_fault) ->
  flushed_prefix name base vw ->
  fetch_loop fuel name p i page_to_do_plugins vw = Some vw' ->
  flushed_prefix name base vw'.
Proof.
  intros Hio. revert i vw; induction fuel as [|fuel IH]; intros i vw Hinv; cbn [fetch_loop].
  - destruct (retries vw.1 <? max_retries)%Z; [done|]. now intros [= <-].
  - destruct (retries vw.1 <? max_retries)%Z; [|now intros [= <-]].
    destruct (fetch_body_keeps name base p i vw (Hio i) Hinv) as (vw1 & -> & Hinv1).
    now apply IH.
Qed.

(** What [_fetch_comments] returns and what it leaves in the file: the
    file holds the first [k] of the comments returned, for some [k]. *)
Lemma fetch_comments_file fuel name p url w d comments w1 :
  (forall j, flush_io p j = no_fault) ->
  comment_dir w = Some d ->
  _fetch_comments fuel name p url page_to_do_plugins w = Some (comments, w1) ->
  exists k d1,
    (k <= length comments)%nat
    /\ comment_dir w1 = Some d1
    /\ default [] (d1 !! name) = default [] (d !! name) ++ comment_text (take k comments).
Proof.
  intros Hio Hd. unfold _fetch_comments.
  unfold bind, emit, modify, lift.
  destruct (goto p) as [[]|e].
  - destruct (fetch_loop _ _ _ _ _ _) as [[v' w']|] eqn:Hloop; [|done].
    cbn. intros [= <- <-].
    apply (fetch_loop_keeps name (default [] (d !! name))) in Hloop as (d1 & Hd1 & Hle & Hf);
      [ | exact Hio | ].
    + exists (flush_idx v'), d1. cbn in *. done.
    + exists d. cbn. split_and!; [exact Hd | lia | now rewrite app_nil_r].
  - intros [= <- <-]. exists 0%nat, d. cbn. split_and!; [lia | exact Hd | now rewrite app_nil_r].
Qed.

(** [process_links] on one link without comment file, on a disk without
    fault: when the loop of [_fetch_comments] ends, the comment file of the
    link is there and holds the first [k] comments, for some [k], and then
    all the comments. *)
Lemma process_link_file fuel renderer hash_key link w d comments w1 :
  comment_dir w = Some d ->
  d !! (hash_key ++ TXT) = None ->
  (forall j, flush_io (renderer link) j = no_fault) ->
  final_io (renderer link) = no_fault ->
  _fetch_comments fuel (hash_key ++ TXT) (renderer link) link page_to_do_plugins w
  = Some (comments, w1) ->
  exists k w',
    (k <= length comments)%nat
    /\ process_each fuel renderer [(hash_key, link)] w = Some w'
    /\ file_at (hash_key ++ TXT) w'
       = Some (comment_text (take k comments) ++ comment_text comments).
Proof.
  intros Hd Hnew Hio Hfin Hfetch.
  destruct (fetch_comments_file _ _ _ _ _ _ _ _ Hio Hd Hfetch) as (k & d1 & Hk & Hd1 & Hf).
  rewrite Hnew in Hf. cbn [default from_option] in Hf.
  exists k. eexists. split; [exact Hk|].
  rewrite (SaveFacts.process_link_appends_all fuel renderer hash_key link [] w comments w1 d1);
    [ | unfold file_at; rewrite Hd; exact Hnew | exact Hfetch | exact Hd1 | exact Hfin ].
  split; [reflexivity|].
  unfold file_at. cbn. rewrite Hd1. cbn. rewrite lookup_insert_eq. now rewrite Hf.
Qed.

End FetchFacts.

(** * Further properties *)

(** ** Names of comment files *)

Module NameFacts.

(** A name with the suffix [TXT] is its stem followed by [TXT], and the
    stem is not empty. *)
Lemma suffix_txt_inv name :
  Py.suffix name = TXT -> name = Py.stem name ++ TXT /\ Py.stem name <> [].
Proof.
  unfold Py.suffix, Py.stem. destruct (Py.rfind_dot name) as [i|]; [|done].
  destruct (0 <? i)%nat eqn:H0; [|done].
  destruct (i <? length name - 1)%nat eqn:H1; [|done].
  cbn [andb]. intros Hdrop. split.
  - now rewrite <- Hdrop, take_drop.
  - apply Nat.ltb_lt in H0, H1. intros Hnil.
    apply (f_equal length) in Hnil. rewrite length_take in Hnil. cbn in Hnil. lia.
Qed.

Lemma completed_inv (d : gmap str str) a :
  a ∈ AnchorCrawler.completed_hashes d -> a <> [] /\ is_Some (d !! (a ++ TXT)).
Proof.
  unfold AnchorCrawler.completed_hashes.
  intros (name & -> & [Hsuf Hdom]%elem_of_filter)%elem_of_map.
  destruct (suffix_txt_inv name Hsuf) as [Hname Hne].
  split; [exact Hne|]. rewrite <- Hname. now apply elem_of_dom.
Qed.

End NameFacts.

(** X1. The reader takes an address for completed exactly when the
    directory of comments has the file that [process_links] writes for it:
    the address followed by [TXT]. The empty address is never completed. *)
Theorem completed_iff_comment_file (d : gmap str str) (a : str) :
  a ∈ AnchorCrawler.completed_hashes d <-> a <> [] /\ is_Some (d !! (a ++ TXT)).
Proof.
  split.
  - unfold AnchorCrawler.completed_hashes.
    intros (name & -> & [Hsuf Hdom]%elem_of_filter)%elem_of_map.
    destruct (NameFacts.suffix_txt_inv name Hsuf) as [Hname Hne].
    split; [exact Hne|]. rewrite <- Hname. now apply elem_of_dom.
  - intros [Ha Hin]. now apply ReaderFacts.completed_of_file.
Qed.

(** ** Lists *)

Module ListFacts.

Lemma filter_all {A} (P : A -> Prop) `{!forall x, Decision (P x)} (l : list A) :
  (forall x, x ∈ l -> P x) -> filter P l = l.
Proof.
  induction l as [|x l IH]; intros Hall; [reflexivity|].
  rewrite filter_cons, decide_True by (apply Hall, list_elem_of_here).
  f_equal. apply IH. intros y Hy. apply Hall. now apply list_elem_of_further.
Qed.

Lemma filter_none {A} (P : A -> Prop) `{!forall x, Decision (P x)} (l : list A) :
  (forall x, x ∈ l -> ~ P x) -> filter P l = [].
Proof.
  induction l as [|x l IH]; intros Hall; [reflexivity|].
  rewrite filter_cons, decide_False by (apply Hall, list_elem_of_here).
  apply IH. intros y Hy. apply Hall. now apply list_elem_of_further.
Qed.

End ListFacts.

(** ** Writing the link log and reading it back *)

Module RoundTripFacts.
Import AnchorCrawler.

Lemma rstrip_newline : Py.rstrip [Py.LF] = [].
Proof. reflexivity. Qed.

Lemma rstrip_tidy v : tidy v -> Py.rstrip (v ++ [Py.LF]) = v.
Proof.
  unfold tidy. destruct (last v) as [c|] eqn:E.
  - apply last_Some in E as [v' ->]. intros Hc.
    rewrite <- app_assoc. cbn [app].
    rewrite PyFacts.rstrip_app_nonspace by exact Hc. now rewrite rstrip_newline.
  - apply last_None in E as ->. intros _. exact rstrip_newline.
Qed.

(** The lines of well-formed records stand for the records, up to the
    white space at the end of the links. *)
Lemma records_of_frames records :
  Forall well_formed records ->
  omap record_of ((fun kv => frame kv.1 kv.2) <$> records) = read_back <$> records.
Proof.
  induction 1 as [|kv records Hkv _ IH]; [reflexivity|].
  destruct Hkv as (_ & _ & Hk & _).
  rewrite !fmap_cons.
  change (omap record_of (frame kv.1 kv.2 :: ((fun kv => frame kv.1 kv.2) <$> records)))
    with (match record_of (frame kv.1 kv.2) with
          | Some y => y :: omap record_of ((fun kv => frame kv.1 kv.2) <$> records)
          | None => omap record_of ((fun kv => frame kv.1 kv.2) <$> records)
          end).
  now rewrite (LoadFacts.record_of_frame _ _ Hk), IH.
Qed.

Lemma read_back_tidy records :
  Forall (fun kv => tidy kv.2) records -> read_back <$> records = records.
Proof.
  induction 1 as [|[k v] records Hkv _ IH]; [reflexivity|].
  rewrite fmap_cons, IH.
  unfold read_back. cbn [fst snd]. now rewrite (rstrip_tidy v Hkv).
Qed.

(** The reader on a log of well-formed records. *)
Lemma replay_log w d records :
  comment_dir w = Some d ->
  anchor_file w = Some (log_text records) ->
  Forall well_formed records ->
  (replay w).1
  = filter (fun kv => kv.1 ∉ completed_hashes d) (read_back <$> records).
Proof.
  intros Hd Hf Hwf. rewrite (ReaderFacts.replay_listed w d Hd). cbn [fst].
  rewrite Hf. cbn [from_option]. unfold replay_of.
  now rewrite LoadFacts.lines_of_log, records_of_frames.
Qed.

(** The first flush of a session that starts without a log. *)
Lemma first_flush s :
  last_written_key (self s) = None ->
  anchor_file (env s) = None ->
  _save_links_incrementally no_fault s
  = (Ok tt, logged INFO LinksAppended (wrote (links (self s)) [] s))
  /\ anchor_file (env (_save_links_incrementally no_fault s).2)
     = Some (log_text (links (self s))).
Proof.
  intros Hc Hf.
  assert (_save_links_incrementally no_fault s
          = (Ok tt, logged INFO LinksAppended (wrote (links (self s)) [] s))) as Hrun.
  { rewrite FlushFacts.flush_ok; [|done|apply FlushFacts.no_fault_writes].
    now rewrite Hc. }
  split; [exact Hrun|]. rewrite Hrun. cbn. rewrite Hf. cbn. now rewrite app_nil_r.
Qed.

End RoundTripFacts.

(** X2. What a session writes, a reader reads back. When a session that
    starts without a link log flushes a working set of well-formed
    records, one pass of the reader over the log yields these records in
    their order, with the white space at the end of each link taken off,
    except those whose address is completed. When no link ends in white
    space and no address is completed, the pass yields the working set
    itself. *)
Theorem flushed_links_are_read_back (s : AnchorCrawler.state) (d : gmap str str) :
  let working := AnchorCrawler.links (AnchorCrawler.self s) in
  let after := AnchorCrawler.env (AnchorCrawler._save_links_incrementally no_fault s).2 in
  AnchorCrawler.last_written_key (AnchorCrawler.self s) = None ->
  anchor_file (AnchorCrawler.env s) = None ->
  comment_dir (AnchorCrawler.env s) = Some d ->
  Forall well_formed working ->
  (AnchorCrawler.replay after).1
  = filter (fun kv => kv.1 ∉ AnchorCrawler.completed_hashes d) (read_back <$> working)
  /\ (Forall (fun kv => tidy kv.2) working ->
      (forall kv, kv ∈ working -> kv.1 ∉ AnchorCrawler.completed_hashes d) ->
      (AnchorCrawler.replay after).1 = working).
Proof.
  intros working after Hc Hf Hd Hwf.
  destruct (RoundTripFacts.first_flush s Hc Hf) as [Hrun Htext].
  assert ((AnchorCrawler.replay after).1
          = filter (fun kv => kv.1 ∉ AnchorCrawler.completed_hashes d)
              (read_back <$> working)) as Hread.
  { apply RoundTripFacts.replay_log; [|exact Htext|exact Hwf].
    unfold after. rewrite Hrun. exact Hd. }
  split; [exact Hread|].
  intros Htidy Hnone. rewrite Hread, RoundTripFacts.read_back_tidy by exact Htidy.
  apply ListFacts.filter_all. exact Hnone.
Qed.

Lemma flushed_links_are_read_back_witness :
  AnchorCrawler.last_written_key (AnchorCrawler.self sample_session) = None
  /\ anchor_file (AnchorCrawler.env sample_session) = None
  /\ comment_dir (AnchorCrawler.env sample_session) = Some ∅
  /\ Forall well_formed sample_links
  /\ (AnchorCrawler.replay
        (AnchorCrawler.env
           (AnchorCrawler._save_links_incrementally no_fault sample_session).2)).1
     = filter (fun kv => kv.1 ∉ AnchorCrawler.completed_hashes ∅)
         (read_back <$> sample_links).
Proof.
  assert (Forall well_formed sample_links) as Hwf.
  { unfold well_formed. apply (bool_decide_unpack _). vm_compute. exact I. }
  split_and!; [reflexivity|reflexivity|reflexivity|exact Hwf|].
  exact (proj1 (flushed_links_are_read_back sample_session ∅
                  eq_refl eq_refl eq_refl Hwf)).
Defined.

(** ** A session on the log of an earlier one *)

Module RestartFacts.
Import AnchorCrawler.

(** The crawler that the constructor builds on a log of well-formed
    records. *)
Lemma new_on_log max_links batch_size scroll_retries w records kv :
  Forall well_formed records -> last records = Some kv ->
  anchor_file w = Some (log_text records) ->
  new max_links batch_size scroll_retries w
  = {| self := {| AnchorCrawler.max_links := max_links;
                  AnchorCrawler.batch_size := batch_size;
                  AnchorCrawler.scroll_retries := scroll_retries;
                  links := []; last_written_key := Some kv.1 |};
       env := add_log (INFO, LastWrittenKey kv.1) w |}.
Proof.
  intros Hwf Hlast Hf. unfold new.
  now rewrite (LoadFacts.load_log
                 {| self := init max_links batch_size scroll_retries; env := w |}
                 records kv Hwf Hlast Hf).
Qed.

(** A fault-free flush, by what it leaves in the log and in the cursor. *)
Lemma flush_appends s :
  let pending := records_after (last_written_key (self s)) (links (self s)) in
  let after := (_save_links_incrementally no_fault s).2 in
  anchor_file (env after)
  = Some (default [] (anchor_file (env s)) ++ log_text pending)
  /\ last_written_key (self after) = cursor_after (last_written_key (self s)) pending
  /\ links (self after) = links (self s).
Proof.
  intros pending after. unfold after.
  rewrite FlushFacts.flush_ok; [|done|apply FlushFacts.no_fault_writes].
  cbn. now rewrite app_nil_r.
Qed.

End RestartFacts.

(** X3. A crawler constructed on the log of an earlier session starts
    with an empty working set and the cursor on the key of the last line
    of the log. Its flush appends the records that follow this key in
    the links collected anew, and nothing else: as long as the links
    collected anew do not hold the key, a flush leaves the log and the
    cursor as they are; once they do, the records after it are appended,
    whether or not the log already holds them. *)
Theorem restart_appends_after_recovered_key
    (w : world) (records : list (str * str)) (kv : str * str)
    (max_links batch_size scroll_retries : Z) (working : list (str * str)) :
  Forall well_formed records ->
  last records = Some kv ->
  anchor_file w = Some (log_text records) ->
  let s0 := AnchorCrawler.new max_links batch_size scroll_retries w in
  let after :=
    (AnchorCrawler._save_links_incrementally no_fault
       (AnchorCrawler.set_links working s0)).2 in
  AnchorCrawler.links (AnchorCrawler.self s0) = []
  /\ anchor_file (AnchorCrawler.env after)
     = Some (log_text records ++ log_text (records_after (Some kv.1) working))
  /\ (kv.1 ∉ working.*1 ->
      anchor_file (AnchorCrawler.env after) = Some (log_text records)
      /\ AnchorCrawler.last_written_key (AnchorCrawler.self after) = Some kv.1)
  /\ (forall pre v post,
        working = pre ++ (kv.1, v) :: post -> kv.1 ∉ pre.*1 ->
        anchor_file (AnchorCrawler.env after)
        = Some (log_text records ++ log_text post)).
Proof.
  intros Hwf Hlast Hf s0 after.
  assert (s0 = {| AnchorCrawler.self :=
                    {| AnchorCrawler.max_links := max_links;
                       AnchorCrawler.batch_size := batch_size;
                       AnchorCrawler.scroll_retries := scroll_retries;
                       AnchorCrawler.links := [];
                       AnchorCrawler.last_written_key := Some kv.1 |};
                  AnchorCrawler.env := add_log (INFO, LastWrittenKey kv.1) w |}) as Hs0.
  { apply (RestartFacts.new_on_log _ _ _ _ records); assumption. }
  destruct (RestartFacts.flush_appends (AnchorCrawler.set_links working s0))
    as (Htext & Hcur & _).
  fold after in Htext, Hcur. rewrite Hs0 in Htext, Hcur.
  cbn [AnchorCrawler.set_links AnchorCrawler.self AnchorCrawler.env
       AnchorCrawler.links AnchorCrawler.last_written_key add_log anchor_file]
    in Htext, Hcur.
  rewrite Hf in Htext. cbn [default from_option id] in Htext.
  split_and!.
  - now rewrite Hs0.
  - exact Htext.
  - intros Hnone. rewrite Htext, Hcur.
    rewrite (FlushFacts.records_after_missing _ _ Hnone).
    split; [now rewrite app_nil_r|reflexivity].
  - intros pre v post -> Hpre. rewrite Htext.
    now rewrite (FlushFacts.records_after_split pre kv.1 v post Hpre).
Qed.

Lemma restart_appends_after_recovered_key_witness :
  Forall well_formed sample_links
  /\ last sample_links = Some ([99], [104; 51])
  /\ anchor_file sample_disk3 = Some (log_text sample_links)
  /\ anchor_file
       (AnchorCrawler.env
          (AnchorCrawler._save_links_incrementally no_fault
             (AnchorCrawler.set_links sample_new
                (AnchorCrawler.new MAX_LINKS ANCHOR_BATCH_SIZE 5 sample_disk3))).2)
     = Some (log_text sample_links).
Proof.
  assert (Forall well_formed sample_links) as Hwf.
  { unfold well_formed. apply (bool_decide_unpack _). vm_compute. exact I. }
  split_and!; [exact Hwf|reflexivity|reflexivity|].
  destruct (restart_appends_after_recovered_key sample_disk3 sample_links
              ([99], [104; 51]) MAX_LINKS ANCHOR_BATCH_SIZE 5 sample_new
              Hwf eq_refl eq_refl) as (_ & _ & Hstall & _).
  apply Hstall. apply (bool_decide_unpack _). vm_compute. exact I.
Defined.

(** ** A log that ends in an unfinished record *)

Module TornFacts.
Import AnchorCrawler.

(** A text without line break is one line. *)
Lemma lines_from_last cur tail :
  Py.LF ∉ tail -> Py.CR ∉ tail -> tail <> [] ->
  Py.lines_from cur tail = [reverse cur ++ tail].
Proof.
  revert cur; induction tail as [|c tail IH]; intros cur Hlf Hcr Hne; [done|].
  apply not_elem_of_cons in Hlf as [Hc1 Hlf].
  apply not_elem_of_cons in Hcr as [Hc2 Hcr].
  cbn [Py.lines_from].
  destruct (N.eqb_spec c Py.LF) as [->|_]; [done|].
  destruct (N.eqb_spec c Py.CR) as [->|_]; [done|].
  destruct tail as [|c' tail].
  - cbn [Py.lines_from]. now rewrite reverse_cons.
  - rewrite IH by done. rewrite reverse_cons. now rewrite <- app_assoc.
Qed.

(** The lines of a log of well-formed records followed by a text
    without line break. *)
Lemma lines_of_torn_log records tail :
  Forall well_formed records ->
  Py.LF ∉ tail -> Py.CR ∉ tail -> tail <> [] ->
  Py.splitlines_keepends (log_text records ++ tail)
  = ((fun kv => frame kv.1 kv.2) <$> records) ++ [tail].
Proof.
  intros Hwf Hlf Hcr Hne. unfold Py.splitlines_keepends.
  induction Hwf as [|kv records Hkv _ IH].
  - cbn [log_text fmap list_fmap mjoin list_join app].
    now rewrite lines_from_last.
  - change (log_text (kv :: records)) with (frame kv.1 kv.2 ++ log_text records).
    rewrite <- app_assoc, LoadFacts.frame_plain by done.
    rewrite IH. reflexivity.
Qed.

(** The cursor that [_load_last_written_key] sets, by the last line of
    the log. *)
Lemma load_by_last_line s text line :
  anchor_file (env s) = Some text ->
  last (Py.splitlines_keepends text) = Some line ->
  last_written_key (self (_load_last_written_key s).1)
  = match record_of line with
    | Some kv => Some kv.1
    | None => last_written_key (self s)
    end.
Proof.
  intros Hf Hlast. unfold _load_last_written_key. rewrite Hf.
  unfold readlines, open_read. cbn [pending consumed]. rewrite Hlast.
  unfold Py.contains, Py.split1. fold (record_of line).
  destruct (record_of line) as [[k v]|]; reflexivity.
Qed.

(** A record cut short inside its key, and inside its link. *)
Lemma take_frame_key k v n :
  (n <= length k)%nat -> take (Datatypes.S n) (frame k v) = 9246 :: take n k.
Proof.
  intros Hn. unfold frame. change ITEM_SEPARATOR with [9246].
  cbn [app take]. now rewrite take_app_le.
Qed.

Lemma take_frame_link k v m :
  (m <= length v)%nat ->
  take (Datatypes.S (length k + Datatypes.S m)) (frame k v)
  = 9246 :: k ++ 9247 :: take m v.
Proof.
  intros Hm. unfold frame.
  change ITEM_SEPARATOR with [9246]. change KEY_VALUE_SEPARATOR with [9247].
  cbn [app take]. rewrite take_app_add. cbn [take]. now rewrite take_app_le.
Qed.

Lemma length_frame k v :
  length (frame k v) = Datatypes.S (length k + Datatypes.S (length v + 1)).
Proof.
  unfold frame. change ITEM_SEPARATOR with [9246].
  change KEY_VALUE_SEPARATOR with [9247].
  cbn [app length]. rewrite !length_app. cbn [length]. rewrite length_app.
  reflexivity.
Qed.

Lemma not_elem_of_take {A} (x : A) n l : x ∉ l -> x ∉ take n l.
Proof. intros H Hin. apply H. now apply (subseteq_take n l). Qed.

(** A line that holds a key, a separator and some text stands for a
    record under that key. *)
Lemma record_of_open k v' :
  9247 ∉ k -> record_of (9246 :: k ++ 9247 :: v') = Some (k, Py.rstrip v').
Proof.
  intros Hk. unfold record_of, unframe, Py.strip.
  rewrite PyFacts.lstrip_nonspace by done.
  change (9246 :: k ++ 9247 :: v') with ((9246 :: k) ++ 9247 :: v').
  rewrite (PyFacts.rstrip_app_nonspace (9246 :: k) 9247 v') by done.
  change ITEM_SEPARATOR with [9246]. change KEY_VALUE_SEPARATOR with [9247].
  cbn [app Py.startswith length drop]. rewrite N.eqb_refl, PyFacts.startswith_nil.
  cbn [andb]. now apply PyFacts.partition_found.
Qed.

(** What is left of a record whose write failed, when something but not
    all of it was written. *)
Lemma torn_record k v partial :
  well_formed (k, v) ->
  (0 < partial < length (frame k v))%nat ->
  let tail := take partial (frame k v) in
  (Py.LF ∉ tail) /\ (Py.CR ∉ tail) /\ tail <> []
  /\ record_of tail
     = if (partial <=? 1 + length k)%nat then None
       else Some (k, Py.rstrip (take (partial - length k - 2) v)).
Proof.
  intros (H1 & H2 & H3 & H4 & H5) [Hpos Hlt] tail. cbn [fst snd] in *.
  rewrite length_frame in Hlt.
  destruct (Nat.leb_spec partial (1 + length k)) as [Hle|Hgt].
  - assert (tail = 9246 :: take (partial - 1) k) as ->.
    { unfold tail. replace partial with (Datatypes.S (partial - 1)) at 1 by lia.
      apply take_frame_key. lia. }
    split_and!.
    + apply not_elem_of_cons. split; [done|]. now apply not_elem_of_take.
    + apply not_elem_of_cons. split; [done|]. now apply not_elem_of_take.
    + done.
    + apply ReaderFacts.record_of_None.
      apply not_elem_of_cons. split; [done|]. now apply not_elem_of_take.
  - assert (tail = 9246 :: k ++ 9247 :: take (partial - length k - 2) v) as ->.
    { unfold tail.
      replace partial
        with (Datatypes.S (length k + Datatypes.S (partial - length k - 2))) at 1
        by lia.
      apply take_frame_link. lia. }
    split_and!.
    + rewrite not_elem_of_cons, not_elem_of_app, not_elem_of_cons.
      split_and!; [done|done|done|]. now apply not_elem_of_take.
    + rewrite not_elem_of_cons, not_elem_of_app, not_elem_of_cons.
      split_and!; [done|done|done|]. now apply not_elem_of_take.
    + done.
    + now apply record_of_open.
Qed.

End TornFacts.

(** X4. The resume cursor after a torn write. When the last write of an
    earlier session failed after part of a record was written (at least
    one character, and not all of the line), the log ends in a line
    without line break, and the constructor recovers the cursor from
    this line alone: no cursor when the record was cut before its
    [KEY_VALUE_SEPARATOR], however many whole records the log holds
    before it, and the key of the cut record otherwise. *)
Theorem restart_after_torn_write
    (w : world) (records : list (str * str)) (k v : str) (partial : nat)
    (max_links batch_size scroll_retries : Z) :
  Forall well_formed records ->
  well_formed (k, v) ->
  (0 < partial < length (AnchorCrawler.frame k v))%nat ->
  anchor_file w = Some (log_text records ++ take partial (AnchorCrawler.frame k v)) ->
  AnchorCrawler.last_written_key
    (AnchorCrawler.self (AnchorCrawler.new max_links batch_size scroll_retries w))
  = if (partial <=? 1 + length k)%nat then None else Some k.
Proof.
  intros Hwf Hkv Hpartial Hf.
  destruct (TornFacts.torn_record k v partial Hkv Hpartial)
    as (Hlf & Hcr & Hne & Hrec).
  unfold AnchorCrawler.new.
  rewrite (TornFacts.load_by_last_line _
             (log_text records ++ take partial (AnchorCrawler.frame k v))
             (take partial (AnchorCrawler.frame k v))).
  - rewrite Hrec. now destruct (partial <=? 1 + length k)%nat.
  - exact Hf.
  - rewrite TornFacts.lines_of_torn_log by done. apply last_snoc.
Qed.

Lemma restart_after_torn_write_witness :
  Forall well_formed sample_links
  /\ well_formed ([100], [104; 52])
  /\ (0 < 2 < length (AnchorCrawler.frame [100%N] [104%N; 52%N]))%nat
  /\ AnchorCrawler.last_written_key
       (AnchorCrawler.self
          (AnchorCrawler.new MAX_LINKS ANCHOR_BATCH_SIZE 5
             (set_anchor_file
                (Some (log_text sample_links
                       ++ take 2 (AnchorCrawler.frame [100] [104; 52])))
                sample_world)))
     = None.
Proof.
  assert (Forall well_formed sample_links) as Hwf.
  { unfold well_formed. apply (bool_decide_unpack _). vm_compute. exact I. }
  assert (well_formed ([100], [104; 52])) as Hkv.
  { unfold well_formed. apply (bool_decide_unpack _). vm_compute. exact I. }
  assert (0 < 2 < length (AnchorCrawler.frame [100%N] [104%N; 52%N]))%nat as Hp.
  { vm_compute. lia. }
  refine (conj Hwf (conj Hkv (conj Hp _))).
  exact (restart_after_torn_write
           (set_anchor_file
              (Some (log_text sample_links
                     ++ take 2 (AnchorCrawler.frame [100] [104; 52])))
              sample_world)
           sample_links [100] [104; 52] 2 MAX_LINKS ANCHOR_BATCH_SIZE 5
           Hwf Hkv Hp eq_refl).
Defined.

(** ** Saving under any fault of the disk *)

Module AppendFacts.

(** Either the first [n] writes are all taken, or one of them is the
    first to fail. *)
Lemma first_failure io n :
  (forall k, (k < n)%nat -> write_result io k = Written)
  \/ exists j partial,
       (j < n)%nat
       /\ (forall k, (k < j)%nat -> write_result io k = Written)
       /\ write_result io j = WriteFailed partial.
Proof.
  induction n as [|n [Hall|(j & partial & Hj & Hbefore & Hfail)]].
  - left. lia.
  - destruct (write_result io n) as [|partial] eqn:E.
    + left. intros k Hk. destruct (decide (k = n)) as [->|]; [exact E|].
      apply Hall. lia.
    + right. exists n, partial. split_and!; [lia|exact Hall|exact E].
  - right. exists j, partial. split_and!; [lia|exact Hbefore|exact Hfail].
Qed.

(** Every flush is one of three: the log cannot be opened; every record
    after the cursor is written; the records before the first failing
    write are written, and part of the next. *)
Lemma flush_shape io s :
  let pending :=
    records_after (AnchorCrawler.last_written_key (AnchorCrawler.self s))
      (AnchorCrawler.links (AnchorCrawler.self s)) in
  AnchorCrawler._save_links_incrementally io s
  = (Ok tt, logged ERROR (SaveLinksFailed OSError) s)
  \/ exists j extra lv m,
       (j <= length pending)%nat
       /\ AnchorCrawler._save_links_incrementally io s
          = (Ok tt, logged lv m (wrote (take j pending) extra s)).
Proof.
  intros pending. destruct (open_ok io) eqn:Hopen.
  - right. destruct (first_failure io (length pending))
      as [Hall|(j & partial & Hj & Hbefore & Hfail)].
    + exists (length pending), [], INFO, LinksAppended. split; [lia|].
      rewrite firstn_all. now apply FlushFacts.flush_ok.
    + destruct (lookup_lt_is_Some_2 pending j Hj) as [kv Hkv].
      exists j, (take partial (AnchorCrawler.frame kv.1 kv.2)), ERROR,
        (SaveLinksFailed OSError).
      split; [lia|]. now apply FlushFacts.flush_write_failed.
  - left. now apply FlushFacts.flush_open_failed.
Qed.

(** The same for a save of comments. *)
Lemma save_shape io name cs w :
  CommentCrawler._save_comments io name cs w
  = (Ok tt, add_log (ERROR, SaveCommentsFailed name OSError) w)
  \/ exists d j extra lv m,
       comment_dir w = Some d
       /\ (j <= length cs)%nat
       /\ CommentCrawler._save_comments io name cs w
          = (Ok tt, add_log (lv, m)
                      (CommentCrawler.set_file name
                         (default [] (d !! name) ++ comment_text (take j cs) ++ extra)
                         w)).
Proof.
  destruct (comment_dir w) as [d|] eqn:Hd.
  - destruct (open_ok io) eqn:Hopen.
    + right. exists d.
      assert (comment_dir (CommentCrawler.set_file name (default [] (d !! name)) w)
              = Some (<[name := default [] (d !! name)]> d)) as Hd'
        by (now apply SaveFacts.comment_dir_set_file).
      assert (CommentCrawler.file_at name
                (CommentCrawler.set_file name (default [] (d !! name)) w)
              = Some (default [] (d !! name))) as Hf'
        by (now apply (SaveFacts.file_at_set_file _ _ _ d)).
      rewrite (SaveFacts.save_comments_opened io name cs w d Hd Hopen).
      destruct (first_failure io (length cs))
        as [Hall|(j & partial & Hj & Hbefore & Hfail)].
      * exists (length cs), [], INFO, (CommentsAppended (length cs) name).
        split; [reflexivity|]. split; [lia|].
        rewrite (SaveFacts.write_comments_written io name 0 cs _ _ _ Hd' Hf')
          by exact Hall.
        now rewrite SaveFacts.set_file_twice, firstn_all, app_nil_r.
      * destruct (lookup_lt_is_Some_2 cs j Hj) as [c Hc].
        exists j, (take partial (c ++ [Py.LF])), ERROR,
          (SaveCommentsFailed name OSError).
        split; [reflexivity|]. split; [lia|].
        rewrite (SaveFacts.write_comments_failed io name 0 cs _ _ _ j c partial
                   Hd' Hf' Hc) by (exact Hbefore || exact Hfail).
        now rewrite SaveFacts.set_file_twice.
    + left. unfold CommentCrawler._save_comments, try_except, bind, open_append.
      now rewrite Hd, Hopen.
  - left. unfold CommentCrawler._save_comments, try_except, bind.
    now rewrite Hd.
Qed.

(** A file other than the one written is left as it is. *)
Lemma file_at_set_other name other text w :
  other <> name ->
  CommentCrawler.file_at other (CommentCrawler.set_file name text w)
  = CommentCrawler.file_at other w.
Proof.
  intros Hne. unfold CommentCrawler.file_at, CommentCrawler.set_file, set_comment_dir.
  cbn [comment_dir]. destruct (comment_dir w) as [d|]; [|reflexivity].
  cbn [fmap option_fmap option_map mbind option_bind].
  now apply lookup_insert_ne.
Qed.

End AppendFacts.

(** X6. A flush of the link store never raises, whatever the disk does:
    it returns normally and logs one record. It never changes the
    working set or the directory of comments, it never removes or
    rewrites what the log holds (the old text stays at the start of the
    new one, and a log that exists goes on existing), and it leaves the
    cursor where it was or on the key of a record of the working set. *)
Theorem flush_never_raises_and_only_appends
    (io : io_plan) (s : AnchorCrawler.state) :
  let r := AnchorCrawler._save_links_incrementally io s in
  r.1 = Ok tt
  /\ AnchorCrawler.links (AnchorCrawler.self r.2)
     = AnchorCrawler.links (AnchorCrawler.self s)
  /\ (exists extra,
        default [] (anchor_file (AnchorCrawler.env r.2))
        = default [] (anchor_file (AnchorCrawler.env s)) ++ extra)
  /\ (is_Some (anchor_file (AnchorCrawler.env s)) ->
      is_Some (anchor_file (AnchorCrawler.env r.2)))
  /\ comment_dir (AnchorCrawler.env r.2) = comment_dir (AnchorCrawler.env s)
  /\ (exists rec, log (AnchorCrawler.env r.2) = log (AnchorCrawler.env s) ++ [rec])
  /\ (AnchorCrawler.last_written_key (AnchorCrawler.self r.2)
      = AnchorCrawler.last_written_key (AnchorCrawler.self s)
      \/ exists kv,
           kv ∈ AnchorCrawler.links (AnchorCrawler.self s)
           /\ AnchorCrawler.last_written_key (AnchorCrawler.self r.2) = Some kv.1).
Proof.
  intros r. unfold r.
  destruct (AppendFacts.flush_shape io s) as [->|(j & extra & lv & m & Hj & ->)].
  - cbn. split_and!; try done.
    + exists []. now rewrite app_nil_r.
    + now eexists.
    + now left.
  - cbn. split_and!; try done.
    + now eexists.
    + now eexists.
    + set (pending := records_after _ _) in *.
      unfold cursor_after. destruct (last (take j pending)) as [kv|] eqn:Hlast.
      * right. exists kv. split; [|reflexivity].
        apply last_Some_elem_of in Hlast. apply (subseteq_take j) in Hlast.
        destruct (FlushFacts.records_after_suffix
                    (AnchorCrawler.last_written_key (AnchorCrawler.self s))
                    (AnchorCrawler.links (AnchorCrawler.self s))) as [n Hn].
        fold pending in Hn. rewrite Hn in Hlast.
        now apply (subseteq_drop n) in Hlast.
      * now left.
Qed.

(** X7. A save of comments never raises, whatever the disk does: it
    returns normally and logs one record. It touches neither the link
    log nor any other comment file, and what the file held stays at the
    start of what it holds afterwards. When the directory of comments
    is missing, the save does not make it. *)
Theorem save_comments_never_raises_and_only_appends
    (io : io_plan) (file_name : str) (comments : list str) (w : world) :
  let r := CommentCrawler._save_comments io file_name comments w in
  r.1 = Ok tt
  /\ anchor_file r.2 = anchor_file w
  /\ events r.2 = events w
  /\ (exists rec, log r.2 = log w ++ [rec])
  /\ (forall other, other <> file_name ->
        CommentCrawler.file_at other r.2 = CommentCrawler.file_at other w)
  /\ (exists extra,
        default [] (CommentCrawler.file_at file_name r.2)
        = default [] (CommentCrawler.file_at file_name w) ++ extra)
  /\ (comment_dir w = None -> comment_dir r.2 = None).
Proof.
  intros r. unfold r.
  destruct (AppendFacts.save_shape io file_name comments w)
    as [->|(d & j & extra & lv & m & Hd & Hj & ->)].
  - cbn. split_and!; try done.
    + now eexists.
    + exists []. now rewrite app_nil_r.
  - cbn [fst snd]. split_and!; try done.
    + now eexists.
    + intros other Hne.
      change (CommentCrawler.file_at other (add_log (lv, m) ?w'))
        with (CommentCrawler.file_at other w').
      now apply AppendFacts.file_at_set_other.
    + eexists.
      change (CommentCrawler.file_at file_name (add_log (lv, m) ?w'))
        with (CommentCrawler.file_at file_name w').
      rewrite (SaveFacts.file_at_set_file _ _ _ d Hd).
      unfold CommentCrawler.file_at. rewrite Hd. cbn. reflexivity.
    + intros Hnone. congruence.
Qed.

(** ** A session of the link crawler *)

Module SessionFacts.
Import AnchorCrawler.

Lemma set_links_same s : set_links (links (self s)) s = s.
Proof. destruct s as [[]]; reflexivity. Qed.

(** A flush returns normally and leaves the working set and the
    settings as they are. *)
Lemma flush_returns io s : (_save_links_incrementally io s).1 = Ok tt.
Proof.
  destruct (AppendFacts.flush_shape io s) as [->|(j & extra & lv & m & _ & ->)];
    reflexivity.
Qed.

Lemma flush_self io s :
  let s' := (_save_links_incrementally io s).2 in
  links (self s') = links (self s)
  /\ max_links (self s') = max_links (self s)
  /\ batch_size (self s') = batch_size (self s)
  /\ scroll_retries (self s') = scroll_retries (self s).
Proof.
  destruct (AppendFacts.flush_shape io s) as [->|(j & extra & lv & m & _ & ->)];
    done.
Qed.

Section Rounds.
Variable urljoin : str -> str -> str.
Variable md5_hexdigest : str -> str.
Variable target_url : str.

Local Abbreviation record := (record_for urljoin md5_hexdigest target_url).
Local Abbreviation collect := (collect urljoin md5_hexdigest target_url).
Local Abbreviation scroll_body := (scroll_body urljoin md5_hexdigest target_url).
Local Abbreviation scroll_loop := (scroll_loop urljoin md5_hexdigest target_url).

(** What [collect] does to the working set: it adds, at the end, the
    record of each link of the page whose key is new, up to the first
    element whose attribute cannot be read. *)
Lemma collect_spec els s :
  exists added,
    (collect els s).2 = set_links (links (self s) ++ added) s
    /\ Forall (fun kv => exists l, l <> [] /\ Ok (Some l) ∈ els /\ kv = record l) added
    /\ (NoDup (links (self s)).*1 -> NoDup (links (self s) ++ added).*1)
    /\ ((collect els s).1 = Ok tt ->
        forall l, l <> [] -> Ok (Some l) ∈ els ->
                  (record l).1 ∈ (links (self s) ++ added).*1).
Proof.
  revert s. induction els as [|element rest IH]; intros s.
  - exists []. rewrite app_nil_r. split_and!.
    + symmetry. apply set_links_same.
    + constructor.
    + done.
    + intros _ l _ Hin. now apply elem_of_nil in Hin.
  - assert (AnchorCrawler.collect urljoin md5_hexdigest target_url
                (element :: rest) s = collect rest s ->
            (forall l, l <> [] -> Ok (Some l) ≠ element) ->
              exists added,
                (collect (element :: rest) s).2 = set_links (links (self s) ++ added) s
                /\ Forall (fun kv => exists l, l <> [] /\ Ok (Some l) ∈ element :: rest
                                              /\ kv = record l) added
                /\ (NoDup (links (self s)).*1 -> NoDup (links (self s) ++ added).*1)
                /\ ((collect (element :: rest) s).1 = Ok tt ->
                    forall l, l <> [] -> Ok (Some l) ∈ element :: rest ->
                              (record l).1 ∈ (links (self s) ++ added).*1)) as Hskip.
    { intros Heq Hnot. destruct (IH s) as (added & Hs & Hfrom & Hnd & Hall).
      exists added. rewrite Heq. split_and!; [exact Hs| |exact Hnd|].
      - eapply Forall_impl; [exact Hfrom|]. intros kv (l & Hl & Hin & ->).
        exists l. split_and!; [done| |done]. now apply list_elem_of_further.
      - intros Hok l Hl Hin. apply elem_of_cons in Hin as [Hin|Hin].
        + now destruct (Hnot l Hl).
        + now apply Hall. }
    destruct element as [[[|c l]|]|e].
    + apply Hskip; [reflexivity|]. intros l Hl Heq.
      injection Heq as ->. done.
    + destruct (decide ((record (c :: l)).1 ∈ (links (self s)).*1)) as [Hin|Hnew].
      * destruct (IH s) as (added & Hs & Hfrom & Hnd & Hall).
        exists added. rewrite (ScrollFacts.collect_known _ _ _ c l rest s Hin).
        split_and!; [exact Hs| |exact Hnd|].
        -- eapply Forall_impl; [exact Hfrom|]. intros kv (l' & Hl & Hin' & ->).
           exists l'. split_and!; [done| |done]. now apply list_elem_of_further.
        -- intros Hok l' Hl Hin'. apply elem_of_cons in Hin' as [Heq|Hin'].
           ++ injection Heq as ->. rewrite fmap_app. apply elem_of_app. now left.
           ++ now apply Hall.
      * rewrite (ScrollFacts.collect_fresh _ _ _ c l rest s Hnew).
        destruct (IH (set_links (links (self s) ++ [record (c :: l)]) s))
          as (added & Hs & Hfrom & Hnd & Hall).
        cbn [set_links self links] in Hs, Hnd, Hall.
        rewrite <- app_assoc in Hs, Hnd, Hall. cbn [app] in Hs, Hnd, Hall.
        exists (record (c :: l) :: added). split_and!.
        -- exact Hs.
        -- constructor.
           ++ exists (c :: l). split_and!; [done|apply list_elem_of_here|done].
           ++ eapply Forall_impl; [exact Hfrom|]. intros kv (l' & Hl & Hin' & ->).
              exists l'. split_and!; [done| |done]. now apply list_elem_of_further.
        -- intros Hnds. apply Hnd. rewrite fmap_app. apply NoDup_app.
           split_and!; [exact Hnds| |apply NoDup_singleton].
           intros k Hk Hk'. apply list_elem_of_singleton in Hk'. now subst k.
        -- intros Hok l' Hl Hin'. apply elem_of_cons in Hin' as [Heq|Hin'].
           ++ injection Heq as ->. rewrite fmap_app, fmap_cons.
              apply elem_of_app. right. apply list_elem_of_here.
           ++ now apply Hall.
    + apply Hskip; [reflexivity|]. intros l Hl Heq. done.
    + exists []. rewrite app_nil_r. split_and!.
      * symmetry. apply set_links_same.
      * constructor.
      * done.
      * intros Hok. done.
Qed.

(** One round of the scroll loop, with the flush resolved: a flush
    returns normally. *)
Lemma scroll_body_eq v prev retries s :
  scroll_body v prev retries s
  = match scrolled v with
    | Raise e => (Raise e, s)
    | Ok _ =>
        match hrefs v with
        | Raise e => (Raise e, s)
        | Ok els =>
            match collect els s with
            | (Raise e, c) => (Raise e, c)
            | (Ok _, c) =>
                if (batch_size (self c) =? 0)%Z then (Raise ZeroDivisionError, c)
                else
                  let f :=
                    if (Z.of_nat (length (links (self c))) mod batch_size (self c) =? 0)%Z
                    then (_save_links_incrementally (disk v) c).2 else c in
                  match height v with
                  | Raise e => (Raise e, f)
                  | Ok h =>
                      if (h =? prev)%Z then
                        if (retries + 1 >=? scroll_retries (self c))%Z
                        then (Ok (false, prev, (retries + 1)%Z),
                              logged WARNING TooManyScrollRetries f)
                        else (Ok (true, h, (retries + 1)%Z), f)
                      else (Ok (true, h, 0%Z), f)
                  end
            end
        end
    end.
Proof.
  unfold AnchorCrawler.scroll_body.
  unfold bind at 1, lift at 1. destruct (scrolled v) as [[]|e]; [|reflexivity].
  unfold bind at 1, lift at 1. destruct (hrefs v) as [els|e]; [|reflexivity].
  unfold bind at 1. destruct (collect els s) as [[[]|e] c]; [|reflexivity].
  unfold bind at 1, get at 1. unfold bind at 1, py_mod.
  destruct (batch_size (self c) =? 0)%Z; [reflexivity|]. unfold ret at 1.
  unfold bind at 1.
  destruct (Z.of_nat (length (links (self c))) mod batch_size (self c) =? 0)%Z.
  - pose proof (flush_returns (disk v) c) as Hret.
    destruct (_save_links_incrementally (disk v) c) as [[[]|e] f]; [|done].
    cbn [snd]. unfold bind at 1, lift at 1.
    destruct (height v) as [h|e]; [|reflexivity].
    destruct (h =? prev)%Z; [|reflexivity].
    destruct (retries + 1 >=? scroll_retries (self c))%Z; reflexivity.
  - unfold ret at 1. unfold bind at 1, lift at 1.
    destruct (height v) as [h|e]; [|reflexivity].
    destruct (h =? prev)%Z; [|reflexivity].
    destruct (retries + 1 >=? scroll_retries (self c))%Z; reflexivity.
Qed.

(** What holds of the crawler before a round, and is kept by [collect],
    by a flush and by logging, holds after the round. *)
Lemma scroll_body_inv (P : state -> Prop) v prev retries s :
  (forall els s, P s -> P (collect els s).2) ->
  (forall s, P s -> P (_save_links_incrementally (disk v) s).2) ->
  (forall lv m s, P s -> P (logged lv m s)) ->
  P s -> P (scroll_body v prev retries s).2.
Proof.
  intros Hc Hf Hl Hs. rewrite scroll_body_eq.
  destruct (scrolled v) as [[]|e]; [|exact Hs].
  destruct (hrefs v) as [els|e]; [|exact Hs].
  specialize (Hc els s Hs). destruct (collect els s) as [[[]|e] c]; [|exact Hc].
  cbn [snd] in Hc.
  destruct (batch_size (self c) =? 0)%Z; [exact Hc|].
  assert (P (if (Z.of_nat (length (links (self c))) mod batch_size (self c) =? 0)%Z
             then (_save_links_incrementally (disk v) c).2 else c)) as Hflushed.
  { destruct (_ =? 0)%Z; [now apply Hf|exact Hc]. }
  cbv zeta. destruct (height v) as [h|e]; [|exact Hflushed].
  destruct (h =? prev)%Z; [|exact Hflushed].
  destruct (retries + 1 >=? scroll_retries (self c))%Z; [|exact Hflushed].
  now apply Hl.
Qed.

Lemma scroll_loop_inv (P : state -> Prop) fuel page i prev retries s s' :
  (forall i prev retries s, P s -> P (scroll_body (page i) prev retries s).2) ->
  (forall lv m s, P s -> P (logged lv m s)) ->
  P s -> scroll_loop fuel page i prev retries s = Some s' -> P s'.
Proof.
  intros Hb Hl. revert i prev retries s.
  induction fuel as [|fuel IH]; intros i prev retries s Hs Hrun.
  - cbn [AnchorCrawler.scroll_loop] in Hrun.
    destruct (_ <? _)%Z; [done|]. now injection Hrun as <-.
  - cbn [AnchorCrawler.scroll_loop] in Hrun.
    destruct (_ <? _)%Z; [|now injection Hrun as <-].
    specialize (Hb i prev retries s Hs).
    destruct (scroll_body (page i) prev retries s) as [[[[[] p'] r']|e] s1];
      cbn [snd] in Hb.
    + now apply (IH (Datatypes.S i) p' r' s1).
    + now injection Hrun as <-.
    + injection Hrun as <-. now apply (Hl ERROR).
Qed.

Lemma start_crawling_inv (P : state -> Prop) fuel goto page final s s' :
  (forall i prev retries s, P s -> P (scroll_body (page i) prev retries s).2) ->
  (forall s, P s -> P (_save_links_incrementally final s).2) ->
  (forall lv m s, P s -> P (logged lv m s)) ->
  P s ->
  start_crawling urljoin md5_hexdigest target_url fuel goto page final s = Some s' ->
  P s'.
Proof.
  intros Hb Hf Hl Hs. unfold start_crawling, scroll_and_collect_links.
  unfold bind, lift. cbn [on_world emit modify fst snd].
  assert (P (logged INFO GoingTo s)) as Hgo by (now apply Hl).
  destruct goto as [[]|e]; intros Hrun.
  - destruct (scroll_loop fuel page 0 0%Z 0%Z _) as [s1|] eqn:Hloop; [|done].
    cbn [mbind option_bind] in Hrun. injection Hrun as <-.
    apply Hf. eapply scroll_loop_inv; [exact Hb|exact Hl|exact Hgo|exact Hloop].
  - injection Hrun as <-. apply Hf.
    exact (Hl ERROR (CrawlFailed e) _ Hgo).
Qed.

(** The working set after a round is the one [collect] leaves. *)
Lemma scroll_body_links v prev retries s :
  links (self (scroll_body v prev retries s).2)
  = match scrolled v, hrefs v with
    | Ok _, Ok els => links (self (collect els s).2)
    | _, _ => links (self s)
    end.
Proof.
  rewrite scroll_body_eq.
  destruct (scrolled v) as [[]|e]; [|reflexivity].
  destruct (hrefs v) as [els|e]; [|reflexivity].
  destruct (collect els s) as [[[]|e] c]; [|reflexivity]. cbn [snd].
  destruct (batch_size (self c) =? 0)%Z; [reflexivity|].
  assert (links (self (if (Z.of_nat (length (links (self c))) mod batch_size (self c)
                           =? 0)%Z
                       then (_save_links_incrementally (disk v) c).2 else c))
          = links (self c)) as Hflushed.
  { destruct (_ =? 0)%Z; [apply flush_self|reflexivity]. }
  cbv zeta. destruct (height v) as [h|e]; [|exact Hflushed].
  destruct (h =? prev)%Z; [|exact Hflushed].
  destruct (retries + 1 >=? scroll_retries (self c))%Z; exact Hflushed.
Qed.

(** A round that returns normally has read every element. *)
Lemma scroll_body_ok v prev retries s b :
  (scroll_body v prev retries s).1 = Ok b ->
  exists els, scrolled v = Ok tt /\ hrefs v = Ok els /\ (collect els s).1 = Ok tt.
Proof.
  rewrite scroll_body_eq.
  destruct (scrolled v) as [[]|e]; [|done].
  destruct (hrefs v) as [els|e]; [|done].
  destruct (collect els s) as [[[]|e] c] eqn:E; [|done]. intros _.
  exists els. now rewrite E.
Qed.

Lemma grown_same old s s' :
  links (self s') = links (self s) ->
  grown urljoin md5_hexdigest target_url old s ->
  grown urljoin md5_hexdigest target_url old s'.
Proof. unfold grown. now intros ->. Qed.

Lemma grown_collect old els s :
  grown urljoin md5_hexdigest target_url old s ->
  grown urljoin md5_hexdigest target_url old (collect els s).2.
Proof.
  intros (Hnd & Hpre & Hfrom).
  destruct (collect_spec els s) as (added & -> & Hadded & Hnd' & _).
  unfold grown. cbn [set_links self links]. split_and!.
  - now apply Hnd'.
  - now apply prefix_app_r.
  - intros kv [Hin|Hin]%elem_of_app; [now apply Hfrom|].
    right. rewrite Forall_forall in Hadded.
    destruct (Hadded kv Hin) as (l & Hl & _ & ->). now exists l.
Qed.

Lemma grown_round old v prev retries s :
  grown urljoin md5_hexdigest target_url old s ->
  grown urljoin md5_hexdigest target_url old (scroll_body v prev retries s).2.
Proof.
  apply scroll_body_inv.
  - intros els s1. apply grown_collect.
  - intros s1. apply grown_same, flush_self.
  - intros lv m s1. now apply grown_same.
Qed.

End Rounds.

End SessionFacts.

(** X8. The working set under the scroll loop. A round adds records at
    the end of the working set and changes none: each added record is
    the record of a link that the page shows in this round, under the
    hash of the link, and no key comes to stand twice. When the round
    returns normally, every link that the page shows is in the working
    set under its hash. The same holds of a whole session: whenever
    [start_crawling] ends, the working set extends the one it started
    from by records of links, under distinct keys. *)
Theorem working_set_grows_under_distinct_keys
    (urljoin : str -> str -> str) (md5_hexdigest : str -> str) (target_url : str)
    (s : AnchorCrawler.state) :
  let record := record_for urljoin md5_hexdigest target_url in
  let old := AnchorCrawler.links (AnchorCrawler.self s) in
  NoDup old.*1 ->
  (forall v prev retries,
     let r := AnchorCrawler.scroll_body urljoin md5_hexdigest target_url
                v prev retries s in
     let new := AnchorCrawler.links (AnchorCrawler.self r.2) in
     NoDup new.*1
     /\ old `prefix_of` new
     /\ (forall kv, kv ∈ new ->
           kv ∈ old
           \/ exists els l,
                AnchorCrawler.hrefs v = Ok els /\ Ok (Some l) ∈ els
                /\ l <> [] /\ kv = record l)
     /\ (forall b els l,
           r.1 = Ok b -> AnchorCrawler.hrefs v = Ok els -> Ok (Some l) ∈ els ->
           l <> [] -> (record l).1 ∈ new.*1))
  /\ (forall fuel goto page final s',
        AnchorCrawler.start_crawling urljoin md5_hexdigest target_url
          fuel goto page final s = Some s' ->
        let new := AnchorCrawler.links (AnchorCrawler.self s') in
        NoDup new.*1
        /\ old `prefix_of` new
        /\ (forall kv, kv ∈ new -> kv ∈ old \/ exists l, l <> [] /\ kv = record l)).
Proof.
  intros record old Hnd. split.
  - intros v prev retries r new. unfold new, r.
    rewrite SessionFacts.scroll_body_links.
    pose proof (SessionFacts.scroll_body_ok urljoin md5_hexdigest target_url
                  v prev retries s) as Hok.
    destruct (AnchorCrawler.scrolled v) as [[]|e] eqn:Hscrolled.
    + destruct (AnchorCrawler.hrefs v) as [els|e] eqn:Hhrefs.
      * destruct (SessionFacts.collect_spec urljoin md5_hexdigest target_url els s)
          as (added & Hs & Hadded & Hnd' & Hall).
        rewrite Hs. cbn [AnchorCrawler.set_links AnchorCrawler.self AnchorCrawler.links].
        fold old. split_and!.
        -- now apply Hnd'.
        -- now apply prefix_app_r.
        -- intros kv [Hin|Hin]%elem_of_app; [now left|]. right.
           rewrite Forall_forall in Hadded.
           destruct (Hadded kv Hin) as (l & Hl & Hin' & ->). now exists els, l.
        -- intros b els' l Hb Hels Hin Hl. injection Hels as <-.
           destruct (Hok b Hb) as (els' & _ & Hels' & Hcollected).
           injection Hels' as <-. now apply Hall.
      * split_and!; [exact Hnd|done|now left|].
        intros b els l Hb. now destruct (Hok b Hb) as (els' & _ & Hels' & _).
    + split_and!; [exact Hnd|done|now left|].
      intros b els l Hb. now destruct (Hok b Hb) as (els' & Hsc' & _).
  - intros fuel goto page final s' Hrun new.
    assert (grown urljoin md5_hexdigest target_url old s) as Hstart.
    { unfold grown. split_and!; [exact Hnd|done|now left]. }
    apply (SessionFacts.start_crawling_inv urljoin md5_hexdigest target_url
             (grown urljoin md5_hexdigest target_url old)
             fuel goto page final s s'); [| | |exact Hstart|exact Hrun].
    + intros i prev retries s1. apply SessionFacts.grown_round.
    + intros s1. apply SessionFacts.grown_same, SessionFacts.flush_self.
    + intros lv m s1. now apply SessionFacts.grown_same.
Qed.

Lemma working_set_grows_under_distinct_keys_witness :
  NoDup (AnchorCrawler.links (AnchorCrawler.self eager_crawler)).*1
  /\ NoDup (AnchorCrawler.links
              (AnchorCrawler.self
                 (AnchorCrawler.scroll_body (fun _ l => l) (fun l => l) []
                    small_feed 0 0 eager_crawler).2)).*1.
Proof.
  assert (NoDup (AnchorCrawler.links (AnchorCrawler.self eager_crawler)).*1) as Hnd
    by constructor.
  split; [exact Hnd|].
  exact (proj1 (proj1 (working_set_grows_under_distinct_keys
                         (fun _ l => l) (fun l => l) [] eager_crawler Hnd)
                  small_feed 0%Z 0%Z)).
Defined.

(** ** The log in step with the working set *)

Module StepFacts.
Import AnchorCrawler.

Lemma cursor_after_app c a b :
  cursor_after (cursor_after c a) b = cursor_after c (a ++ b).
Proof.
  unfold cursor_after. rewrite last_app.
  destruct (last b); [reflexivity|]. now destruct (last a).
Qed.

(** A record added at the end of the working set leaves the log in
    step. *)
Lemma synced_added added s :
  synced s -> synced (set_links (links (self s) ++ added) s).
Proof.
  intros (n & Hn & Htext & Hcur). exists n.
  cbn [set_links self env links last_written_key].
  rewrite take_app_le by exact Hn. split_and!; [|exact Htext|exact Hcur].
  rewrite length_app. lia.
Qed.

(** After a flush on a disk without fault the log holds the working
    set. *)
Lemma synced_flush s :
  NoDup (links (self s)).*1 -> synced s ->
  let s1 := (_save_links_incrementally no_fault s).2 in
  anchor_file (env s1) = Some (log_text (links (self s)))
  /\ last_written_key (self s1) = cursor_after None (links (self s))
  /\ links (self s1) = links (self s).
Proof.
  intros Hnd (n & Hn & Htext & Hcur) s1.
  destruct (RestartFacts.flush_appends s) as (Hfile & Hcursor & Hlinks).
  fold s1 in Hfile, Hcursor, Hlinks.
  assert (records_after (last_written_key (self s)) (links (self s))
          = drop n (links (self s))) as Hpending.
  { rewrite Hcur. now apply FlushFacts.records_after_prefix. }
  rewrite Hpending in Hfile, Hcursor. split_and!; [| |exact Hlinks].
  - rewrite Hfile, Htext. now rewrite <- FlushFacts.log_text_app, take_drop.
  - rewrite Hcursor, Hcur, cursor_after_app. now rewrite take_drop.
Qed.

Lemma in_step_synced s :
  anchor_file (env s) = Some (log_text (links (self s))) ->
  last_written_key (self s) = cursor_after None (links (self s)) ->
  synced s.
Proof.
  intros Htext Hcur. exists (length (links (self s))).
  rewrite firstn_all. split_and!; [lia|now rewrite Htext|exact Hcur].
Qed.

Section Rounds.
Variable urljoin : str -> str -> str.
Variable md5_hexdigest : str -> str.
Variable target_url : str.

(** What a session on disks without fault keeps: distinct keys, and the
    log in step. *)
Local Abbreviation kept := (fun s => NoDup (links (self s)).*1 /\ synced s).

Lemma kept_collect els s :
  kept s -> kept (collect urljoin md5_hexdigest target_url els s).2.
Proof.
  intros [Hnd Hsynced].
  destruct (SessionFacts.collect_spec urljoin md5_hexdigest target_url els s)
    as (added & -> & _ & Hnd' & _).
  split; [now apply Hnd'|now apply synced_added].
Qed.

Lemma kept_flush s : kept s -> kept (_save_links_incrementally no_fault s).2.
Proof.
  intros [Hnd Hsynced].
  destruct (synced_flush s Hnd Hsynced) as (Htext & Hcur & Hlinks).
  split; [now rewrite Hlinks|]. apply in_step_synced; now rewrite Hlinks.
Qed.

Lemma kept_logged lv m s : kept s -> kept (logged lv m s).
Proof. intros [Hnd Hsynced]. split; [exact Hnd|exact Hsynced]. Qed.

Lemma kept_round v prev retries s :
  disk v = no_fault ->
  kept s -> kept (scroll_body urljoin md5_hexdigest target_url v prev retries s).2.
Proof.
  intros Hdisk.
  apply (SessionFacts.scroll_body_inv urljoin md5_hexdigest target_url kept).
  - apply kept_collect.
  - rewrite Hdisk. apply kept_flush.
  - apply kept_logged.
Qed.

End Rounds.

End StepFacts.

(** X9. A session on disks without fault keeps the log in step with the
    working set. When the working set holds no key twice and the log
    holds its first records, with the cursor on the last of them (as
    for a crawler that starts without a log), then the same is true
    after every round of the scroll loop, and whenever [start_crawling]
    ends, the log holds exactly the working set: each record once, in
    the order in which the links were collected. *)
Theorem fault_free_session_leaves_log_in_step
    (urljoin : str -> str -> str) (md5_hexdigest : str -> str) (target_url : str)
    (s : AnchorCrawler.state) :
  NoDup (AnchorCrawler.links (AnchorCrawler.self s)).*1 ->
  synced s ->
  (forall v prev retries,
     AnchorCrawler.disk v = no_fault ->
     synced (AnchorCrawler.scroll_body urljoin md5_hexdigest target_url
               v prev retries s).2)
  /\ (forall fuel goto page s',
        (forall i, AnchorCrawler.disk (page i) = no_fault) ->
        AnchorCrawler.start_crawling urljoin md5_hexdigest target_url
          fuel goto page no_fault s = Some s' ->
        anchor_file (AnchorCrawler.env s')
        = Some (log_text (AnchorCrawler.links (AnchorCrawler.self s')))
        /\ AnchorCrawler.last_written_key (AnchorCrawler.self s')
           = cursor_after None (AnchorCrawler.links (AnchorCrawler.self s'))
        /\ NoDup (AnchorCrawler.links (AnchorCrawler.self s')).*1).
Proof.
  intros Hnd Hsynced. split.
  - intros v prev retries Hdisk.
    now apply (StepFacts.kept_round urljoin md5_hexdigest target_url
                 v prev retries s Hdisk).
  - intros fuel goto page s' Hdisks Hrun.
    revert Hrun. unfold AnchorCrawler.start_crawling, AnchorCrawler.scroll_and_collect_links.
    unfold bind, lift. cbn [AnchorCrawler.on_world emit modify fst snd].
    assert (NoDup (AnchorCrawler.links (AnchorCrawler.self (logged INFO GoingTo s))).*1
            /\ synced (logged INFO GoingTo s)) as Hgo
      by (now apply StepFacts.kept_logged).
    assert (forall s1,
              NoDup (AnchorCrawler.links (AnchorCrawler.self s1)).*1 /\ synced s1 ->
              let s2 := (AnchorCrawler._save_links_incrementally no_fault s1).2 in
              anchor_file (AnchorCrawler.env s2)
              = Some (log_text (AnchorCrawler.links (AnchorCrawler.self s2)))
              /\ AnchorCrawler.last_written_key (AnchorCrawler.self s2)
                 = cursor_after None (AnchorCrawler.links (AnchorCrawler.self s2))
              /\ NoDup (AnchorCrawler.links (AnchorCrawler.self s2)).*1) as Hend.
    { intros s1 [Hnd1 Hs1] s2.
      destruct (StepFacts.synced_flush s1 Hnd1 Hs1) as (Htext & Hcur & Hlinks).
      fold s2 in Htext, Hcur, Hlinks. now rewrite Hlinks. }
    destruct goto as [[]|e]; intros Hrun.
    + destruct (AnchorCrawler.scroll_loop _ _ _ fuel page 0 0%Z 0%Z _)
        as [s1|] eqn:Hloop; [|done].
      cbn [mbind option_bind] in Hrun. injection Hrun as <-.
      apply Hend.
      apply (SessionFacts.scroll_loop_inv urljoin md5_hexdigest target_url
               (fun s => NoDup (AnchorCrawler.links (AnchorCrawler.self s)).*1
                         /\ synced s)
               fuel page 0%nat 0%Z 0%Z (logged INFO GoingTo s) s1);
        [| |exact Hgo|exact Hloop].
      * intros i prev retries s2. now apply StepFacts.kept_round.
      * intros lv m s2. apply StepFacts.kept_logged.
    + injection Hrun as <-. apply Hend.
      exact (StepFacts.kept_logged ERROR (CrawlFailed e) _ Hgo).
Qed.

Lemma fault_free_session_leaves_log_in_step_witness :
  NoDup (AnchorCrawler.links (AnchorCrawler.self eager_crawler)).*1
  /\ synced eager_crawler
  /\ (forall i : nat, AnchorCrawler.disk ((fun _ => small_feed) i) = no_fault)
  /\ exists s',
       AnchorCrawler.start_crawling (fun _ l => l) (fun l => l) [] 6 (Ok tt)
         (fun _ => small_feed) no_fault eager_crawler = Some s'
       /\ anchor_file (AnchorCrawler.env s')
          = Some (log_text (AnchorCrawler.links (AnchorCrawler.self s'))).
Proof.
  assert (NoDup (AnchorCrawler.links (AnchorCrawler.self eager_crawler)).*1) as Hnd
    by constructor.
  assert (synced eager_crawler) as Hsynced.
  { exists 0%nat. split_and!; [cbn; lia|reflexivity|reflexivity]. }
  assert (forall i : nat, AnchorCrawler.disk ((fun _ => small_feed) i) = no_fault)
    as Hdisks by reflexivity.
  refine (conj Hnd (conj Hsynced (conj Hdisks _))).
  eexists. split.
  - vm_compute. reflexivity.
  - apply (proj2 (fault_free_session_leaves_log_in_step
                    (fun _ l => l) (fun l => l) [] eager_crawler Hnd Hsynced)
             6%nat (Ok tt) (fun _ => small_feed) _ Hdisks).
    vm_compute. reflexivity.
Defined.

(** ** The end of the scroll loop *)

Module LoopFacts.
Import AnchorCrawler.

Section Rounds.
Variable urljoin : str -> str -> str.
Variable md5_hexdigest : str -> str.
Variable target_url : str.

Local Abbreviation collect := (collect urljoin md5_hexdigest target_url).
Local Abbreviation scroll_body := (scroll_body urljoin md5_hexdigest target_url).
Local Abbreviation scroll_loop := (scroll_loop urljoin md5_hexdigest target_url).

(** [collect] changes the working set and nothing else. *)
Lemma collect_settings els s :
  let c := (collect els s).2 in
  max_links (self c) = max_links (self s)
  /\ batch_size (self c) = batch_size (self s)
  /\ scroll_retries (self c) = scroll_retries (self s)
  /\ last_written_key (self c) = last_written_key (self s)
  /\ env c = env s.
Proof.
  destruct (SessionFacts.collect_spec urljoin md5_hexdigest target_url els s)
    as (added & Hs & _).
  cbv zeta. now rewrite Hs.
Qed.

(** A round leaves the settings of the crawler as they are. *)
Lemma round_settings v prev retries s :
  let s' := (scroll_body v prev retries s).2 in
  max_links (self s') = max_links (self s)
  /\ batch_size (self s') = batch_size (self s)
  /\ scroll_retries (self s') = scroll_retries (self s).
Proof.
  apply (SessionFacts.scroll_body_inv urljoin md5_hexdigest target_url
           (fun s' => max_links (self s') = max_links (self s)
                      /\ batch_size (self s') = batch_size (self s)
                      /\ scroll_retries (self s') = scroll_retries (self s))).
  - intros els s1 (H1 & H2 & H3).
    destruct (collect_settings els s1) as (G1 & G2 & G3 & _).
    split_and!; congruence.
  - intros s1 (H1 & H2 & H3).
    destruct (SessionFacts.flush_self (disk v) s1) as (_ & G1 & G2 & G3).
    split_and!; congruence.
  - intros lv m s1 H. exact H.
  - done.
Qed.

(** A round after which the loop goes on has read the height of the
    page; it has counted one more round without growth, short of the
    bound, or found the page grown. *)
Lemma round_goes_on v prev retries s p' r' s' :
  scroll_body v prev retries s = (Ok (true, p', r'), s') ->
  height v = Ok p'
  /\ (p' = prev /\ r' = (retries + 1)%Z /\ (retries + 1 < scroll_retries (self s))%Z
      \/ p' <> prev /\ r' = 0%Z).
Proof.
  rewrite SessionFacts.scroll_body_eq.
  destruct (scrolled v) as [[]|e]; [|done].
  destruct (hrefs v) as [els|e]; [|done].
  destruct (collect_settings els s) as (_ & _ & Hsr & _).
  destruct (collect els s) as [[[]|e] c]; [|done]. cbn [snd] in Hsr.
  destruct (batch_size (self c) =? 0)%Z; [done|]. cbv zeta.
  destruct (height v) as [h|e]; [|done].
  destruct (Z.eqb_spec h prev) as [->|Hne].
  - destruct (Z.geb_spec (retries + 1) (scroll_retries (self c))) as [Hge|Hlt]; [done|].
    intros [= <- <- _]. split; [reflexivity|]. left. split_and!; [done|done|lia].
  - intros [= <- <- _]. split; [reflexivity|]. now right.
Qed.

Lemma loop_ended fuel page i prev retries s :
  (Z.of_nat (length (links (self s))) <? max_links (self s))%Z = false ->
  scroll_loop fuel page i prev retries s = Some s.
Proof. intros H. destruct fuel; cbn [AnchorCrawler.scroll_loop]; now rewrite H. Qed.

(** Once the height of the page has stopped changing, the loop ends
    within the rounds that [scroll_retries] leaves. *)
Lemma loop_ends_when_still n page i prev retries s :
  (forall j, (i <= j)%nat ->
             height (page j) = Ok prev \/ exists e, height (page j) = Raise e) ->
  (Z.max 1 (scroll_retries (self s) - retries) <= Z.of_nat n)%Z ->
  is_Some (scroll_loop n page i prev retries s).
Proof.
  revert i retries s. induction n as [|n IH]; intros i retries s Hstill Hn; [lia|].
  destruct (Z.of_nat (length (links (self s))) <? max_links (self s))%Z eqn:Hmax;
    [|rewrite loop_ended by done; done].
  rewrite ScrollFacts.loop_round by done.
  pose proof (round_goes_on (page i) prev retries s) as Hgo.
  pose proof (round_settings (page i) prev retries s) as (_ & _ & Hsr).
  destruct (scroll_body (page i) prev retries s) as [[[[[] p'] r']|e] s']; [|done|done].
  cbn [snd] in Hsr.
  destruct (Hgo p' r' s' eq_refl) as (Hheight & [(-> & -> & Hlt)|(Hne & _)]).
  - apply IH; [|rewrite Hsr; lia]. intros j Hj. apply Hstill. lia.
  - destruct (Hstill i (le_n i)) as [Hh|[e Hh]]; congruence.
Qed.

(** The same from the round [i + k] on. *)
Lemma loop_ends_when_still_later k h n page i prev retries s :
  (0 <= retries)%Z ->
  (forall j, (i + k <= j)%nat ->
             height (page j) = Ok h \/ exists e, height (page j) = Raise e) ->
  (k + 1 + Z.to_nat (Z.max 1 (scroll_retries (self s))) <= n)%nat ->
  is_Some (scroll_loop n page i prev retries s).
Proof.
  revert n i prev retries s.
  induction k as [|k IH]; intros n i prev retries s Hretries Hstill Hn.
  - destruct n as [|n]; [lia|].
    destruct (Z.of_nat (length (links (self s))) <? max_links (self s))%Z eqn:Hmax;
      [|rewrite loop_ended by done; done].
    rewrite ScrollFacts.loop_round by done.
    pose proof (round_goes_on (page i) prev retries s) as Hgo.
    pose proof (round_settings (page i) prev retries s) as (_ & _ & Hsr).
    destruct (scroll_body (page i) prev retries s) as [[[[[] p'] r']|e] s'];
      [|done|done].
    cbn [snd] in Hsr.
    destruct (Hgo p' r' s' eq_refl) as (Hheight & Hcount).
    assert (p' = h) as ->.
    { destruct (Hstill i ltac:(lia)) as [Hh|[e Hh]]; congruence. }
    apply loop_ends_when_still.
    + intros j Hj. apply Hstill. lia.
    + rewrite Hsr. destruct Hcount as [(_ & -> & _)|(_ & ->)]; lia.
  - destruct n as [|n]; [lia|].
    destruct (Z.of_nat (length (links (self s))) <? max_links (self s))%Z eqn:Hmax;
      [|rewrite loop_ended by done; done].
    rewrite ScrollFacts.loop_round by done.
    pose proof (round_goes_on (page i) prev retries s) as Hgo.
    pose proof (round_settings (page i) prev retries s) as (_ & _ & Hsr).
    destruct (scroll_body (page i) prev retries s) as [[[[[] p'] r']|e] s'];
      [|done|done].
    cbn [snd] in Hsr.
    destruct (Hgo p' r' s' eq_refl) as (Hheight & Hcount).
    apply (IH n (Datatypes.S i) p' r' s').
    + destruct Hcount as [(_ & -> & _)|(_ & ->)]; lia.
    + intros j Hj. apply Hstill. lia.
    + rewrite Hsr. lia.
Qed.

End Rounds.

End LoopFacts.

(** X10. The scroll loop ends once the page has stopped growing. When
    from some round [k] on every reading of the height of the page gives
    the same value (or fails), [scroll_and_collect_links] returns within
    [k + 1 + max 1 scroll_retries] rounds, whatever else the page and
    the disk do. *)
Theorem scroll_loop_ends_on_a_still_page
    (urljoin : str -> str -> str) (md5_hexdigest : str -> str) (target_url : str)
    (page : nat -> AnchorCrawler.scroll_view) (k : nat) (h : Z)
    (s : AnchorCrawler.state) (fuel : nat) :
  (forall j, (k <= j)%nat ->
     AnchorCrawler.height (page j) = Ok h
     \/ exists e, AnchorCrawler.height (page j) = Raise e) ->
  (k + 1 + Z.to_nat (Z.max 1 (AnchorCrawler.scroll_retries (AnchorCrawler.self s)))
   <= fuel)%nat ->
  is_Some (AnchorCrawler.scroll_and_collect_links urljoin md5_hexdigest target_url
             fuel page s).
Proof.
  intros Hstill Hfuel. unfold AnchorCrawler.scroll_and_collect_links.
  now apply (LoopFacts.loop_ends_when_still_later urljoin md5_hexdigest target_url
               k h fuel page 0%nat 0%Z 0%Z s).
Qed.

Lemma scroll_loop_ends_on_a_still_page_witness :
  (forall j, (0 <= j)%nat ->
     AnchorCrawler.height ((fun _ => small_feed) j) = Ok 1000%Z
     \/ exists e, AnchorCrawler.height ((fun _ => small_feed) j) = Raise e)
  /\ (0 + 1 + Z.to_nat (Z.max 1 (AnchorCrawler.scroll_retries
                                    (AnchorCrawler.self eager_crawler))) <= 6)%nat
  /\ is_Some (AnchorCrawler.scroll_and_collect_links (fun _ l => l) (fun l => l) []
                6 (fun _ => small_feed) eager_crawler).
Proof.
  assert (forall j, (0 <= j)%nat ->
            AnchorCrawler.height ((fun _ => small_feed) j) = Ok 1000%Z
            \/ exists e, AnchorCrawler.height ((fun _ => small_feed) j) = Raise e)
    as Hstill by (intros j _; now left).
  assert (0 + 1 + Z.to_nat (Z.max 1 (AnchorCrawler.scroll_retries
                                       (AnchorCrawler.self eager_crawler))) <= 6)%nat
    as Hfuel by (vm_compute; lia).
  refine (conj Hstill (conj Hfuel _)).
  exact (scroll_loop_ends_on_a_still_page (fun _ l => l) (fun l => l) []
           (fun _ => small_feed) 0 1000 eager_crawler 6 Hstill Hfuel).
Defined.

(** X11. The scroll loop has no bound of its own on the number of
    rounds. On a page that shows no link and whose height is read
    differently in every round than in the round before, the loop does
    not end, for a crawler below [max_links] with a batch size other
    than 0: no number of rounds suffices. *)
Theorem scroll_loop_goes_on_while_the_page_grows
    (urljoin : str -> str -> str) (md5_hexdigest : str -> str) (target_url : str)
    (page : nat -> AnchorCrawler.scroll_view) (h : nat -> Z)
    (s : AnchorCrawler.state) (fuel : nat) :
  (Z.of_nat (length (AnchorCrawler.links (AnchorCrawler.self s)))
   < AnchorCrawler.max_links (AnchorCrawler.self s))%Z ->
  AnchorCrawler.batch_size (AnchorCrawler.self s) <> 0%Z ->
  (forall i, AnchorCrawler.scrolled (page i) = Ok tt
             /\ AnchorCrawler.hrefs (page i) = Ok []
             /\ AnchorCrawler.height (page i) = Ok (h i)) ->
  h 0%nat <> 0%Z ->
  (forall i, h (Datatypes.S i) <> h i) ->
  AnchorCrawler.scroll_and_collect_links urljoin md5_hexdigest target_url
    fuel page s = None.
Proof.
  intros Hmax Hbatch Hpage H0 Hgrows. unfold AnchorCrawler.scroll_and_collect_links.
  assert (forall fuel i prev retries s,
            (Z.of_nat (length (AnchorCrawler.links (AnchorCrawler.self s)))
             < AnchorCrawler.max_links (AnchorCrawler.self s))%Z ->
            AnchorCrawler.batch_size (AnchorCrawler.self s) <> 0%Z ->
            h i <> prev ->
            AnchorCrawler.scroll_loop urljoin md5_hexdigest target_url
              fuel page i prev retries s = None) as Hloop.
  { clear s Hmax Hbatch fuel.
    induction fuel as [|fuel IH]; intros i prev retries s Hmax Hbatch Hprev.
    - cbn [AnchorCrawler.scroll_loop].
      now destruct (Z.ltb_spec (Z.of_nat (length (AnchorCrawler.links
                                                   (AnchorCrawler.self s))))
                      (AnchorCrawler.max_links (AnchorCrawler.self s))); [|lia].
    - rewrite ScrollFacts.loop_round by (now apply Z.ltb_lt).
      rewrite SessionFacts.scroll_body_eq.
      destruct (Hpage i) as (-> & -> & ->).
      cbn [AnchorCrawler.collect ret].
      destruct (Z.eqb_spec (AnchorCrawler.batch_size (AnchorCrawler.self s)) 0);
        [done|].
      cbv zeta. destruct (Z.eqb_spec (h i) prev); [done|].
      apply IH.
      + destruct (_ =? 0)%Z; [|exact Hmax].
        destruct (SessionFacts.flush_self (AnchorCrawler.disk (page i)) s)
          as (-> & -> & _). exact Hmax.
      + destruct (_ =? 0)%Z; [|exact Hbatch].
        destruct (SessionFacts.flush_self (AnchorCrawler.disk (page i)) s)
          as (_ & _ & -> & _). exact Hbatch.
      + apply Hgrows. }
  now apply Hloop.
Qed.

Lemma scroll_loop_goes_on_while_the_page_grows_witness :
  (Z.of_nat (length (AnchorCrawler.links (AnchorCrawler.self eager_crawler)))
   < AnchorCrawler.max_links (AnchorCrawler.self eager_crawler))%Z
  /\ AnchorCrawler.batch_size (AnchorCrawler.self eager_crawler) <> 0%Z
  /\ AnchorCrawler.scroll_and_collect_links (fun _ l => l) (fun l => l) []
       100 (bare_page (fun i => Z.of_nat (Datatypes.S i))) eager_crawler = None.
Proof.
  assert (Z.of_nat (length (AnchorCrawler.links (AnchorCrawler.self eager_crawler)))
          < AnchorCrawler.max_links (AnchorCrawler.self eager_crawler))%Z as Hmax
    by (vm_compute; reflexivity).
  assert (AnchorCrawler.batch_size (AnchorCrawler.self eager_crawler) <> 0%Z) as Hbatch
    by (vm_compute; discriminate).
  refine (conj Hmax (conj Hbatch _)).
  apply (scroll_loop_goes_on_while_the_page_grows (fun _ l => l) (fun l => l) []
           (bare_page (fun i => Z.of_nat (Datatypes.S i)))
           (fun i => Z.of_nat (Datatypes.S i)) eager_crawler 100 Hmax Hbatch).
  - intros i. split_and!; reflexivity.
  - discriminate.
  - intros i. lia.
Defined.

(** X12. A batch size of 0 ends the scroll loop in its first round: the
    test for a flush divides by the batch size, the [ZeroDivisionError]
    is caught and logged, and the loop is left. The links collected in
    this round stay in the working set; the log is not written by the
    loop. *)
Theorem zero_batch_size_ends_the_scroll_loop
    (urljoin : str -> str -> str) (md5_hexdigest : str -> str) (target_url : str)
    (page : nat -> AnchorCrawler.scroll_view)
    (els : list (result (option str))) (s : AnchorCrawler.state) (fuel : nat) :
  AnchorCrawler.batch_size (AnchorCrawler.self s) = 0%Z ->
  (Z.of_nat (length (AnchorCrawler.links (AnchorCrawler.self s)))
   < AnchorCrawler.max_links (AnchorCrawler.self s))%Z ->
  AnchorCrawler.scrolled (page 0%nat) = Ok tt ->
  AnchorCrawler.hrefs (page 0%nat) = Ok els ->
  (AnchorCrawler.collect urljoin md5_hexdigest target_url els s).1 = Ok tt ->
  (1 <= fuel)%nat ->
  AnchorCrawler.scroll_and_collect_links urljoin md5_hexdigest target_url
    fuel page s
  = Some (logged ERROR (ScrollCollectFailed ZeroDivisionError)
            (AnchorCrawler.collect urljoin md5_hexdigest target_url els s).2)
  /\ anchor_file
       (AnchorCrawler.env
          (AnchorCrawler.collect urljoin md5_hexdigest target_url els s).2)
     = anchor_file (AnchorCrawler.env s).
Proof.
  intros Hbatch Hmax Hscrolled Hhrefs Hcollect Hfuel.
  destruct (LoopFacts.collect_settings urljoin md5_hexdigest target_url els s)
    as (_ & Hb & _ & _ & Henv).
  split; [|now rewrite Henv].
  unfold AnchorCrawler.scroll_and_collect_links.
  destruct fuel as [|fuel]; [lia|].
  rewrite ScrollFacts.loop_round by (now apply Z.ltb_lt).
  rewrite SessionFacts.scroll_body_eq, Hscrolled, Hhrefs.
  destruct (AnchorCrawler.collect urljoin md5_hexdigest target_url els s)
    as [[[]|e] c]; [|done].
  cbn [snd] in Hb |- *. rewrite Hb, Hbatch. reflexivity.
Qed.

Lemma zero_batch_size_ends_the_scroll_loop_witness :
  AnchorCrawler.batch_size (AnchorCrawler.self unbatched) = 0%Z
  /\ (Z.of_nat (length (AnchorCrawler.links (AnchorCrawler.self unbatched)))
      < AnchorCrawler.max_links (AnchorCrawler.self unbatched))%Z
  /\ (AnchorCrawler.collect (fun _ l => l) (fun l => l) []
        [Ok (Some href_a); Ok (Some href_b); Ok (Some href_c)] unbatched).1 = Ok tt
  /\ (1 <= 6)%nat
  /\ AnchorCrawler.scroll_and_collect_links (fun _ l => l) (fun l => l) []
       6 (fun _ => small_feed) unbatched
     = Some (logged ERROR (ScrollCollectFailed ZeroDivisionError)
               (AnchorCrawler.collect (fun _ l => l) (fun l => l) []
                  [Ok (Some href_a); Ok (Some href_b); Ok (Some href_c)]
                  unbatched).2).
Proof.
  assert (Z.of_nat (length (AnchorCrawler.links (AnchorCrawler.self unbatched)))
          < AnchorCrawler.max_links (AnchorCrawler.self unbatched))%Z as Hmax
    by (vm_compute; reflexivity).
  assert ((AnchorCrawler.collect (fun _ l => l) (fun l => l) []
             [Ok (Some href_a); Ok (Some href_b); Ok (Some href_c)] unbatched).1
          = Ok tt) as Hcollect by (vm_compute; reflexivity).
  assert (1 <= 6)%nat as Hfuel by lia.
  refine (conj eq_refl (conj Hmax (conj Hcollect (conj Hfuel _)))).
  exact (proj1 (zero_batch_size_ends_the_scroll_loop (fun _ l => l) (fun l => l) []
                  (fun _ => small_feed)
                  [Ok (Some href_a); Ok (Some href_b); Ok (Some href_c)]
                  unbatched 6 eq_refl Hmax eq_refl eq_refl Hcollect Hfuel)).
Defined.

(** ** What is written, and where *)

Module FrameFacts.
Import CommentCrawler.

Lemma appended_refl names w : appended names w w.
Proof.
  unfold appended. split_and!; try done.
  intros name. exists []. now rewrite app_nil_r.
Qed.

Lemma appended_trans names w1 w2 w3 :
  appended names w1 w2 -> appended names w2 w3 -> appended names w1 w3.
Proof.
  intros (A1 & A2 & A3 & A4 & A5) (B1 & B2 & B3 & B4 & B5).
  unfold appended. split_and!.
  - congruence.
  - now rewrite A2.
  - intros name H. now apply B3, A3.
  - intros name. destruct (A4 name) as [e1 H1]. destruct (B4 name) as [e2 H2].
    exists (e1 ++ e2). now rewrite H2, H1, app_assoc.
  - intros name H. now rewrite B5, A5.
Qed.

Lemma appended_weaken (names names' : str -> Prop) w w' :
  (forall name, names name -> names' name) ->
  appended names w w' -> appended names' w w'.
Proof.
  intros Himp (A1 & A2 & A3 & A4 & A5). unfold appended. split_and!; try done.
  intros name H. apply A5. intros Hn. now apply H, Himp.
Qed.

Lemma appended_more names evs logs w : appended names w (more evs logs w).
Proof.
  unfold appended. split_and!; try done.
  intros name. exists []. now rewrite app_nil_r.
Qed.

Lemma appended_add_log names r w : appended names w (add_log r w).
Proof.
  unfold appended. split_and!; try done.
  intros name. exists []. now rewrite app_nil_r.
Qed.

(** Text added at the end of one file. *)
Lemma appended_set_file name extra w d :
  comment_dir w = Some d ->
  appended (eq name) w (set_file name (default [] (d !! name) ++ extra) w).
Proof.
  intros Hd. unfold appended. split_and!.
  - reflexivity.
  - rewrite Hd, (SaveFacts.comment_dir_set_file _ _ _ d Hd). split; now eexists.
  - intros other Hsome. destruct (decide (other = name)) as [->|Hne].
    + rewrite (SaveFacts.file_at_set_file _ _ _ d Hd). now eexists.
    + now rewrite AppendFacts.file_at_set_other.
  - intros other. destruct (decide (other = name)) as [->|Hne].
    + exists extra. rewrite (SaveFacts.file_at_set_file _ _ _ d Hd).
      unfold file_at. now rewrite Hd.
    + exists []. rewrite AppendFacts.file_at_set_other by done.
      now rewrite app_nil_r.
  - intros other Hne. apply AppendFacts.file_at_set_other. congruence.
Qed.

(** A save appends to its file, on any disk. *)
Lemma save_appended io name cs w :
  appended (eq name) w (_save_comments io name cs w).2.
Proof.
  destruct (AppendFacts.save_shape io name cs w)
    as [->|(d & j & extra & lv & m & Hd & _ & ->)]; cbn [snd].
  - apply appended_add_log.
  - eapply appended_trans; [|apply appended_add_log].
    now apply appended_set_file.
Qed.

End FrameFacts.

(** ** The rounds of [_fetch_comments] *)

Module RoundFacts.
Import CommentCrawler.

Lemma save_total io name cs w :
  exists w', _save_comments io name cs w = (Ok tt, w').
Proof.
  destruct (AppendFacts.save_shape io name cs w)
    as [->|(d & j & extra & lv & m & _ & _ & ->)]; now eexists.
Qed.

Lemma extract_shown v w :
  exists logs, _extract_comments v w = (Ok (shown v), more [] logs w).
Proof.
  destruct (FetchFacts.extract_total v w) as (cs & logs & Hrun).
  exists logs. rewrite Hrun. f_equal. f_equal. revert Hrun.
  unfold _extract_comments, shown, try_except. unfold bind at 1, lift at 1.
  destruct (texts v) as [elements|e]; [|now intros [= <- _]].
  unfold bind at 1, lift at 1.
  destruct (inner_texts elements) as [cs'|e]; now intros [= <- _].
Qed.

Lemma scroll_grows v w :
  exists logs, _scroll_page v w = (Ok (grows v), more [] logs w).
Proof.
  destruct (FetchFacts.scroll_total v w) as (b & logs & Hrun).
  exists logs. rewrite Hrun. f_equal. f_equal. revert Hrun.
  unfold _scroll_page, grows, try_except. unfold bind at 1, emit at 1, modify.
  unfold bind at 1, lift at 1.
  destruct (heights v) as [[h1 h2]|e]; now intros [= <- _].
Qed.

(** Taking in what the page shows, on any disk. *)
Lemma take_in_vars io name new_comments x w added :
  added = filter (fun c => c ∉ comments x) new_comments ->
  exists w',
    take_in name io new_comments (x, w)
    = (Ok added,
       ({| comments := comments x ++ added;
           retries := retries x;
           flush_idx :=
             match added with
             | [] => flush_idx x
             | _ =>
                 if (Z.of_nat (length (comments x ++ added)) - Z.of_nat (flush_idx x)
                     >=? COMMENT_BATCH_SIZE)%Z
                 then length (comments x ++ added) else flush_idx x
             end |}, w'))
    /\ appended (eq name) w w'.
Proof.
  destruct x as [cs r idx]. cbn [comments retries flush_idx].
  intros Hadded. unfold take_in. unfold bind at 1, get at 1. cbn [fst snd].
  unfold bind at 1, on_world at 1, _is_new_content_loaded. cbn [fst snd comments].
  unfold bind at 1, emit at 1, modify at 1, ret at 1.
  rewrite <- Hadded. clear Hadded.
  set (w1 := add_log (INFO, Added (length added)) w).
  assert (appended (eq name) w w1) as Hw1 by apply FrameFacts.appended_add_log.
  clearbody w1.
  destruct added as [|a added].
  - unfold bind, ret. rewrite app_nil_r. now eexists.
  - unfold bind at 1. unfold bind at 1, update at 1, modify at 1.
    unfold bind at 1, get at 1. cbn [fst snd comments flush_idx retries].
    destruct (cs ++ a :: added) as [|c cs'] eqn:Ecs.
    { now destruct cs. }
    rewrite <- Ecs.
    destruct (Z.of_nat (length (cs ++ a :: added)) - Z.of_nat idx
              >=? COMMENT_BATCH_SIZE)%Z.
    + unfold bind at 1, on_world at 1. cbn [fst snd].
      pose proof (FrameFacts.save_appended io name (drop idx (cs ++ a :: added)) w1)
        as Hsave.
      destruct (save_total io name (drop idx (cs ++ a :: added)) w1) as (w2 & Hw2).
      rewrite Hw2 in Hsave |- *.
      unfold update, modify, ret. cbn [fst snd comments flush_idx retries] in *.
      eexists. split; [reflexivity|].
      now apply (FrameFacts.appended_trans _ w w1 w2).
    + unfold ret. now eexists.
Qed.

(** A round of the loop returns normally, on any page and any disk, and
    leaves the variables that [next_vars] gives. *)
Lemma fetch_body_vars name p i x w :
  exists w',
    fetch_body name p i page_to_do_plugins (x, w)
    = (Ok tt, (next_vars (views p i) x, w'))
    /\ appended (eq name) w w'.
Proof.
  unfold fetch_body.
  unfold bind at 1, on_world at 1. cbn [fst snd].
  destruct (FetchFacts.plugins_total (buttons p i) w) as (e1 & l1 & ->).
  unfold bind at 1, on_world at 1. cbn [fst snd].
  destruct (extract_shown (views p i) (more e1 l1 w)) as (l2 & ->).
  unfold bind at 1.
  destruct (take_in_vars (flush_io p i) name (shown (views p i)) x
              (more [] l2 (more e1 l1 w)) _ eq_refl) as (w2 & -> & Hw2).
  unfold bind at 1, on_world at 1. cbn [fst snd].
  destruct (scroll_grows (views p i) w2) as (l3 & ->).
  assert (appended (eq name) w (more [] l3 w2)) as Hw3.
  { eapply FrameFacts.appended_trans; [apply (FrameFacts.appended_more _ e1 l1)|].
    eapply FrameFacts.appended_trans; [apply (FrameFacts.appended_more _ [] l2)|].
    eapply FrameFacts.appended_trans; [exact Hw2|].
    apply FrameFacts.appended_more. }
  unfold next_vars, count_round.
  destruct (grows (views p i)),
    (filter (fun c => c ∉ comments x) (shown (views p i))) as [|a added];
    unfold bind, update, get, on_world, emit, modify;
    cbn [fst snd comments retries flush_idx];
    (eexists; split; [reflexivity|]);
    first [exact Hw3
          |eapply FrameFacts.appended_trans;
           [exact Hw3|apply FrameFacts.appended_add_log]].
Qed.

(** The loop, by its variables. *)
Lemma fetch_loop_vars fuel name p i x w :
  fst <$> fetch_loop fuel name p i page_to_do_plugins (x, w)
  = vars_loop fuel (views p) i x.
Proof.
  revert i x w. induction fuel as [|fuel IH]; intros i x w;
    cbn [fetch_loop vars_loop fst].
  - now destruct (retries x <? max_retries)%Z.
  - destruct (retries x <? max_retries)%Z; [|reflexivity].
    destruct (fetch_body_vars name p i x w) as (w' & -> & _). apply IH.
Qed.

(** The loop appends to its file, and to no other. *)
Lemma fetch_loop_appended fuel name p i x w x' w' :
  fetch_loop fuel name p i page_to_do_plugins (x, w) = Some (x', w') ->
  appended (eq name) w w'.
Proof.
  revert i x w. induction fuel as [|fuel IH]; intros i x w;
    cbn [fetch_loop fst].
  - destruct (retries x <? max_retries)%Z; [done|].
    intros [= <- <-]. apply FrameFacts.appended_refl.
  - destruct (retries x <? max_retries)%Z;
      [|intros [= <- <-]; apply FrameFacts.appended_refl].
    destruct (fetch_body_vars name p i x w) as (w1 & -> & Hw1).
    intros Hrun. eapply FrameFacts.appended_trans; [exact Hw1|].
    now apply (IH _ _ _ Hrun).
Qed.

Lemma fetch_comments_appended fuel name p url w cs w1 :
  _fetch_comments fuel name p url page_to_do_plugins w = Some (cs, w1) ->
  appended (eq name) w w1.
Proof.
  unfold _fetch_comments. unfold bind, emit, modify, lift.
  destruct (goto p) as [[]|e].
  - destruct (fetch_loop _ _ _ _ _ _) as [[x' w']|] eqn:Hloop; [|done].
    cbn [mbind option_bind fst snd]. intros [= <- <-].
    apply fetch_loop_appended in Hloop.
    eapply FrameFacts.appended_trans; [apply FrameFacts.appended_add_log|].
    eapply FrameFacts.appended_trans; [exact Hloop|].
    apply FrameFacts.appended_add_log.
  - intros [= <- <-].
    eapply FrameFacts.appended_trans; apply FrameFacts.appended_add_log.
Qed.

End RoundFacts.

(** ** The end of the loop of [_fetch_comments] *)

Module IdleFacts.
Import CommentCrawler.

(** A round in which the page neither grows nor shows a new text. *)
Lemma next_vars_idle v x :
  grows v = false ->
  (forall c, c ∈ shown v -> c ∈ comments x) ->
  next_vars v x
  = {| comments := comments x; retries := (retries x + 1)%Z;
       flush_idx := flush_idx x |}.
Proof.
  intros Hgrows Hknown. unfold next_vars. rewrite Hgrows.
  rewrite (ListFacts.filter_none (fun c => c ∉ comments x) (shown v)).
  - now rewrite app_nil_r.
  - intros c Hc Hnot. now apply Hnot, Hknown.
Qed.

(** The texts of a round are among the comments after it. *)
Lemma next_vars_holds v x c : c ∈ shown v -> c ∈ comments (next_vars v x).
Proof.
  intros Hc. cbn [next_vars comments]. apply elem_of_app.
  destruct (decide (c ∈ comments x)) as [Hin|Hnew]; [now left|right].
  now apply list_elem_of_filter.
Qed.

Lemma next_vars_retries v x : (0 <= retries x)%Z -> (0 <= retries (next_vars v x))%Z.
Proof.
  intros Hr. cbn [next_vars retries].
  destruct (grows v), (filter (fun c => c ∉ comments x) (shown v)); lia.
Qed.

Lemma vars_loop_ended fuel views i x :
  (retries x <? max_retries)%Z = false -> vars_loop fuel views i x = Some x.
Proof. intros H. destruct fuel; cbn [vars_loop]; now rewrite H. Qed.

(** Once the page neither grows nor shows a new text, the loop ends
    within the rounds that [max_retries] leaves, with the comments it
    has. *)
Lemma vars_loop_idle n views i x :
  (forall j, (i <= j)%nat ->
     grows (views j) = false /\ forall c, c ∈ shown (views j) -> c ∈ comments x) ->
  (max_retries - retries x <= Z.of_nat n)%Z ->
  exists x', vars_loop n views i x = Some x' /\ comments x' = comments x.
Proof.
  revert i x. induction n as [|n IH]; intros i x Hidle Hn.
  - exists x. split; [|reflexivity]. apply vars_loop_ended. apply Z.ltb_ge. lia.
  - destruct (retries x <? max_retries)%Z eqn:Hr.
    + cbn [vars_loop]. rewrite Hr.
      destruct (Hidle i (le_n i)) as [Hgrows Hknown].
      rewrite (next_vars_idle _ _ Hgrows Hknown).
      destruct (IH (Datatypes.S i)
                  {| comments := comments x; retries := (retries x + 1)%Z;
                     flush_idx := flush_idx x |}) as (x' & Hrun & Hcs).
      * intros j Hj. apply Hidle. lia.
      * cbn [retries]. lia.
      * now exists x'.
    + exists x. split; [|reflexivity]. now apply vars_loop_ended.
Qed.

(** The same from the round [i + k] on, when from then on the page
    shows no text that it did not show in that round. *)
Lemma vars_loop_still k n views i x :
  (0 <= retries x)%Z ->
  (forall j, (i + k <= j)%nat ->
     grows (views j) = false
     /\ forall c, c ∈ shown (views j) -> c ∈ shown (views (i + k)%nat)) ->
  (k + 6 <= n)%nat ->
  is_Some (vars_loop n views i x).
Proof.
  revert n i x. induction k as [|k IH]; intros n i x Hr Hstill Hn.
  - destruct n as [|n]; [lia|].
    destruct (retries x <? max_retries)%Z eqn:Hlt;
      [|rewrite vars_loop_ended by done; done].
    cbn [vars_loop]. rewrite Hlt.
    destruct (vars_loop_idle n views (Datatypes.S i) (next_vars (views i) x))
      as (x' & -> & _); [| |done].
    + intros j Hj. destruct (Hstill j ltac:(lia)) as [Hgrows Hknown].
      split; [exact Hgrows|]. intros c Hc. apply next_vars_holds.
      rewrite Nat.add_0_r in Hknown. now apply Hknown.
    + pose proof (next_vars_retries (views i) x Hr). unfold max_retries. lia.
  - destruct n as [|n]; [lia|].
    destruct (retries x <? max_retries)%Z eqn:Hlt;
      [|rewrite vars_loop_ended by done; done].
    cbn [vars_loop]. rewrite Hlt. apply IH.
    + now apply next_vars_retries.
    + intros j Hj. replace (Datatypes.S i + k)%nat with (i + Datatypes.S k)%nat by lia.
      apply Hstill. lia.
    + lia.
Qed.

(** While the page grows, the loop goes on. *)
Lemma vars_loop_grows fuel views i x :
  (forall j, grows (views j) = true) ->
  (retries x < max_retries)%Z ->
  vars_loop fuel views i x = None.
Proof.
  intros Hgrows. revert i x. induction fuel as [|fuel IH]; intros i x Hr;
    cbn [vars_loop]; destruct (Z.ltb_spec (retries x) max_retries); try lia.
  - reflexivity.
  - apply IH. cbn [next_vars retries]. rewrite Hgrows. unfold max_retries. lia.
Qed.

End IdleFacts.

(** X13. The loop of [_fetch_comments] ends once the page is still.
    When from some round [k] on the page does not grow under scrolling
    and shows no text that it did not show in round [k],
    [_fetch_comments] returns within [k + 6] rounds, whatever the
    renderer and the disk do otherwise: no round of the loop raises, and
    the count of rounds without progress reaches [max_retries]. *)
Theorem fetch_ends_once_the_page_is_still
    (fuel : nat) (output_file : str) (p : CommentCrawler.session) (url : str)
    (w : world) (k : nat) :
  (forall j, (k <= j)%nat ->
     grows (CommentCrawler.views p j) = false
     /\ forall c, c ∈ shown (CommentCrawler.views p j) ->
                  c ∈ shown (CommentCrawler.views p k)) ->
  (k + 6 <= fuel)%nat ->
  is_Some (CommentCrawler._fetch_comments fuel output_file p url
             CommentCrawler.page_to_do_plugins w).
Proof.
  intros Hstill Hfuel. unfold CommentCrawler._fetch_comments.
  unfold bind, emit, modify, lift.
  destruct (CommentCrawler.goto p) as [[]|e]; [|done].
  set (x0 := {| CommentCrawler.comments := []; CommentCrawler.retries := 0;
                CommentCrawler.flush_idx := 0 |}).
  set (w0 := add_log (INFO, OpeningUrl url) w).
  pose proof (RoundFacts.fetch_loop_vars fuel output_file p 0 x0 w0) as Hvars.
  destruct (IdleFacts.vars_loop_still k fuel (CommentCrawler.views p) 0 x0)
    as [x' Hx']; [done|exact Hstill|exact Hfuel|].
  rewrite Hx' in Hvars.
  destruct (CommentCrawler.fetch_loop fuel output_file p 0
              CommentCrawler.page_to_do_plugins (x0, w0)) as [vw|]; [done|].
  discriminate Hvars.
Qed.

Lemma fetch_ends_once_the_page_is_still_witness :
  (forall j, (0 <= j)%nat ->
     grows (CommentCrawler.views (still_page sample_comments) j) = false
     /\ forall c, c ∈ shown (CommentCrawler.views (still_page sample_comments) j) ->
                  c ∈ shown (CommentCrawler.views (still_page sample_comments) 0))
  /\ (0 + 6 <= 6)%nat
  /\ is_Some (CommentCrawler._fetch_comments 6 ([97] ++ TXT)
                (still_page sample_comments) [104; 49]
                CommentCrawler.page_to_do_plugins sample_world).
Proof.
  assert (forall j, (0 <= j)%nat ->
            grows (CommentCrawler.views (still_page sample_comments) j) = false
            /\ forall c,
                 c ∈ shown (CommentCrawler.views (still_page sample_comments) j) ->
                 c ∈ shown (CommentCrawler.views (still_page sample_comments) 0))
    as Hstill by (intros j _; split; [reflexivity|intros c Hc; exact Hc]).
  assert (0 + 6 <= 6)%nat as Hfuel by lia.
  refine (conj Hstill (conj Hfuel _)).
  exact (fetch_ends_once_the_page_is_still 6 ([97] ++ TXT)
           (still_page sample_comments) [104; 49] sample_world 0 Hstill Hfuel).
Defined.

(** X14. The loop of [_fetch_comments] has no bound of its own on the
    number of rounds: on a page that opens and grows under every
    scroll, it does not end, whatever the page shows. *)
Theorem fetch_goes_on_while_the_page_grows
    (fuel : nat) (output_file : str) (p : CommentCrawler.session) (url : str)
    (w : world) :
  CommentCrawler.goto p = Ok tt ->
  (forall i, grows (CommentCrawler.views p i) = true) ->
  CommentCrawler._fetch_comments fuel output_file p url
    CommentCrawler.page_to_do_plugins w = None.
Proof.
  intros Hgoto Hgrows. unfold CommentCrawler._fetch_comments.
  unfold bind, emit, modify, lift. rewrite Hgoto.
  set (x0 := {| CommentCrawler.comments := []; CommentCrawler.retries := 0;
                CommentCrawler.flush_idx := 0 |}).
  set (w0 := add_log (INFO, OpeningUrl url) w).
  pose proof (RoundFacts.fetch_loop_vars fuel output_file p 0 x0 w0) as Hvars.
  rewrite (IdleFacts.vars_loop_grows fuel (CommentCrawler.views p) 0 x0 Hgrows)
    in Hvars by done.
  now destruct (CommentCrawler.fetch_loop fuel output_file p 0
                  CommentCrawler.page_to_do_plugins (x0, w0)).
Qed.

Lemma fetch_goes_on_while_the_page_grows_witness :
  CommentCrawler.goto growing_page = Ok tt
  /\ (forall i, grows (CommentCrawler.views growing_page i) = true)
  /\ CommentCrawler._fetch_comments 100 ([97] ++ TXT) growing_page [104; 49]
       CommentCrawler.page_to_do_plugins sample_world = None.
Proof.
  assert (forall i, grows (CommentCrawler.views growing_page i) = true) as Hgrows.
  { intros i. unfold grows. cbn [growing_page CommentCrawler.views
                                  CommentCrawler.heights fst snd].
    rewrite Z.gtb_ltb. apply Z.ltb_lt. lia. }
  refine (conj eq_refl (conj Hgrows _)).
  exact (fetch_goes_on_while_the_page_grows 100 ([97] ++ TXT) growing_page
           [104; 49] sample_world eq_refl Hgrows).
Defined.

(** ** What [_fetch_comments] returns *)

Module ResultFacts.
Import CommentCrawler.

Lemma next_vars_from v x c :
  c ∈ comments (next_vars v x) -> c ∈ comments x \/ c ∈ shown v.
Proof.
  cbn [next_vars comments]. intros [Hin|Hin]%elem_of_app; [now left|right].
  now apply list_elem_of_filter in Hin as [_ Hin].
Qed.

Lemma next_vars_prefix v x : comments x `prefix_of` comments (next_vars v x).
Proof. cbn [next_vars comments]. now apply prefix_app_r. Qed.

Lemma next_vars_NoDup v x :
  NoDup (comments x) -> NoDup (shown v) -> NoDup (comments (next_vars v x)).
Proof.
  intros Hx Hv. cbn [next_vars comments]. apply NoDup_app. split_and!.
  - exact Hx.
  - intros c Hc Hin. now apply list_elem_of_filter in Hin as [Hnot _].
  - now apply NoDup_filter.
Qed.

Lemma next_vars_count v x :
  (retries (next_vars v x) <= Z.max (retries x) 0 + 1)%Z.
Proof.
  cbn [next_vars retries].
  destruct (grows v), (filter (fun c => c ∉ comments x) (shown v)); lia.
Qed.

Lemma elem_of_prefix {A} (l1 l2 : list A) x : l1 `prefix_of` l2 -> x ∈ l1 -> x ∈ l2.
Proof. intros [k ->] Hx. apply elem_of_app. now left. Qed.

(** The loop on the variables, by the rounds it has made when it ends. *)
Lemma vars_loop_result fuel views i x x' :
  vars_loop fuel views i x = Some x' ->
  exists n,
    (n <= fuel)%nat
    /\ comments x `prefix_of` comments x'
    /\ (forall j c, (i <= j < i + n)%nat -> c ∈ shown (views j) -> c ∈ comments x')
    /\ (forall c, c ∈ comments x' ->
          c ∈ comments x \/ exists j, (i <= j < i + n)%nat /\ c ∈ shown (views j))
    /\ (NoDup (comments x) ->
        (forall j, (i <= j < i + n)%nat -> NoDup (shown (views j))) ->
        NoDup (comments x'))
    /\ (max_retries <= retries x' <= Z.max (retries x) 0 + Z.of_nat n)%Z.
Proof.
  revert i x. induction fuel as [|fuel IH]; intros i x; cbn [vars_loop];
    destruct (Z.ltb_spec (retries x) max_retries) as [Hlt|Hge]; try done.
  - intros [= <-]. exists 0%nat. split_and!; try done; try lia.
    intros c Hc. now left.
  - intros Hrun. destruct (IH _ _ Hrun) as (n & Hn & Hpre & Hall & Hfrom & Hnd & Hr).
    exists (Datatypes.S n). split_and!.
    + lia.
    + etrans; [apply (next_vars_prefix (views i))|exact Hpre].
    + intros j c Hj Hc. destruct (decide (j = i)) as [->|Hne].
      * apply (elem_of_prefix _ _ _ Hpre). now apply IdleFacts.next_vars_holds.
      * apply (Hall j); [lia|exact Hc].
    + intros c Hc. destruct (Hfrom c Hc) as [Hin|(j & Hj & Hin)].
      * destruct (next_vars_from _ _ _ Hin) as [Hold|Hnew]; [now left|].
        right. exists i. split; [lia|exact Hnew].
      * right. exists j. split; [lia|exact Hin].
    + intros Hx Hviews. apply Hnd.
      * apply next_vars_NoDup; [exact Hx|]. apply Hviews. lia.
      * intros j Hj. apply Hviews. lia.
    + pose proof (next_vars_count (views i) x). unfold max_retries in *. lia.
    + pose proof (next_vars_count (views i) x). unfold max_retries in *. lia.
  - intros [= <-]. exists 0%nat. split_and!; try done; try lia.
    intros c Hc. now left.
Qed.

Lemma next_vars_batched v x : batched x -> batched (next_vars v x).
Proof.
  intros (Hle & Hlt & Hidx). unfold batched. cbn [next_vars comments flush_idx].
  destruct (filter (fun c => c ∉ comments x) (shown v)) as [|a added].
  - now rewrite app_nil_r.
  - unfold COMMENT_BATCH_SIZE.
    destruct (Z.geb_spec (Z.of_nat (length (comments x ++ a :: added))
                          - Z.of_nat (flush_idx x)) 50) as [Hge|Hless].
    + split_and!; [lia|lia|right; lia].
    + rewrite length_app in *. cbn [length] in *. split_and!; [lia|lia|exact Hidx].
Qed.

Lemma vars_loop_batched fuel views i x x' :
  batched x -> vars_loop fuel views i x = Some x' -> batched x'.
Proof.
  revert i x. induction fuel as [|fuel IH]; intros i x Hx; cbn [vars_loop];
    destruct (retries x <? max_retries)%Z; try done.
  - now intros [= <-].
  - apply IH. now apply next_vars_batched.
  - now intros [= <-].
Qed.

End ResultFacts.

(** X15. What [_fetch_comments] returns. When it returns after [n]
    rounds of its loop, the list holds every text that the page showed
    in one of these rounds, and nothing else; it holds no text twice
    when no single round showed a text twice. When the page could be
    opened, the loop has made at least five rounds. *)
Theorem fetched_comments_are_the_texts_shown
    (fuel : nat) (output_file : str) (p : CommentCrawler.session) (url : str)
    (w w1 : world) (comments : list str) :
  CommentCrawler._fetch_comments fuel output_file p url
    CommentCrawler.page_to_do_plugins w = Some (comments, w1) ->
  exists n,
    (n <= fuel)%nat
    /\ (forall j c, (j < n)%nat -> c ∈ shown (CommentCrawler.views p j) -> c ∈ comments)
    /\ (forall c, c ∈ comments ->
          exists j, (j < n)%nat /\ c ∈ shown (CommentCrawler.views p j))
    /\ ((forall j, (j < n)%nat -> NoDup (shown (CommentCrawler.views p j))) ->
        NoDup comments)
    /\ (CommentCrawler.goto p = Ok tt -> (5 <= n)%nat).
Proof.
  unfold CommentCrawler._fetch_comments. unfold bind, emit, modify, lift.
  destruct (CommentCrawler.goto p) as [[]|e].
  - set (x0 := {| CommentCrawler.comments := []; CommentCrawler.retries := 0;
                  CommentCrawler.flush_idx := 0 |}).
    set (w0 := add_log (INFO, OpeningUrl url) w).
    pose proof (RoundFacts.fetch_loop_vars fuel output_file p 0 x0 w0) as Hvars.
    destruct (CommentCrawler.fetch_loop fuel output_file p 0
                CommentCrawler.page_to_do_plugins (x0, w0)) as [[x' w']|]; [|done].
    cbn [mbind option_bind fst snd fmap option_fmap option_map] in *.
    intros [= <- <-]. symmetry in Hvars.
    destruct (ResultFacts.vars_loop_result _ _ _ _ _ Hvars)
      as (n & Hn & _ & Hall & Hfrom & Hnd & Hr).
    exists n. split_and!.
    + exact Hn.
    + intros j c Hj. apply Hall. lia.
    + intros c Hc. destruct (Hfrom c Hc) as [Hin|(j & Hj & Hin)].
      * now apply elem_of_nil in Hin.
      * exists j. split; [lia|exact Hin].
    + intros Hviews. apply Hnd; [constructor|]. intros j Hj. apply Hviews. lia.
    + intros _. cbn [CommentCrawler.retries x0] in Hr.
      unfold CommentCrawler.max_retries in Hr. lia.
  - intros [= <- <-]. exists 0%nat. split_and!; try done; try lia.
    + intros c Hc. now apply elem_of_nil in Hc.
    + intros _. constructor.
Qed.

Lemma fetched_comments_are_the_texts_shown_witness :
  exists comments w1 n,
    CommentCrawler._fetch_comments 6 ([97] ++ TXT) (still_page sample_comments)
      [104; 49] CommentCrawler.page_to_do_plugins sample_world
    = Some (comments, w1)
    /\ (n <= 6)%nat
    /\ (forall c, c ∈ comments ->
          exists j, (j < n)%nat
                    /\ c ∈ shown (CommentCrawler.views (still_page sample_comments) j)).
Proof.
  destruct (CommentCrawler._fetch_comments 6 ([97] ++ TXT)
              (still_page sample_comments) [104; 49]
              CommentCrawler.page_to_do_plugins sample_world)
    as [[comments w1]|] eqn:Hrun; [|vm_compute in Hrun; discriminate].
  destruct (fetched_comments_are_the_texts_shown 6 ([97] ++ TXT)
              (still_page sample_comments) [104; 49] sample_world w1 comments Hrun)
    as (n & Hn & _ & Hfrom & _).
  exists comments, w1, n. split_and!; [reflexivity|exact Hn|exact Hfrom].
Defined.

(** ** The comment file of a link *)

Module FileFacts.
Import CommentCrawler.

(** What [_fetch_comments] leaves in the file on disks without fault:
    the comments up to [flush_idx], which come in batches. *)
Lemma fetch_comments_batched fuel name p url w d comments w1 :
  (forall j, flush_io p j = no_fault) ->
  comment_dir w = Some d ->
  _fetch_comments fuel name p url page_to_do_plugins w = Some (comments, w1) ->
  exists n d1,
    comment_dir w1 = Some d1
    /\ default [] (d1 !! name) = default [] (d !! name) ++ comment_text (take n comments)
    /\ (n <= length comments)%nat
    /\ (length comments - n < 50)%nat
    /\ (n = 0%nat \/ (50 <= n)%nat).
Proof.
  intros Hio Hd. unfold _fetch_comments. unfold bind, emit, modify, lift.
  destruct (goto p) as [[]|e].
  - set (x0 := {| comments := []; retries := 0; flush_idx := 0 |}).
    set (w0 := add_log (INFO, OpeningUrl url) w).
    pose proof (RoundFacts.fetch_loop_vars fuel name p 0 x0 w0) as Hvars.
    destruct (fetch_loop fuel name p 0 page_to_do_plugins (x0, w0))
      as [[x' w']|] eqn:Hloop; [|done].
    cbn [mbind option_bind fst snd fmap option_fmap option_map] in *.
    intros [= <- <-]. symmetry in Hvars.
    apply (FetchFacts.fetch_loop_keeps name (default [] (d !! name))) in Hloop
      as (d1 & Hd1 & Hle & Hfile); [|exact Hio|].
    + assert (batched x0) as Hx0 by (unfold batched; cbn; lia).
      destruct (ResultFacts.vars_loop_batched _ _ _ _ _ Hx0 Hvars)
        as (_ & Hlt & Hidx).
      exists (flush_idx x'), d1. cbn [fst snd] in *. done.
    + exists d. cbn. split_and!; [exact Hd|lia|now rewrite app_nil_r].
  - intros [= <- <-]. exists 0%nat, d. cbn.
    split_and!; [exact Hd|now rewrite app_nil_r|lia|lia|now left].
Qed.

End FileFacts.

(** X16. The comment file after a link has been processed, on disks
    without fault. When [_fetch_comments] returns for a link without
    comment file, the file holds the comments that the loop flushed and
    then all the comments returned: none or at least 50 of the comments
    are flushed, fewer than 50 are not, so the flushed ones are in the
    file twice and the others once. For a link with fewer than 50
    comments the file holds the comments returned, each once. *)
Theorem comment_file_after_a_link
    (fuel : nat) (renderer : str -> CommentCrawler.session)
    (hash_key link : str) (w w1 : world) (d : gmap str str) (comments : list str) :
  comment_dir w = Some d ->
  d !! (hash_key ++ TXT) = None ->
  (forall j, CommentCrawler.flush_io (renderer link) j = no_fault) ->
  CommentCrawler.final_io (renderer link) = no_fault ->
  CommentCrawler._fetch_comments fuel (hash_key ++ TXT) (renderer link) link
    CommentCrawler.page_to_do_plugins w = Some (comments, w1) ->
  exists n w',
    CommentCrawler.process_each fuel renderer [(hash_key, link)] w = Some w'
    /\ CommentCrawler.file_at (hash_key ++ TXT) w'
       = Some (comment_text (take n comments) ++ comment_text comments)
    /\ (n <= length comments)%nat
    /\ (length comments - n < 50)%nat
    /\ (n = 0%nat \/ (50 <= n)%nat)
    /\ ((length comments < 50)%nat ->
        CommentCrawler.file_at (hash_key ++ TXT) w' = Some (comment_text comments)).
Proof.
  intros Hd Hnew Hio Hfin Hfetch.
  destruct (FileFacts.fetch_comments_batched _ _ _ _ _ _ _ _ Hio Hd Hfetch)
    as (n & d1 & Hd1 & Hfile & Hle & Hlt & Hidx).
  rewrite Hnew in Hfile. cbn [default from_option app] in Hfile.
  exists n. eexists.
  rewrite (SaveFacts.process_link_appends_all fuel renderer hash_key link [] w
             comments w1 d1);
    [|unfold CommentCrawler.file_at; rewrite Hd; exact Hnew
     |exact Hfetch|exact Hd1|exact Hfin].
  assert (CommentCrawler.file_at (hash_key ++ TXT)
            (add_log (INFO, CommentsAppended (length comments) (hash_key ++ TXT))
               (CommentCrawler.set_file (hash_key ++ TXT)
                  (default [] (d1 !! (hash_key ++ TXT)) ++ comment_text comments) w1))
          = Some (comment_text (take n comments) ++ comment_text comments)) as Hafter.
  { unfold CommentCrawler.file_at. cbn. rewrite Hd1. cbn.
    rewrite lookup_insert_eq. now rewrite Hfile. }
  split_and!; [reflexivity|exact Hafter|exact Hle|exact Hlt|exact Hidx|].
  intros Hfew. rewrite Hafter. destruct Hidx as [->|Hmany]; [reflexivity|lia].
Qed.

Lemma comment_file_after_a_link_witness :
  exists comments w1 w',
    CommentCrawler._fetch_comments 6 ([97] ++ TXT) (still_page [[120]; [121]])
      [104; 49] CommentCrawler.page_to_do_plugins sample_world
    = Some (comments, w1)
    /\ CommentCrawler.process_each 6 (fun _ => still_page [[120]; [121]])
         [sample_link] sample_world = Some w'
    /\ CommentCrawler.file_at ([97] ++ TXT) w' = Some (comment_text comments).
Proof.
  destruct (CommentCrawler._fetch_comments 6 ([97] ++ TXT)
              (still_page [[120]; [121]]) [104; 49]
              CommentCrawler.page_to_do_plugins sample_world)
    as [[comments w1]|] eqn:Hrun; [|vm_compute in Hrun; discriminate].
  destruct (comment_file_after_a_link 6 (fun _ => still_page [[120]; [121]])
              [97] [104; 49] sample_world w1 ∅ comments
              eq_refl eq_refl (fun _ => eq_refl) eq_refl Hrun)
    as (n & w' & Hprocess & _ & _ & _ & _ & Hfew).
  exists comments, w1, w'. split_and!; [reflexivity|exact Hprocess|].
  apply Hfew. vm_compute in Hrun. injection Hrun as <- _. cbn. lia.
Defined.

(** ** Links that are not fetched *)

Module SkipFacts.
Import CommentCrawler.

Lemma file_at_add_log name r w : file_at name (add_log r w) = file_at name w.
Proof. reflexivity. Qed.

(** A link with a comment file is passed over. *)
Lemma process_each_skip fuel renderer hash_key link rest w :
  is_Some (file_at (hash_key ++ TXT) w) ->
  process_each fuel renderer ((hash_key, link) :: rest) w
  = process_each fuel renderer rest
      (add_log (INFO, FileExistsSkip (hash_key ++ TXT)) w).
Proof. intros [text Hf]. cbn [process_each]. now rewrite Hf. Qed.

(** A save of no comment on a disk that opens the file. *)
Lemma save_nothing io name w d :
  comment_dir w = Some d -> open_ok io = true ->
  _save_comments io name [] w
  = (Ok tt, add_log (INFO, CommentsAppended 0 name)
              (set_file name (default [] (d !! name)) w)).
Proof.
  intros Hd Hopen. now rewrite (SaveFacts.save_comments_opened io name [] w d Hd Hopen).
Qed.

End SkipFacts.

(** X17. A link whose page cannot be opened is not tried again. When
    [page.goto] raises, [_fetch_comments] returns no comment, and
    [process_links] saves this: the link gets an empty comment file. From
    then on the reader takes its address for completed and yields no
    record under it, and a worker that is handed the link passes it
    over. *)
Theorem failed_goto_leaves_an_empty_comment_file
    (fuel : nat) (renderer : str -> CommentCrawler.session)
    (hash_key link : str) (w : world) (d : gmap str str) (e : exn) :
  comment_dir w = Some d ->
  d !! (hash_key ++ TXT) = None ->
  CommentCrawler.goto (renderer link) = Raise e ->
  open_ok (CommentCrawler.final_io (renderer link)) = true ->
  exists w',
    CommentCrawler.process_each fuel renderer [(hash_key, link)] w = Some w'
    /\ CommentCrawler.file_at (hash_key ++ TXT) w' = Some []
    /\ log w' = log w ++ [(INFO, OpeningUrl link); (ERROR, FetchFailed link e);
                          (INFO, CommentsAppended 0 (hash_key ++ TXT))]
    /\ (hash_key <> [] -> forall v, (hash_key, v) ∉ (AnchorCrawler.replay w').1)
    /\ (forall fuel' renderer' v,
          CommentCrawler.process_each fuel' renderer' [(hash_key, v)] w'
          = Some (add_log (INFO, FileExistsSkip (hash_key ++ TXT)) w')).
Proof.
  intros Hd Hnew Hgoto Hopen.
  set (name := hash_key ++ TXT) in *.
  set (w1 := add_log (ERROR, FetchFailed link e) (add_log (INFO, OpeningUrl link) w)).
  assert (CommentCrawler._fetch_comments fuel name (renderer link) link
            CommentCrawler.page_to_do_plugins w = Some ([], w1)) as Hfetch.
  { unfold CommentCrawler._fetch_comments. unfold bind, emit, modify, lift.
    now rewrite Hgoto. }
  assert (comment_dir w1 = Some d) as Hd1 by exact Hd.
  set (w' := add_log (INFO, CommentsAppended 0 name)
               (CommentCrawler.set_file name (default [] (d !! name)) w1)).
  assert (CommentCrawler.process_each fuel renderer [(hash_key, link)] w = Some w')
    as Hrun.
  { cbn [CommentCrawler.process_each]. fold name.
    unfold CommentCrawler.file_at at 1. rewrite Hd. cbn [mbind option_bind].
    rewrite Hnew, Hfetch. cbn [mbind option_bind].
    now rewrite (SkipFacts.save_nothing _ name w1 d Hd1 Hopen). }
  assert (comment_dir w' = Some (<[name := []]> d)) as Hd'.
  { unfold w'. cbn. rewrite Hd. cbn. now rewrite Hnew. }
  assert (CommentCrawler.file_at name w' = Some []) as Hfile.
  { unfold CommentCrawler.file_at. rewrite Hd'. cbn. apply lookup_insert_eq. }
  exists w'. split_and!.
  - exact Hrun.
  - exact Hfile.
  - unfold w', w1. cbn. now rewrite <- !app_assoc.
  - intros Hkey v Hin.
    rewrite (ReaderFacts.replay_listed w' _ Hd') in Hin. cbn [fst] in Hin.
    unfold replay_of in Hin. apply list_elem_of_filter in Hin as [Hnot _].
    apply Hnot. apply ReaderFacts.completed_of_file; [exact Hkey|].
    fold name. rewrite lookup_insert_eq. now eexists.
  - intros fuel' renderer' v.
    rewrite SkipFacts.process_each_skip by (fold name; rewrite Hfile; now eexists).
    reflexivity.
Qed.

Lemma failed_goto_leaves_an_empty_comment_file_witness :
  comment_dir sample_world = Some ∅
  /\ (∅ : gmap str str) !! ([97] ++ TXT) = None
  /\ exists w',
       CommentCrawler.process_each 0
         (fun _ => {| CommentCrawler.goto := Raise PlaywrightError;
                      CommentCrawler.buttons := fun _ _ => Ok [];
                      CommentCrawler.views := fun _ =>
                        {| CommentCrawler.texts := Ok [];
                           CommentCrawler.heights := Ok (0, 0)%Z |};
                      CommentCrawler.flush_io := fun _ => no_fault;
                      CommentCrawler.final_io := no_fault |})
         [sample_link] sample_world = Some w'
       /\ CommentCrawler.file_at ([97] ++ TXT) w' = Some [].
Proof.
  refine (conj eq_refl (conj eq_refl _)).
  destruct (failed_goto_leaves_an_empty_comment_file 0
              (fun _ => {| CommentCrawler.goto := Raise PlaywrightError;
                           CommentCrawler.buttons := fun _ _ => Ok [];
                           CommentCrawler.views := fun _ =>
                             {| CommentCrawler.texts := Ok [];
                                CommentCrawler.heights := Ok (0, 0)%Z |};
                           CommentCrawler.flush_io := fun _ => no_fault;
                           CommentCrawler.final_io := no_fault |})
              [97] [104; 49] sample_world ∅ PlaywrightError
              eq_refl eq_refl eq_refl eq_refl)
    as (w' & Hrun & Hfile & _).
  exists w'. split; [exact Hrun|exact Hfile].
Defined.

(** X18. Links that have a comment file cost nothing. When every link
    handed to the loop of [process_links] has a comment file, the loop
    ends without asking anything of the renderer and without touching a
    file: it logs one record for each link, in their order. *)
Theorem links_with_a_comment_file_are_passed_over
    (fuel : nat) (renderer : str -> CommentCrawler.session)
    (links : list (str * str)) (w : world) :
  (forall kv, kv ∈ links -> is_Some (CommentCrawler.file_at (kv.1 ++ TXT) w)) ->
  CommentCrawler.process_each fuel renderer links w
  = Some (add_logs ((fun kv => (INFO, FileExistsSkip (kv.1 ++ TXT))) <$> links) w).
Proof.
  revert w. induction links as [|[hash_key link] links IH]; intros w Hfiles.
  - cbn [CommentCrawler.process_each fmap list_fmap].
    now rewrite ReaderFacts.add_logs_nil.
  - rewrite SkipFacts.process_each_skip by (apply (Hfiles (hash_key, link)),
                                             list_elem_of_here).
    rewrite IH.
    + rewrite fmap_cons. now rewrite ReaderFacts.add_logs_add_log.
    + intros kv Hkv. rewrite SkipFacts.file_at_add_log.
      apply Hfiles. now apply list_elem_of_further.
Qed.

Lemma links_with_a_comment_file_are_passed_over_witness :
  (forall kv, kv ∈ [([98], [104; 50])] ->
     is_Some (CommentCrawler.file_at (kv.1 ++ TXT) sample_disk))
  /\ CommentCrawler.process_each 0 (fun _ => still_page []) [([98], [104; 50])]
       sample_disk
     = Some (add_logs [(INFO, FileExistsSkip ([98] ++ TXT))] sample_disk).
Proof.
  assert (forall kv, kv ∈ [([98], [104; 50])] ->
            is_Some (CommentCrawler.file_at (kv.1 ++ TXT) sample_disk)) as Hfiles.
  { intros kv ->%list_elem_of_singleton. vm_compute. now eexists. }
  split; [exact Hfiles|].
  exact (links_with_a_comment_file_are_passed_over 0 (fun _ => still_page [])
           [([98], [104; 50])] sample_disk Hfiles).
Defined.

(** X19. The split of the links outside its range. With no worker or a
    negative number of them, [run_all_instances] starts none, and no
    link is processed. A generator that is asked to share with 0 workers
    raises [ZeroDivisionError] at the first link of the stream, before
    it yields any; on an empty stream it ends without error. With one
    worker or more, a generator whose id is none of [0 .. N - 1] yields
    nothing and raises nothing. *)
Theorem split_of_the_links_outside_its_range
    {A : Type} (stream : list A) (instance_id total_instances : Z) :
  ((total_instances <= 0)%Z ->
   CommentCrawler.run_all_instances total_instances stream = [])
  /\ (total_instances = 0%Z ->
      CommentCrawler.get_link_generator stream instance_id total_instances
      = ([], match stream with [] => None | _ :: _ => Some ZeroDivisionError end))
  /\ ((1 <= total_instances)%Z ->
      ~ (0 <= instance_id < total_instances)%Z ->
      CommentCrawler.get_link_generator stream instance_id total_instances
      = ([], None)).
Proof.
  split_and!.
  - intros HN. unfold CommentCrawler.run_all_instances. now rewrite seqZ_nil.
  - intros ->. now destruct stream.
  - intros HN Hid. rewrite PartitionFacts.generator_plain by lia.
    unfold assigned_to. rewrite ListFacts.filter_none; [reflexivity|].
    intros [i x] _ Hi. cbn [fst] in Hi.
    pose proof (Z.mod_pos_bound (Z.of_nat i) total_instances ltac:(lia)). lia.
Qed.

(** ** The links of a worker, one by one *)

Module RoundRobinFacts.
Import CommentCrawler.

(** The distance from the counter [i] to the next position of the
    worker [w]. *)
Lemma distance_here i w N :
  (0 <= w < N)%Z -> (i mod N)%Z = w -> ((w - i) mod N)%Z = 0%Z.
Proof.
  intros Hw Hi. pose proof (Z.div_mod i N ltac:(lia)) as Hdiv. rewrite Hi in Hdiv.
  symmetry. apply (Z.mod_unique_pos _ _ (- (i / N))); lia.
Qed.

Lemma distance_there i w N :
  (0 <= w < N)%Z -> (i mod N)%Z <> w -> ((w - i) mod N)%Z <> 0%Z.
Proof.
  intros Hw Hi H0. apply Hi.
  pose proof (Z.div_mod (w - i) N ltac:(lia)) as Hdiv. rewrite H0 in Hdiv.
  symmetry. apply (Z.mod_unique_pos _ _ (- ((w - i) / N))); lia.
Qed.

Lemma distance_after_here i w N :
  (0 < N)%Z -> ((w - i) mod N)%Z = 0%Z -> ((w - (i + 1)) mod N)%Z = (N - 1)%Z.
Proof.
  intros HN H0. pose proof (Z.div_mod (w - i) N ltac:(lia)) as Hdiv.
  rewrite H0 in Hdiv.
  symmetry. apply (Z.mod_unique_pos _ _ ((w - i) / N - 1)); lia.
Qed.

Lemma distance_after_there i w N :
  (0 < N)%Z -> ((w - i) mod N)%Z <> 0%Z ->
  ((w - (i + 1)) mod N)%Z = ((w - i) mod N - 1)%Z.
Proof.
  intros HN H0. pose proof (Z.div_mod (w - i) N ltac:(lia)) as Hdiv.
  pose proof (Z.mod_pos_bound (w - i) N HN).
  symmetry. apply (Z.mod_unique_pos _ _ ((w - i) / N)); lia.
Qed.

(** The [k]-th item that the generator yields from counter [i] on. *)
Lemma get_link_from_lookup {A} (stream : list A) i w N k :
  (0 <= w < N)%Z ->
  (get_link_from i stream w N).1 !! k
  = stream !! (Z.to_nat ((w - i) mod N) + k * Z.to_nat N)%nat.
Proof.
  intros Hw. revert i k. induction stream as [|x rest IH]; intros i k.
  - cbn [get_link_from fst]. now rewrite !lookup_nil.
  - cbn [get_link_from]. destruct (Z.eqb_spec N 0) as [|_]; [lia|].
    specialize (IH (i + 1)%Z).
    destruct (get_link_from (i + 1) rest w N) as [ys e]. cbn [fst] in *.
    pose proof (Z.mod_pos_bound (w - i) N ltac:(lia)) as Hbound.
    destruct (Z.eqb_spec (i mod N) w) as [Hi|Hi].
    + pose proof (distance_here i w N Hw Hi) as H0. rewrite H0.
      destruct k as [|k]; [reflexivity|].
      change ((x :: ys) !! Datatypes.S k) with (ys !! k).
      rewrite IH, (distance_after_here i w N) by lia.
      replace (Z.to_nat 0 + Datatypes.S k * Z.to_nat N)%nat
        with (Datatypes.S (Z.to_nat (N - 1) + k * Z.to_nat N)) by lia.
      reflexivity.
    + pose proof (distance_there i w N Hw Hi) as H0.
      rewrite IH, (distance_after_there i w N) by lia.
      replace (Z.to_nat ((w - i) mod N) + k * Z.to_nat N)%nat
        with (Datatypes.S (Z.to_nat ((w - i) mod N - 1) + k * Z.to_nat N)) by lia.
      reflexivity.
Qed.

End RoundRobinFacts.

(** X20. The links of a worker, one by one. With [N] workers, the
    [k]-th link that the generator of worker [w] yields is the link at
    position [w + k * N] of the stream: the workers take the links in
    turn. So a worker has a [k]-th link exactly when the stream has a
    link at that position, and no worker gets more than one link more
    than another. *)
Theorem worker_takes_every_Nth_link
    {A : Type} (stream : list A) (N : Z) :
  (1 <= N)%Z ->
  let share w := (CommentCrawler.get_link_generator stream w N).1 in
  (forall w k, (0 <= w < N)%Z ->
     share w !! k = stream !! (Z.to_nat w + k * Z.to_nat N)%nat)
  /\ (forall w k, (0 <= w < N)%Z ->
        (k < length (share w))%nat
        <-> (Z.to_nat w + k * Z.to_nat N < length stream)%nat)
  /\ (forall w1 w2, (0 <= w1 < N)%Z -> (0 <= w2 < N)%Z ->
        (length (share w1) <= length (share w2) + 1)%nat).
Proof.
  intros HN share.
  assert (forall w k, (0 <= w < N)%Z ->
            share w !! k = stream !! (Z.to_nat w + k * Z.to_nat N)%nat) as Hlookup.
  { intros w k Hw. unfold share, CommentCrawler.get_link_generator.
    rewrite RoundRobinFacts.get_link_from_lookup by exact Hw.
    now rewrite Z.sub_0_r, Z.mod_small. }
  assert (forall w k, (0 <= w < N)%Z ->
            (k < length (share w))%nat
            <-> (Z.to_nat w + k * Z.to_nat N < length stream)%nat) as Hlength.
  { intros w k Hw. rewrite <- !lookup_lt_is_Some. now rewrite Hlookup. }
  split_and!; [exact Hlookup|exact Hlength|].
  intros w1 w2 Hw1 Hw2.
  destruct (decide (length (share w1) <= length (share w2) + 1)%nat) as [|Hmore];
    [done|exfalso].
  assert (length (share w2) + 1 < length (share w1))%nat as Hlt by lia.
  apply Hlength in Hlt; [|exact Hw1].
  assert (~ (length (share w2) < length (share w2))%nat) as Hnot by lia.
  rewrite Hlength in Hnot by exact Hw2. nia.
Qed.

Lemma worker_takes_every_Nth_link_witness :
  (1 <= 3)%Z
  /\ (CommentCrawler.get_link_generator [10; 11; 12; 13; 14; 15; 16]%nat 1 3).1
     !! 1%nat
     = [10; 11; 12; 13; 14; 15; 16]%nat !! (Z.to_nat 1 + 1 * Z.to_nat 3)%nat.
Proof.
  assert (1 <= 3)%Z as HN by lia.
  split; [exact HN|].
  exact (proj1 (worker_takes_every_Nth_link [10; 11; 12; 13; 14; 15; 16]%nat 3 HN)
           1%Z 1%nat ltac:(lia)).
Defined.

(** X21. The plugins as they are written never click. The module binds
    [random] to the module of that name, so [random()] raises
    [TypeError] before [click] is called: [_safe_click] makes its three
    attempts, logs three warnings and returns without a click, and each
    of the four plugins returns [False], whatever the page holds. All
    that a plugin asks of the elements is to scroll into view. *)
Theorem plugins_as_written_never_click (pg : Plugins.page) (w : world) :
  (forall plugin, plugin ∈ CommentCrawler.page_to_do_plugins ->
     exists evs logs,
       plugin pg w = (Ok false, more evs logs w)
       /\ Plugins.activated evs = []
       /\ (forall e, e ∈ evs -> exists i ok, e = ScrollIntoView i ok))
  /\ (forall b i,
        Plugins._safe_click Plugins.random_of_import_random b i w
        = (Ok tt, more [] [(WARNING, ClickFailed 1 TypeError);
                           (WARNING, ClickFailed 2 TypeError);
                           (WARNING, ClickFailed 3 TypeError)] w)).
Proof.
  split.
  - assert (forall sel, exists evs logs,
              Plugins._click_buttons_once Plugins.random_of_import_random pg sel w
              = (Ok false, more evs logs w)
              /\ Plugins.activated evs = []
              /\ (forall e, e ∈ evs -> exists i ok, e = ScrollIntoView i ok)) as Hsel.
    { intros sel.
      destruct (PluginFacts.plugin_never_clicks pg sel w)
        as (evs & logs & Hrun & Hnone & Hvisits).
      exists evs, logs. split_and!; [exact Hrun|exact Hnone|].
      intros e He. destruct (pg sel) as [buttons|x] eqn:Hpg.
      - rewrite (Hvisits buttons eq_refl) in He. unfold visits in He.
        apply list_elem_of_fmap in He as ([i b] & -> & _). now eexists _, _.
      - revert Hrun. unfold Plugins._click_buttons_once, try_except.
        unfold bind at 1, lift at 1. rewrite Hpg.
        unfold bind, emit, modify, ret. intros Hw.
        apply (f_equal (fun r => events r.2)) in Hw. cbn in Hw.
        assert (evs = []) as ->.
        { apply (f_equal length) in Hw. rewrite length_app in Hw.
          destruct evs; [reflexivity|cbn in Hw; lia]. }
        now apply elem_of_nil in He. }
    intros plugin Hin. unfold CommentCrawler.page_to_do_plugins in Hin.
    repeat (apply elem_of_cons in Hin as [->|Hin]); [apply Hsel..|].
    now apply elem_of_nil in Hin.
  - intros b i. unfold Plugins._safe_click.
    exact (PluginFacts.safe_click_raises TypeError b i 0 3 w).
Qed.

(** X22. [_wait_for_links] stops at the first check that finds the
    timeout passed. When the idle time has reached the timeout by the
    time the stream reports its end, the generator does not sleep at
    all; otherwise it sleeps at least once, and before its last sleep
    the idle time was still short of the timeout. *)
Theorem wait_for_links_stops_at_the_first_timeout
    {A : Type} (all_links : list (WaitForLinks.arrival A)) (eof : N)
    (nap : nat -> positive) (timeout now0 : Z) :
  let r := WaitForLinks._wait_for_links all_links eof nap timeout now0 in
  let at_eof := ((WaitForLinks.pass_on all_links now0 now0).1.2 + Z.of_N eof)%Z in
  (at_eof <= WaitForLinks.now r)%Z
  /\ ((timeout <= at_eof - WaitForLinks.start_time r)%Z ->
      WaitForLinks.sleeps r = 0%nat /\ WaitForLinks.now r = at_eof)
  /\ ((at_eof - WaitForLinks.start_time r < timeout)%Z ->
      (0 < WaitForLinks.sleeps r)%nat
      /\ (WaitForLinks.now r
          - Z.pos (nap (WaitForLinks.sleeps r - 1)%nat)
          - WaitForLinks.start_time r < timeout)%Z).
Proof.
  intros r at_eof. unfold r, at_eof, WaitForLinks._wait_for_links.
  destruct (WaitForLinks.pass_on all_links now0 now0) as [[ys t] st].
  cbn [fst snd].
  pose proof (WaitFacts.idle_wait_ends nap 0 st timeout (t + Z.of_N eof))
    as (_ & Hnow & _ & _ & Hlast).
  assert ((timeout <= t + Z.of_N eof - st)%Z ->
          WaitForLinks.idle_wait nap 0 st timeout (t + Z.of_N eof)
          = ((t + Z.of_N eof)%Z, 0%nat)) as Hnone.
  { intros Hpassed. simp idle_wait.
    destruct (decide (t + Z.of_N eof - st < timeout)%Z); [lia|reflexivity]. }
  destruct (WaitForLinks.idle_wait nap 0 st timeout (t + Z.of_N eof)) as [t' k].
  cbn [fst snd WaitForLinks.now WaitForLinks.start_time WaitForLinks.sleeps] in *.
  split_and!.
  - exact Hnow.
  - intros Hpassed. specialize (Hnone Hpassed). now injection Hnone as -> ->.
  - intros Hshort. destruct (Hlast Hshort) as [Hk Hbefore]. split; [lia|exact Hbefore].
Qed.

(** ** The files of a worker *)

Module WorkerFacts.
Import CommentCrawler.

(** A save on a disk that opens the file leaves the file there. *)
Lemma save_leaves_file io name cs w :
  is_Some (comment_dir w) -> open_ok io = true ->
  is_Some (file_at name (_save_comments io name cs w).2).
Proof.
  intros [d Hd] Hopen.
  rewrite (SaveFacts.save_comments_opened io name cs w d Hd Hopen).
  assert (comment_dir (set_file name (default [] (d !! name)) w)
          = Some (<[name := default [] (d !! name)]> d)) as Hd'
    by (now apply SaveFacts.comment_dir_set_file).
  assert (file_at name (set_file name (default [] (d !! name)) w)
          = Some (default [] (d !! name))) as Hf'
    by (now apply (SaveFacts.file_at_set_file _ _ _ d)).
  destruct (AppendFacts.first_failure io (length cs))
    as [Hall|(j & partial & Hj & Hbefore & Hfail)].
  - rewrite (SaveFacts.write_comments_written io name 0 cs _ _ _ Hd' Hf')
      by exact Hall.
    cbn [snd]. rewrite SkipFacts.file_at_add_log, SaveFacts.set_file_twice.
    rewrite (SaveFacts.file_at_set_file _ _ _ d Hd). now eexists.
  - destruct (lookup_lt_is_Some_2 cs j Hj) as [c Hc].
    rewrite (SaveFacts.write_comments_failed io name 0 cs _ _ _ j c partial
               Hd' Hf' Hc) by (exact Hbefore || exact Hfail).
    cbn [snd]. rewrite SkipFacts.file_at_add_log, SaveFacts.set_file_twice.
    rewrite (SaveFacts.file_at_set_file _ _ _ d Hd). now eexists.
Qed.

(** The loop of [process_links] appends to the comment files of its
    links, and to no other. *)
Lemma process_each_appended fuel renderer links w w' :
  process_each fuel renderer links w = Some w' ->
  appended (fun name => exists kv, kv ∈ links /\ name = kv.1 ++ TXT) w w'.
Proof.
  revert w. induction links as [|[hash_key link] rest IH]; intros w.
  - intros [= <-]. apply FrameFacts.appended_refl.
  - cbn [process_each].
    assert (forall w1, appended (eq (hash_key ++ TXT)) w w1 ->
              process_each fuel renderer rest w1 = Some w' ->
              appended (fun name => exists kv, kv ∈ (hash_key, link) :: rest
                                               /\ name = kv.1 ++ TXT) w w') as Hstep.
    { intros w1 Hw1 Hrun. eapply FrameFacts.appended_trans.
      - eapply FrameFacts.appended_weaken; [|exact Hw1].
        intros name <-. exists (hash_key, link). split; [apply list_elem_of_here|done].
      - eapply FrameFacts.appended_weaken; [|exact (IH _ Hrun)].
        intros name (kv & Hkv & ->). exists kv.
        split; [now apply list_elem_of_further|done]. }
    destruct (file_at (hash_key ++ TXT) w) as [text|].
    + apply Hstep. apply FrameFacts.appended_add_log.
    + destruct (_fetch_comments fuel (hash_key ++ TXT) (renderer link) link
                  page_to_do_plugins w) as [[cs w1]|] eqn:Hfetch; [|done].
      cbn [mbind option_bind]. apply Hstep.
      eapply FrameFacts.appended_trans.
      * exact (RoundFacts.fetch_comments_appended _ _ _ _ _ _ _ Hfetch).
      * apply FrameFacts.save_appended.
Qed.

(** When the loop ends, every link it was handed has a comment file,
    if the disk lets the last save open it. *)
Lemma process_each_done fuel renderer links w w' :
  process_each fuel renderer links w = Some w' ->
  is_Some (comment_dir w) ->
  (forall kv, kv ∈ links -> open_ok (final_io (renderer kv.2)) = true) ->
  forall kv, kv ∈ links -> is_Some (file_at (kv.1 ++ TXT) w').
Proof.
  revert w. induction links as [|[hash_key link] rest IH]; intros w Hrun Hdir Hopen kv Hkv.
  - now apply elem_of_nil in Hkv.
  - cbn [process_each] in Hrun.
    assert (forall w1, is_Some (comment_dir w1) ->
              is_Some (file_at (hash_key ++ TXT) w1) ->
              process_each fuel renderer rest w1 = Some w' ->
              is_Some (file_at (kv.1 ++ TXT) w')) as Hstep.
    { intros w1 Hdir1 Hfile1 Hrun1.
      apply elem_of_cons in Hkv as [->|Hkv].
      - destruct (process_each_appended _ _ _ _ _ Hrun1) as (_ & _ & Hkeep & _).
        now apply Hkeep.
      - apply (IH w1 Hrun1 Hdir1); [|exact Hkv].
        intros kv' Hkv'. apply Hopen. now apply list_elem_of_further. }
    destruct (file_at (hash_key ++ TXT) w) as [text|] eqn:Hfile.
    + apply (Hstep (add_log (INFO, FileExistsSkip (hash_key ++ TXT)) w) Hdir);
        [|exact Hrun].
      rewrite SkipFacts.file_at_add_log, Hfile. now eexists.
    + destruct (_fetch_comments fuel (hash_key ++ TXT) (renderer link) link
                  page_to_do_plugins w) as [[cs w1]|] eqn:Hfetch; [|done].
      cbn [mbind option_bind] in Hrun.
      destruct (RoundFacts.fetch_comments_appended _ _ _ _ _ _ _ Hfetch)
        as (_ & Hdir1 & _).
      apply Hdir1 in Hdir.
      destruct (FrameFacts.save_appended (final_io (renderer link))
                  (hash_key ++ TXT) cs w1) as (_ & Hdir2 & _).
      apply (Hstep (_save_comments (final_io (renderer link)) (hash_key ++ TXT)
                      cs w1).2); [now apply Hdir2| |exact Hrun].
      apply save_leaves_file; [exact Hdir|].
      apply (Hopen (hash_key, link)), list_elem_of_here.
Qed.

(** One worker among one takes every link. *)
Lemma sole_worker {A} (all_links : list A) i :
  (get_link_from i all_links 0 1).1 = all_links.
Proof.
  revert i. induction all_links as [|x rest IH]; intros i; [reflexivity|].
  cbn [get_link_from]. cbn [Z.eqb]. specialize (IH (i + 1)%Z).
  destruct (get_link_from (i + 1) rest 0 1) as [ys e]. cbn [fst] in *.
  rewrite Z.mod_1_r. cbn [Z.eqb]. now rewrite IH.
Qed.

End WorkerFacts.

(** X23. What a worker does to the disk. Whenever the loop of
    [process_links] ends, it has left the link log as it was; no comment
    file has gone or lost text: each holds what it held, followed by what
    was appended; and the only files that have changed are the comment
    files of the links the worker was handed. When the disk lets the
    last save of each link open its file, every link that the worker was
    handed has a comment file at the end. *)
Theorem worker_appends_to_the_files_of_its_links
    (fuel : nat) (renderer : str -> CommentCrawler.session)
    (links : list (str * str)) (w w' : world) :
  CommentCrawler.process_each fuel renderer links w = Some w' ->
  anchor_file w' = anchor_file w
  /\ (forall name, is_Some (CommentCrawler.file_at name w) ->
                   is_Some (CommentCrawler.file_at name w'))
  /\ (forall name, exists extra,
        default [] (CommentCrawler.file_at name w')
        = default [] (CommentCrawler.file_at name w) ++ extra)
  /\ (forall name, (forall kv, kv ∈ links -> name <> kv.1 ++ TXT) ->
        CommentCrawler.file_at name w' = CommentCrawler.file_at name w)
  /\ (is_Some (comment_dir w) ->
      (forall kv, kv ∈ links ->
         open_ok (CommentCrawler.final_io (renderer kv.2)) = true) ->
      forall kv, kv ∈ links -> is_Some (CommentCrawler.file_at (kv.1 ++ TXT) w')).
Proof.
  intros Hrun.
  destruct (WorkerFacts.process_each_appended _ _ _ _ _ Hrun)
    as (Hlog & _ & Hkeep & Hgrow & Hother).
  split_and!; [exact Hlog|exact Hkeep|exact Hgrow| |].
  - intros name Hname. apply Hother. intros (kv & Hkv & ->). now apply (Hname kv).
  - intros Hdir Hopen. now apply (WorkerFacts.process_each_done _ _ _ _ _ Hrun).
Qed.

Lemma worker_appends_to_the_files_of_its_links_witness :
  exists w',
    CommentCrawler.process_each 6 (fun _ => still_page [[120]; [121]])
      [sample_link] sample_world = Some w'
    /\ anchor_file w' = anchor_file sample_world.
Proof.
  destruct (CommentCrawler.process_each 6 (fun _ => still_page [[120]; [121]])
              [sample_link] sample_world) as [w'|] eqn:Hrun;
    [|vm_compute in Hrun; discriminate].
  exists w'. split; [reflexivity|].
  exact (proj1 (worker_appends_to_the_files_of_its_links 6
                  (fun _ => still_page [[120]; [121]]) [sample_link]
                  sample_world w' Hrun)).
Defined.

(** X24. A pass of a single worker leaves nothing to do. When one
    worker alone has gone through the link log, on a disk that lets the
    last save of each link open its file, a new pass of the reader
    yields no record with an address: every address of the log is
    completed, whether its comments were fetched in this pass or
    before, and whether or not its page gave any comment. *)
Theorem pass_of_one_worker_leaves_nothing
    (fuel : nat) (renderer : str -> CommentCrawler.session) (w w' : world) :
  is_Some (comment_dir w) ->
  (forall link, open_ok (CommentCrawler.final_io (renderer link)) = true) ->
  CommentCrawler.process_links fuel renderer 0 1 w = Some w' ->
  anchor_file w' = anchor_file w
  /\ forall k v, (k, v) ∈ (AnchorCrawler.replay w').1 -> k = [].
Proof.
  intros [d Hd] Hopen. unfold CommentCrawler.process_links.
  rewrite (ReaderFacts.replay_listed w d Hd). cbv zeta.
  set (lines := from_option Py.splitlines_keepends [] (anchor_file w)).
  set (w1 := add_logs _ w).
  unfold CommentCrawler.get_link_generator. rewrite WorkerFacts.sole_worker.
  intros Hrun.
  destruct (WorkerFacts.process_each_appended _ _ _ _ _ Hrun)
    as (Hlog & Hdir & Hkeep & _).
  assert (is_Some (comment_dir w1)) as Hd1 by (unfold w1; cbn; rewrite Hd; now eexists).
  pose proof (WorkerFacts.process_each_done _ _ _ _ _ Hrun Hd1
                (fun kv _ => Hopen kv.2)) as Hdone.
  split; [exact Hlog|].
  intros k v Hin. destruct (decide (k = [])) as [|Hk]; [done|exfalso].
  destruct (proj1 Hdir Hd1) as [d' Hd'].
  rewrite (ReaderFacts.replay_listed w' d' Hd') in Hin. cbn [fst] in Hin.
  replace (anchor_file w') with (anchor_file w) in Hin by (now rewrite Hlog).
  fold lines in Hin. unfold replay_of in Hin.
  apply list_elem_of_filter in Hin as [Hnot Hrec]. cbn [fst] in Hnot.
  apply Hnot. apply ReaderFacts.completed_of_file; [exact Hk|].
  assert (is_Some (CommentCrawler.file_at (k ++ TXT) w')) as Hfile.
  { destruct (decide (k ∈ AnchorCrawler.completed_hashes d)) as [Hold|Hnew].
    - apply Hkeep. apply NameFacts.completed_inv in Hold as [_ Hold].
      unfold CommentCrawler.file_at, w1. cbn. now rewrite Hd.
    - apply (Hdone (k, v)). unfold replay_of.
      apply list_elem_of_filter. split; [exact Hnew|exact Hrec]. }
  unfold CommentCrawler.file_at in Hfile. now rewrite Hd' in Hfile.
Qed.

Lemma pass_of_one_worker_leaves_nothing_witness :
  is_Some (comment_dir sample_disk)
  /\ exists w',
       CommentCrawler.process_links 6 (fun _ => still_page [[120]; [121]]) 0 1
         sample_disk = Some w'
       /\ anchor_file w' = anchor_file sample_disk.
Proof.
  assert (is_Some (comment_dir sample_disk)) as Hdir by (now eexists).
  split; [exact Hdir|].
  destruct (CommentCrawler.process_links 6 (fun _ => still_page [[120]; [121]]) 0 1
              sample_disk) as [w'|] eqn:Hrun;
    [|vm_compute in Hrun; discriminate].
  exists w'. split; [reflexivity|].
  exact (proj1 (pass_of_one_worker_leaves_nothing 6
                  (fun _ => still_page [[120]; [121]]) sample_disk w'
                  Hdir (fun _ => eq_refl) Hrun)).
Defined.

(** X25. Workers keep off each other's files. When the stream of links
    holds no address twice, the links of two workers have no address in
    common; so whenever the loop of one worker ends, the comment files of
    the links of every other worker are as they were. *)
Theorem workers_keep_off_each_others_files
    (fuel : nat) (renderer : str -> CommentCrawler.session)
    (all_links : list (str * str)) (N w1 w2 : Z) (w w' : world) :
  (1 <= N)%Z ->
  w1 <> w2 ->
  NoDup all_links.*1 ->
  CommentCrawler.process_each fuel renderer
    (CommentCrawler.get_link_generator all_links w1 N).1 w = Some w' ->
  forall kv, kv ∈ (CommentCrawler.get_link_generator all_links w2 N).1 ->
    (kv.1 ∉ (CommentCrawler.get_link_generator all_links w1 N).1.*1)
    /\ CommentCrawler.file_at (kv.1 ++ TXT) w'
       = CommentCrawler.file_at (kv.1 ++ TXT) w.
Proof.
  intros HN Hne Hnd Hrun kv Hkv.
  rewrite PartitionFacts.generator_plain in Hrun, Hkv |- * by lia.
  cbn [fst] in Hrun, Hkv |- *.
  assert (forall kv1, kv1 ∈ (assigned_to N w1 all_links).*2 -> kv1.1 <> kv.1)
    as Hapart.
  { intros kv1 Hkv1 Heq.
    apply list_elem_of_fmap in Hkv1 as ([i1 x1] & -> & Hin1).
    apply list_elem_of_fmap in Hkv as ([i2 x2] & -> & Hin2).
    apply PartitionFacts.elem_of_assigned in Hin1 as [Hl1 Hm1].
    apply PartitionFacts.elem_of_assigned in Hin2 as [Hl2 Hm2].
    cbn [snd] in Heq.
    assert (i1 = i2) as ->.
    { apply (NoDup_lookup all_links.*1 i1 i2 x1.1); [exact Hnd| |].
      - now rewrite list_lookup_fmap, Hl1.
      - now rewrite list_lookup_fmap, Hl2, Heq. }
    congruence. }
  split.
  - intros (kv1 & Heq & Hin)%list_elem_of_fmap. now apply (Hapart kv1 Hin).
  - destruct (WorkerFacts.process_each_appended _ _ _ _ _ Hrun)
      as (_ & _ & _ & _ & Hother).
    apply Hother. intros (kv1 & Hin & Heq).
    apply app_inv_tail in Heq. now apply (Hapart kv1 Hin).
Qed.

Lemma workers_keep_off_each_others_files_witness :
  (1 <= 2)%Z
  /\ (0 <> 1)%Z
  /\ NoDup sample_links.*1
  /\ exists w',
       CommentCrawler.process_each 6 (fun _ => still_page [[120]; [121]])
         (CommentCrawler.get_link_generator sample_links 0 2).1 sample_world
       = Some w'
       /\ CommentCrawler.file_at ([98] ++ TXT) w'
          = CommentCrawler.file_at ([98] ++ TXT) sample_world.
Proof.
  assert (1 <= 2)%Z as HN by lia.
  assert (0 <> 1)%Z as Hne by lia.
  assert (NoDup sample_links.*1) as Hnd.
  { apply (bool_decide_unpack _). vm_compute. exact I. }
  refine (conj HN (conj Hne (conj Hnd _))).
  destruct (CommentCrawler.process_each 6 (fun _ => still_page [[120]; [121]])
              (CommentCrawler.get_link_generator sample_links 0 2).1 sample_world)
    as [w'|] eqn:Hrun; [|vm_compute in Hrun; discriminate].
  exists w'. split; [reflexivity|].
  apply (workers_keep_off_each_others_files 6
           (fun _ => still_page [[120]; [121]]) sample_links 2 0 1
           sample_world w' HN Hne Hnd Hrun ([98], [104; 50])).
  vm_compute. apply list_elem_of_here.
Defined.

(** X26. The reader never raises and never writes. On every world a
    pass of [read_persisted_links] returns normally; it leaves the link
    log and the directory of comments as they are and only adds to the
    log of messages. Without a link log it yields nothing. No record it
    yields has a [KEY_VALUE_SEPARATOR] in its address, and none has a
    completed address. *)
Theorem reader_never_raises_and_only_reads (w : world) :
  (AnchorCrawler.read_persisted_links ([], w)).1 = Ok tt
  /\ anchor_file (AnchorCrawler.replay w).2 = anchor_file w
  /\ comment_dir (AnchorCrawler.replay w).2 = comment_dir w
  /\ events (AnchorCrawler.replay w).2 = events w
  /\ log w `prefix_of` log (AnchorCrawler.replay w).2
  /\ (anchor_file w = None -> (AnchorCrawler.replay w).1 = [])
  /\ (forall k v, (k, v) ∈ (AnchorCrawler.replay w).1 ->
        (9247 ∉ k)
        /\ forall d, comment_dir w = Some d -> k ∉ AnchorCrawler.completed_hashes d).
Proof.
  destruct (comment_dir w) as [d|] eqn:Hd.
  - rewrite (ReaderFacts.replay_listed w d Hd). cbv zeta. cbn [fst snd].
    split_and!.
    + unfold AnchorCrawler.read_persisted_links, try_except.
      unfold bind at 1, get. cbn [snd]. rewrite Hd.
      unfold bind at 1, in_gen at 1, emit, modify. cbn [fst snd].
      destruct (anchor_file w) as [text|]; [|reflexivity].
      now rewrite ReaderFacts.read_lines_spec.
    + reflexivity.
    + exact Hd.
    + reflexivity.
    + now eexists.
    + now intros ->.
    + intros k v Hin. unfold replay_of in Hin.
      apply list_elem_of_filter in Hin as [Hnot Hrec]. cbn [fst] in Hnot.
      split.
      * apply list_elem_of_omap in Hrec as (line & _ & Hline).
        now apply ReaderFacts.record_of_Some in Hline as [_ Hk].
      * now intros d' [= <-].
  - rewrite (ReaderFacts.replay_unlisted w Hd). cbn [fst snd].
    split_and!.
    + unfold AnchorCrawler.read_persisted_links, try_except.
      unfold bind at 1, get. cbn [snd]. now rewrite Hd.
    + reflexivity.
    + exact Hd.
    + reflexivity.
    + now eexists.
    + reflexivity.
    + intros k v Hin. now apply elem_of_nil in Hin.
Qed.
